(** * Isolation Forest (pkg/detectors/iforest): a shallow embedding

    The development follows [iforest.go] definition by definition.

    - [float64] values are IEEE-754 binary64 numbers, modelled by the
      Standard Library's [spec_float] at precision 53 and exponent bound
      1024, each operation rounded to nearest-even once (no fused
      multiply-add).  [spec_float] has a single NaN.
    - Go's [int] is modelled by [Z]; the only arithmetic the package does on
      ints is [depth+1] and [len-1].
    - A run-time panic (index out of range, nil dereference, slice bounds,
      [make] with a negative length, [Intn] with a non-positive bound)
      aborts the call: it is the [Panic] outcome, which carries no forest.
      What the receiver holds after a panic, for a caller that recovers
      from it, is given apart ([FitReceiver], [stepAll], [runAll]).
    - Memory is not modelled: [make] is taken to succeed for every length
      that is not negative.  The run time refuses lengths above
      [maxAlloc] bytes ([makeAccepts]), and running out of memory ends the
      program.
    - The packages [math], [math/rand] and [encoding/gob] are not part of
      the repository.  [math] and [math/rand] are interfaces ([GoMath],
      [GoRand]); the facts used about them are stated as laws taken from
      their documentation.  Of [encoding/gob] the type check of the encoder
      is modelled, and the decoder is an interface ([GobDecoder]).
    - The mutex is not modelled: every method is a sequential state
      transformer. *)

From Stdlib Require Import ZArith List Bool Lia String Ascii.
From Stdlib Require Import Permutation Sorted.
From Stdlib Require Import SpecFloat.
Import ListNotations.
Local Open Scope Z_scope.

(** ** float64 *)

Module F64.

Definition t : Type := spec_float.

Definition prec : Z := 53.
Definition emax : Z := 1024.

Definition nan : t := S754_nan.
Definition zero : t := S754_zero false.

Definition add (x y : t) : t := SFadd prec emax x y.
Definition sub (x y : t) : t := SFsub prec emax x y.
Definition mul (x y : t) : t := SFmul prec emax x y.
Definition div (x y : t) : t := SFdiv prec emax x y.
Definition neg (x : t) : t := SFopp x.

(** Go's [<], [<=], [==], [>], [>=] on float64: false as soon as an
    operand is NaN. *)
Definition ltb (x y : t) : bool := SFltb x y.
Definition leb (x y : t) : bool := SFleb x y.
Definition eqb (x y : t) : bool := SFeqb x y.
Definition gtb (x y : t) : bool := SFltb y x.
Definition geb (x y : t) : bool := SFleb y x.

Definition is_nan (x : t) : bool :=
  match x with S754_nan => true | _ => false end.

(** [float64(n)] for an int [n]: the nearest double. *)
Definition of_int (n : Z) : t := binary_normalize prec emax n 0 false.

Definition one : t := of_int 1.
Definition two : t := of_int 2.

(** A decimal literal [m / 10^k], rounded once to the nearest double as
    the Go compiler does for a float constant. *)
Definition dec (m : positive) (k : nat) : t :=
  let '(q, e, l) :=
    SFdiv_core_binary prec emax (Zpos m) 0 (10 ^ Z.of_nat k) 0 in
  binary_round_aux prec emax false q e l.

Definition min_int64 : Z := - 2 ^ 63.
Definition max_int64 : Z := 2 ^ 63 - 1.

(** The integer part of a finite float, truncated toward zero. *)
Definition trunc (x : t) : option Z :=
  match x with
  | S754_zero _ => Some 0
  | S754_finite s m e =>
      let mag := if 0 <=? e then Zpos m * 2 ^ e else Zpos m / 2 ^ (- e) in
      Some (if s then - mag else mag)
  | _ => None
  end.

(** [int(x)] for a float64 [x].  When the truncated value is not an
    int64 (NaN, infinities, out of range) the Go specification leaves the
    result to the implementation: [undef] is that result. *)
Definition to_int (undef : t -> Z) (x : t) : Z :=
  match trunc x with
  | Some v => if (min_int64 <=? v) && (v <=? max_int64) then v else undef x
  | None => undef x
  end.

End F64.

Definition float64 : Type := F64.t.

(** ** Outcomes of a call *)

Inductive error : Type :=
| ErrEmptyData                 (* errors.New("empty training data") *)
| ErrNotTrained                (* errors.New("model not trained") *)
| ErrGob (msg : string)        (* an error of encoding/gob *)
| ErrCanceled.                 (* ctx.Err() *)

Inductive panic : Type :=
| IndexOutOfRange
| SliceBoundsOutOfRange
| NilDereference
| MakeSliceLenOutOfRange
| IntnInvalidArgument.

(** The outcome of a Go function returning [(T, error)]. *)
Inductive res (A : Type) : Type :=
| Val (a : A)
| Error (e : error)
| Panic (p : panic).
Arguments Val {A} a.
Arguments Error {A} e.
Arguments Panic {A} p.

Definition bind {A B : Type} (c : res A) (k : A -> res B) : res B :=
  match c with
  | Val a => k a
  | Error e => Error e
  | Panic p => Panic p
  end.

Declare Scope res_scope.
Delimit Scope res_scope with res.
Notation "x <- c ;; k" := (bind c (fun x => k))
  (at level 61, c at next level, right associativity) : res_scope.
Notation "' p <- c ;; k" := (bind c (fun x => let p := x in k))
  (at level 61, p pattern, c at next level, right associativity) : res_scope.
Local Open Scope res_scope.

(** [s[i]] on a slice, with Go's bounds check. *)
Definition index {A : Type} (s : list A) (i : Z) : res A :=
  if i <? 0 then Panic IndexOutOfRange
  else match nth_error s (Z.to_nat i) with
       | Some a => Val a
       | None => Panic IndexOutOfRange
       end.

Definition len {A : Type} (s : list A) : Z := Z.of_nat (List.length s).

(** ** The packages the forest imports *)

(** Package [math], and the implementation-defined part of the float to
    int conversion. *)
Class GoMath : Type := {
  math_Log : float64 -> float64;
  math_Log2 : float64 -> float64;
  math_Pow : float64 -> float64 -> float64;
  math_Ceil : float64 -> float64;
  int_undef : float64 -> Z
}.

(** Package [math/rand]: a [*rand.Rand] is its state, of type [Rand]; each
    method returns the state it leaves behind.  [rand_New seed] is
    [rand.New(rand.NewSource(seed))]. *)
Class GoRand (Rand : Type) : Type := {
  rand_New : Z -> Rand;
  rand_Perm : Rand -> Z -> list Z * Rand;
  rand_Intn : Rand -> Z -> Z * Rand;
  rand_Float64 : Rand -> float64 * Rand
}.

(** ** encoding/gob: which types an Encoder accepts

    [Encode] compiles an encoding engine for the type of its argument
    before it writes any value.  Pointers are followed to their base type;
    a slice is accepted when its element type is; of a struct only the
    exported fields are sent, and a struct that has fields but no exported
    one is refused with the error [gob: type T has no exported fields]. *)

Module Gob.

Inductive type : Type :=
| Int
| Float64
| Ptr (elem : type)
| Slice (elem : type)
| Struct (name : string) (fields : list (string * type))
| Recur (name : string).  (* a struct met again inside its own fields *)

(** A field is exported when its name starts with an upper-case letter. *)
Definition isExported (name : string) : bool :=
  match name with
  | EmptyString => false
  | String c _ =>
      let n := nat_of_ascii c in (65 <=? n)%nat && (n <=? 90)%nat
  end.

(** The error of the engine compiler for [t], if any. *)
Fixpoint compileEnc (t : type) : option string :=
  match t with
  | Int | Float64 | Recur _ => None
  | Ptr elem | Slice elem => compileEnc elem
  | Struct name fields =>
      let fix sendFields (fs : list (string * type)) (sent : nat)
        : option string :=
        match fs with
        | [] =>
            if (0 <? List.length fields)%nat && (sent =? 0)%nat
            then Some ("gob: type " ++ name ++ " has no exported fields")%string
            else None
        | (fname, ft) :: fs' =>
            if isExported fname then
              match compileEnc ft with
              | Some e => Some e
              | None => sendFields fs' (S sent)
              end
            else sendFields fs' sent
        end in
      sendFields fields 0%nat
  end.

End Gob.

(** ** Trees *)

(** [type node struct]: [left] and [right] are pointers, [None] is nil. *)
Inductive node : Type :=
| Node (splitFeature : Z) (splitValue : float64)
       (left right : option node) (size : Z).

(** [&node{size: n}] *)
Definition leaf (n : Z) : node := Node 0 F64.zero None None n.

(** [type iTree struct { root *node }] *)
Record iTree : Type := { root : option node }.

(** The Go types of the fields that [Save] encodes, read off the struct
    declarations of [iforest.go]. *)
Definition nodeType : Gob.type :=
  Gob.Struct "iforest.node"
    [ ("splitFeature", Gob.Int); ("splitValue", Gob.Float64);
      ("left", Gob.Ptr (Gob.Recur "iforest.node"));
      ("right", Gob.Ptr (Gob.Recur "iforest.node"));
      ("size", Gob.Int) ]%string.

Definition iTreeType : Gob.type :=
  Gob.Struct "iforest.iTree" [ ("root", Gob.Ptr nodeType) ]%string.

Definition treesType : Gob.type := Gob.Slice (Gob.Ptr iTreeType).

(** The bytes an Encoder appends to its buffer for a value whose type it
    accepts. *)
Class GobWire : Type := {
  gob_int : list Byte.byte -> Z -> list Byte.byte;
  gob_float64 : list Byte.byte -> float64 -> list Byte.byte;
  gob_trees : list Byte.byte -> list (option iTree) -> list Byte.byte
}.

(** A gob Decoder.  [Decode(&x)] is given the current value of [x] and
    returns the value it leaves in [x] together with its error, if any. *)
Class GobDecoder : Type := {
  decoder : Type;
  gob_NewDecoder : list Byte.byte -> decoder;
  gob_Decode_int : decoder -> Z -> decoder * Z * option error;
  gob_Decode_float64 :
    decoder -> float64 -> decoder * float64 * option error;
  gob_Decode_trees :
    decoder -> list (option iTree) ->
    decoder * list (option iTree) * option error
}.

(** [detectors.Score]; [Metadata] is never set by the forest and stays
    nil. *)
Record Score : Type := {
  Value : float64;
  IsAnomaly : bool;
  Features : list float64
}.

(** What the scheduler lets [PredictStream] observe.  One iteration of its
    loop blocks in a [select] on [ctx.Done()] and the input channel; when a
    sample was received and scored, it blocks in a second [select] on the
    output channel and [ctx.Done()]. *)
Inductive sendEvent : Type :=
| Sent                          (* the consumer took the record *)
| SendCanceled.                 (* ctx.Done() fired first *)

Inductive recvEvent : Type :=
| Canceled                                        (* ctx.Done() *)
| Closed                                          (* input was closed *)
| Received (sample : list float64) (s : sendEvent).

(** How a call of [PredictStream] ends: it returns, it panics, or the
    events run out while it is blocked. *)
Inductive ending : Type :=
| Returned (err : option error)
| Panicked (p : panic)
| Blocked.

Section Forest.

Context {M : GoMath} {Rand : Type} {R : GoRand Rand}.
Context {W : GobWire} {D : GobDecoder}.

Definition to_int (x : float64) : Z := F64.to_int int_undef x.

(** [type IsolationForest struct] without its mutex; [trees] holds
    [*iTree] pointers. *)
Record IsolationForest : Type := {
  nTrees : Z;
  sampleSize : Z;
  contamination : float64;
  threshold : float64;
  maxDepth : Z;
  rng : Rand;
  trees : list (option iTree);
  trained : bool;
  avgPathLength : float64
}.

(** *** Options and [New] *)

Definition set_nTrees (n : Z) (f : IsolationForest) : IsolationForest :=
  {| nTrees := n; sampleSize := sampleSize f;
     contamination := contamination f; threshold := threshold f;
     maxDepth := maxDepth f; rng := rng f; trees := trees f;
     trained := trained f; avgPathLength := avgPathLength f |}.

Definition set_sampleSize (n : Z) (f : IsolationForest) : IsolationForest :=
  {| nTrees := nTrees f; sampleSize := n;
     contamination := contamination f; threshold := threshold f;
     maxDepth := maxDepth f; rng := rng f; trees := trees f;
     trained := trained f; avgPathLength := avgPathLength f |}.

Definition set_contamination (c : float64) (f : IsolationForest)
  : IsolationForest :=
  {| nTrees := nTrees f; sampleSize := sampleSize f;
     contamination := c; threshold := threshold f;
     maxDepth := maxDepth f; rng := rng f; trees := trees f;
     trained := trained f; avgPathLength := avgPathLength f |}.

Definition set_threshold (t : float64) (f : IsolationForest)
  : IsolationForest :=
  {| nTrees := nTrees f; sampleSize := sampleSize f;
     contamination := contamination f; threshold := t;
     maxDepth := maxDepth f; rng := rng f; trees := trees f;
     trained := trained f; avgPathLength := avgPathLength f |}.

Definition set_maxDepth (d : Z) (f : IsolationForest) : IsolationForest :=
  {| nTrees := nTrees f; sampleSize := sampleSize f;
     contamination := contamination f; threshold := threshold f;
     maxDepth := d; rng := rng f; trees := trees f;
     trained := trained f; avgPathLength := avgPathLength f |}.

Definition set_rng (r : Rand) (f : IsolationForest) : IsolationForest :=
  {| nTrees := nTrees f; sampleSize := sampleSize f;
     contamination := contamination f; threshold := threshold f;
     maxDepth := maxDepth f; rng := r; trees := trees f;
     trained := trained f; avgPathLength := avgPathLength f |}.

Definition set_trees (ts : list (option iTree)) (f : IsolationForest)
  : IsolationForest :=
  {| nTrees := nTrees f; sampleSize := sampleSize f;
     contamination := contamination f; threshold := threshold f;
     maxDepth := maxDepth f; rng := rng f; trees := ts;
     trained := trained f; avgPathLength := avgPathLength f |}.

Definition set_trained (b : bool) (f : IsolationForest) : IsolationForest :=
  {| nTrees := nTrees f; sampleSize := sampleSize f;
     contamination := contamination f; threshold := threshold f;
     maxDepth := maxDepth f; rng := rng f; trees := trees f;
     trained := b; avgPathLength := avgPathLength f |}.

Definition set_avgPathLength (a : float64) (f : IsolationForest)
  : IsolationForest :=
  {| nTrees := nTrees f; sampleSize := sampleSize f;
     contamination := contamination f; threshold := threshold f;
     maxDepth := maxDepth f; rng := rng f; trees := trees f;
     trained := trained f; avgPathLength := a |}.

(** [type Option]: a function that updates the forest it is given.  The
    package builds options with [WithTrees], [WithSampleSize],
    [WithContamination] and [WithSeed] only; [applyOption] is the call
    [opt(f)]. *)
Inductive Option : Type :=
| WithTrees (n : Z)
| WithSampleSize (n : Z)
| WithContamination (c : float64)
| WithSeed (seed : Z).

Definition applyOption (opt : Option) (f : IsolationForest)
  : IsolationForest :=
  match opt with
  | WithTrees n => set_nTrees n f
  | WithSampleSize n => set_sampleSize n f
  | WithContamination c => set_contamination c f
  | WithSeed seed => set_rng (rand_New seed) f
  end.

(** [int(math.Ceil(math.Log2(float64(sampleSize))))] *)
Definition depthOf (sampleSize : Z) : Z :=
  to_int (math_Ceil (math_Log2 (F64.of_int sampleSize))).

Definition New (opts : list Option) : IsolationForest :=
  let f := {| nTrees := 100; sampleSize := 256;
              contamination := F64.dec 1 1;
              threshold := F64.dec 5 1;
              maxDepth := 0;
              rng := rand_New 42;
              trees := [];
              trained := false;
              avgPathLength := F64.zero |} in
  let f := fold_left (fun f opt => applyOption opt f) opts f in
  set_maxDepth (depthOf (sampleSize f)) f.

(** *** Scoring *)

(** [averagePathLength]: [2*(math.Log(n-1)+0.5772156649) - 2*(n-1)/n] *)
Definition averagePathLength (n : float64) : float64 :=
  if F64.leb n F64.one then F64.zero
  else F64.sub
         (F64.mul F64.two
            (F64.add (math_Log (F64.sub n F64.one))
                     (F64.dec 5772156649 10)))
         (F64.div (F64.mul F64.two (F64.sub n F64.one)) n).

(** [pathLength] on a non-nil node. *)
Fixpoint pathLength_node (sample : list float64) (n : node)
         (currentDepth : Z) : res float64 :=
  match n with
  | Node feature split l r size =>
      match l, r with
      | None, None =>
          Val (F64.add (F64.of_int currentDepth)
                       (averagePathLength (F64.of_int size)))
      | _, _ =>
          x <- index sample feature ;;
          if F64.ltb x split then
            match l with
            | Some ln => pathLength_node sample ln (currentDepth + 1)
            | None => Panic NilDereference
            end
          else
            match r with
            | Some rn => pathLength_node sample rn (currentDepth + 1)
            | None => Panic NilDereference
            end
      end
  end.

(** [pathLength(sample, n, currentDepth)] for a [*node]: reading
    [n.left] of a nil [n] panics. *)
Definition pathLength (sample : list float64) (n : option node)
           (currentDepth : Z) : res float64 :=
  match n with
  | Some n => pathLength_node sample n currentDepth
  | None => Panic NilDereference
  end.

(** The loop [for _, tree := range f.trees { totalPath += ... }]. *)
Fixpoint totalPathLength (sample : list float64)
         (ts : list (option iTree)) (totalPath : float64) : res float64 :=
  match ts with
  | [] => Val totalPath
  | tree :: ts' =>
      match tree with
      | None => Panic NilDereference
      | Some tr =>
          p <- pathLength sample (root tr) 0 ;;
          totalPathLength sample ts' (F64.add totalPath p)
      end
  end.

Definition predictOne (f : IsolationForest) (sample : list float64)
  : res float64 :=
  totalPath <- totalPathLength sample (trees f) F64.zero ;;
  let avgPath := F64.div totalPath (F64.of_int (len (trees f))) in
  let score := math_Pow F64.two
                        (F64.div (F64.neg avgPath) (avgPathLength f)) in
  Val score.

(** [predict]: scores are produced in input order; the first panic
    aborts the batch. *)
Fixpoint predict (f : IsolationForest) (data : list (list float64))
  : res (list float64) :=
  match data with
  | [] => Val []
  | sample :: rest =>
      score <- predictOne f sample ;;
      scores <- predict f rest ;;
      Val (score :: scores)
  end.

Definition Predict (f : IsolationForest) (data : list (list float64))
  : res (list float64) :=
  if negb (trained f) then Error ErrNotTrained else predict f data.

Definition PredictOne (f : IsolationForest) (sample : list float64)
  : res float64 :=
  if negb (trained f) then Error ErrNotTrained else predictOne f sample.

(** *** Training *)

(** The loop of [buildNode] over [data[1:]] that finds the minimum and
    the maximum of column [feature]. *)
Fixpoint minMax (rows : list (list float64)) (feature : Z)
         (minVal maxVal : float64) : res (float64 * float64) :=
  match rows with
  | [] => Val (minVal, maxVal)
  | row :: rest =>
      x <- index row feature ;;
      let minVal := if F64.ltb x minVal then x else minVal in
      let maxVal := if F64.gtb x maxVal then x else maxVal in
      minMax rest feature minVal maxVal
  end.

(** The partition loop of [buildNode]: strictly smaller rows go left,
    the others right, both in input order. *)
Fixpoint partitionRows (rows : list (list float64)) (feature : Z)
         (splitValue : float64)
  : res (list (list float64) * list (list float64)) :=
  match rows with
  | [] => Val ([], [])
  | row :: rest =>
      x <- index row feature ;;
      ' (leftData, rightData) <- partitionRows rest feature splitValue ;;
      if F64.ltb x splitValue
      then Val (row :: leftData, rightData)
      else Val (leftData, row :: rightData)
  end.

(** [buildNode] by recursion on [remaining], the number of levels left
    before [depth] reaches [f.maxDepth]; [buildNode_unfold] below gives
    the equation with the test [depth >= f.maxDepth] of the source. *)
Fixpoint buildNode_rem (remaining : nat) (r : Rand)
         (data : list (list float64)) (nFeatures : Z)
  : res (node * Rand) :=
  let n := len data in
  match remaining with
  | O => Val (leaf n, r)
  | S remaining' =>
      if n <=? 1 then Val (leaf n, r)
      else if nFeatures <=? 0 then Panic IntnInvalidArgument
      else
        let '(feature, r) := rand_Intn r nFeatures in
        row0 <- index data 0 ;;
        x0 <- index row0 feature ;;
        ' (minVal, maxVal) <- minMax (tl data) feature x0 x0 ;;
        if F64.eqb minVal maxVal then Val (leaf n, r)
        else
          let '(u, r) := rand_Float64 r in
          let splitValue :=
            F64.add minVal (F64.mul u (F64.sub maxVal minVal)) in
          ' (leftData, rightData) <- partitionRows data feature splitValue ;;
          ' (l, r) <- buildNode_rem remaining' r leftData nFeatures ;;
          ' (rt, r) <- buildNode_rem remaining' r rightData nFeatures ;;
          Val (Node feature splitValue (Some l) (Some rt) 0, r)
  end.

(** [f.buildNode(data, nFeatures, depth)]; the generator it returns is
    the state of [f.rng] after the call. *)
Definition buildNode (f : IsolationForest) (data : list (list float64))
           (nFeatures depth : Z) : res (node * Rand) :=
  buildNode_rem (Z.to_nat (maxDepth f - depth)) (rng f) data nFeatures.

Definition buildTree (f : IsolationForest) (data : list (list float64))
           (nFeatures depth : Z) : res (iTree * Rand) :=
  ' (n, r) <- buildNode f data nFeatures depth ;;
  Val ({| root := Some n |}, r).

(** [s[:high]] *)
Definition slice_to {A : Type} (s : list A) (high : Z) : res (list A) :=
  if (high <? 0) || (len s <? high) then Panic SliceBoundsOutOfRange
  else Val (firstn (Z.to_nat high) s).

(** [for j, idx := range indices { sample[j] = data[idx] }] *)
Fixpoint gather (data : list (list float64)) (indices : list Z)
  : res (list (list float64)) :=
  match indices with
  | [] => Val []
  | idx :: rest =>
      row <- index data idx ;;
      rows <- gather data rest ;;
      Val (row :: rows)
  end.

(** The tree-building loop of [Fit], [count] iterations: the trees in
    order and the forest with its generator advanced. *)
Fixpoint buildTrees (count : nat) (f : IsolationForest)
         (data : list (list float64)) (nSamples sampleSize nFeatures : Z)
  : res (list (option iTree) * IsolationForest) :=
  match count with
  | O => Val ([], f)
  | S count' =>
      let '(perm, r) := rand_Perm (rng f) nSamples in
      let f := set_rng r f in
      indices <- slice_to perm sampleSize ;;
      sample <- gather data indices ;;
      ' (tree, r) <- buildTree f sample nFeatures 0 ;;
      let f := set_rng r f in
      ' (rest, f) <- buildTrees count' f data nSamples sampleSize nFeatures ;;
      Val (Some tree :: rest, f)
  end.

(** *** The percentile calibrator *)

(** The inner loop of the insertion sort: [x] moves toward the front
    while it is strictly smaller than its predecessor.  The sorted prefix
    is kept last element first. *)
Fixpoint sift (x : float64) (revPrefix : list float64) : list float64 :=
  match revPrefix with
  | [] => [x]
  | y :: ys => if F64.ltb x y then y :: sift x ys else x :: y :: ys
  end.

(** The outer loop. *)
Fixpoint sortLoop (revPrefix rest : list float64) : list float64 :=
  match rest with
  | [] => rev revPrefix
  | x :: rest' => sortLoop (sift x revPrefix) rest'
  end.

Definition insertionSort (data : list float64) : list float64 :=
  sortLoop [] data.

(** [int(float64(len(sorted)-1) * p / 100)] *)
Definition percentileIndex (n : Z) (p : float64) : Z :=
  to_int (F64.div (F64.mul (F64.of_int (n - 1)) p) (F64.of_int 100)).

Definition percentile (data : list float64) (p : float64) : res float64 :=
  match data with
  | [] => Val F64.zero
  | _ =>
      let sorted := insertionSort data in
      index sorted (percentileIndex (len sorted) p)
  end.

(** [100*(1-f.contamination)] *)
Definition percentileOf (c : float64) : float64 :=
  F64.mul (F64.of_int 100) (F64.sub F64.one c).

(** *** [Fit]

    [Val f'] is a nil error with the forest left as [f']; [Error e] is
    the error return, which happens before anything is written.  Of the
    panics of [make([]*iTree, f.nTrees)] the one for a negative length is
    part of [Fit]; the limit of the run time on the length is
    [makeAccepts]. *)
Definition Fit (f : IsolationForest) (data : list (list float64))
  : res IsolationForest :=
  match data with
  | [] => Error ErrEmptyData
  | row0 :: _ =>
      let nSamples := len data in
      let nFeatures := len row0 in
      let sampleSize :=
        if sampleSize f >? nSamples then nSamples else sampleSize f in
      if nTrees f <? 0 then Panic MakeSliceLenOutOfRange
      else
        ' (ts, f) <- buildTrees (Z.to_nat (nTrees f)) f data
                                nSamples sampleSize nFeatures ;;
        let f := set_trees ts f in
        let f := set_avgPathLength
                   (averagePathLength (F64.of_int sampleSize)) f in
        let f := set_trained true f in
        if F64.gtb (contamination f) F64.zero then
          scores <- predict f data ;;
          t <- percentile scores (percentileOf (contamination f)) ;;
          Val (set_threshold t f)
        else Val f
  end.

(** [Threshold] and [SetThreshold] *)
Definition Threshold (f : IsolationForest) : float64 := threshold f.

Definition SetThreshold (f : IsolationForest) (t : float64)
  : IsolationForest := set_threshold t f.

(** *** Persistence *)

Definition Encode {A : Type} (t : Gob.type)
           (emit : list Byte.byte -> A -> list Byte.byte)
           (buf : list Byte.byte) (v : A) : res (list Byte.byte) :=
  match Gob.compileEnc t with
  | Some msg => Error (ErrGob msg)
  | None => Val (emit buf v)
  end.

Definition Save (f : IsolationForest) : res (list Byte.byte) :=
  if negb (trained f) then Error ErrNotTrained
  else
    buf <- Encode Gob.Int gob_int [] (nTrees f) ;;
    buf <- Encode Gob.Int gob_int buf (sampleSize f) ;;
    buf <- Encode Gob.Float64 gob_float64 buf (contamination f) ;;
    buf <- Encode Gob.Float64 gob_float64 buf (threshold f) ;;
    buf <- Encode Gob.Float64 gob_float64 buf (avgPathLength f) ;;
    buf <- Encode treesType gob_trees buf (trees f) ;;
    Val buf.

(** [Load] decodes straight into the fields of the forest: the pair is
    the forest as the call leaves it and the error it returns. *)
Definition Load (f : IsolationForest) (data : list Byte.byte)
  : IsolationForest * option error :=
  let dec := gob_NewDecoder data in
  let '(dec, v, err) := gob_Decode_int dec (nTrees f) in
  let f := set_nTrees v f in
  match err with Some e => (f, Some e) | None =>
  let '(dec, v, err) := gob_Decode_int dec (sampleSize f) in
  let f := set_sampleSize v f in
  match err with Some e => (f, Some e) | None =>
  let '(dec, v, err) := gob_Decode_float64 dec (contamination f) in
  let f := set_contamination v f in
  match err with Some e => (f, Some e) | None =>
  let '(dec, v, err) := gob_Decode_float64 dec (threshold f) in
  let f := set_threshold v f in
  match err with Some e => (f, Some e) | None =>
  let '(dec, v, err) := gob_Decode_float64 dec (avgPathLength f) in
  let f := set_avgPathLength v f in
  match err with Some e => (f, Some e) | None =>
  let '(dec, v, err) := gob_Decode_trees dec (trees f) in
  let f := set_trees v f in
  match err with Some e => (f, Some e) | None =>
  let f := set_maxDepth (depthOf (sampleSize f)) f in
  let f := set_trained true f in
  (f, None)
  end end end end end end.

(** *** Streaming *)

(** The loop of [PredictStream]: the records sent so far are [out], in
    the order they were sent. *)
Fixpoint streamLoop (f : IsolationForest) (events : list recvEvent)
         (out : list Score) : list Score * ending :=
  match events with
  | [] => (out, Blocked)
  | Canceled :: _ => (out, Returned (Some ErrCanceled))
  | Closed :: _ => (out, Returned None)
  | Received sample s :: events' =>
      match PredictOne f sample with
      | Panic p => (out, Panicked p)
      | Error _ => streamLoop f events' out
      | Val score =>
          match s with
          | Sent =>
              streamLoop f events'
                (out ++ [ {| Value := score;
                             IsAnomaly := F64.geb score (threshold f);
                             Features := sample |} ])
          | SendCanceled => (out, Returned (Some ErrCanceled))
          end
      end
  end.

Definition PredictStream (f : IsolationForest) (events : list recvEvent)
  : list Score * ending :=
  if negb (trained f) then ([], Returned (Some ErrNotTrained))
  else streamLoop f events [].

(** *** Life cycle

    A client of the forest calls its methods one after the other. *)
Inductive call : Type :=
| CallFit (data : list (list float64))
| CallLoad (blob : list Byte.byte)
| CallSetThreshold (t : float64)
| CallPredict (data : list (list float64))
| CallPredictOne (sample : list float64)
| CallSave
| CallStream (events : list recvEvent).

(** The forest after a call that returns; [None] when the call panics
    ([stepAll] gives the forest a panic leaves behind). *)
Definition step (f : IsolationForest) (c : call) : option IsolationForest :=
  match c with
  | CallFit data =>
      match Fit f data with
      | Val f' => Some f'
      | Error _ => Some f
      | Panic _ => None
      end
  | CallLoad blob => Some (fst (Load f blob))
  | CallSetThreshold t => Some (SetThreshold f t)
  | CallPredict data =>
      match Predict f data with Panic _ => None | _ => Some f end
  | CallPredictOne sample =>
      match PredictOne f sample with Panic _ => None | _ => Some f end
  | CallSave => match Save f with Panic _ => None | _ => Some f end
  | CallStream events =>
      match snd (PredictStream f events) with
      | Panicked _ => None
      | _ => Some f
      end
  end.

(** Whether the call is a [Fit] or a [Load] that returns a nil error. *)
Definition succeeds (f : IsolationForest) (c : call) : bool :=
  match c with
  | CallFit data => match Fit f data with Val _ => true | _ => false end
  | CallLoad blob =>
      match snd (Load f blob) with None => true | Some _ => false end
  | _ => false
  end.

(** The forest after a sequence of calls, and whether one of them was a
    successful [Fit] or [Load]. *)
Fixpoint run (f : IsolationForest) (cs : list call)
  : option (IsolationForest * bool) :=
  match cs with
  | [] => Some (f, false)
  | c :: cs' =>
      match step f c with
      | None => None
      | Some f' =>
          match run f' cs' with
          | None => None
          | Some (f'', b) => Some (f'', succeeds f c || b)
          end
      end
  end.

End Forest.

(** ** What is used of [math] and [math/rand] *)

(** From the documentation of package [math]: [Pow(x, NaN) = NaN] (unless
    [x] is 1, for which [Pow(1, y) = 1]); [Log2] is exact on the powers of
    two; [Ceil] of an integral value is that value. *)
Class MathLaws (M : GoMath) : Prop := {
  Pow_NaN : forall x, F64.eqb x F64.one = false -> math_Pow x F64.nan = F64.nan;
  Log2_pow2 : forall k, 0 <= k <= 62 ->
    math_Log2 (F64.of_int (2 ^ k)) = F64.of_int k;
  Ceil_int : forall k, 0 <= k <= 62 ->
    math_Ceil (F64.of_int k) = F64.of_int k
}.

(** From the documentation of package [math/rand]: [Perm(n)] is a
    permutation of the integers of the interval [0,n), as a slice of
    length [n]. *)
Class RandLaws {Rand : Type} (R : GoRand Rand) : Prop := {
  Perm_length : forall r n, 0 <= n -> len (fst (rand_Perm r n)) = n;
  Perm_range : forall r n i, In i (fst (rand_Perm r n)) -> 0 <= i < n
}.

(** ** A reference generator

    A 64-bit linear congruential generator; [Perm] shuffles as
    [math/rand] does, drawing [Intn(i+1)] for each position [i]. *)

Module RefRand.

Definition next (s : Z) : Z :=
  (s * 6364136223846793005 + 1442695040888963407) mod 2 ^ 64.

Definition NewSource (seed : Z) : Z := seed mod 2 ^ 64.

Definition Intn (s n : Z) : Z * Z :=
  let s' := next s in ((s' / 2 ^ 32) mod n, s').

Definition Float64 (s : Z) : float64 * Z :=
  let s' := next s in
  (F64.div (F64.of_int (s' / 2 ^ 11)) (F64.of_int (2 ^ 53)), s').

(** [m[i] = v] when [i] is in range. *)
Fixpoint store (m : list Z) (i : nat) (v : Z) : list Z :=
  match m, i with
  | [], _ => []
  | _ :: m', O => v :: m'
  | x :: m', S i' => x :: store m' i' v
  end.

(** [for i := 0; i < n; i++ { j := r.Intn(i + 1); m[i] = m[j]; m[j] = i }] *)
Fixpoint permLoop (count : nat) (i : Z) (m : list Z) (s : Z)
  : list Z * Z :=
  match count with
  | O => (m, s)
  | S count' =>
      let '(j, s) := Intn s (i + 1) in
      let m := store m (Z.to_nat i) (nth (Z.to_nat j) m 0) in
      let m := store m (Z.to_nat j) i in
      permLoop count' (i + 1) m s
  end.

Definition Perm (s n : Z) : list Z * Z :=
  permLoop (Z.to_nat n) 0 (repeat 0 (Z.to_nat n)) s.

#[export] Instance rand : GoRand Z := {|
  rand_New := NewSource;
  rand_Perm := Perm;
  rand_Intn := Intn;
  rand_Float64 := Float64
|}.

End RefRand.

(** ** A reference math library

    Enough of package [math] to run the forest: [Ceil] is exact, [Log2] is
    exact on the powers of two and computed bit by bit elsewhere, [Log] and
    [Pow] go through [Log2] with the special cases of the package.
    Conversions of unrepresentable floats to int give the smallest int64, as
    on amd64. *)

Module RefMath.

Definition inf (s : bool) : float64 := S754_infinity s.
Definition half : float64 := F64.dec 5 1.
Definition Ln2 : float64 := F64.dec 6931471805599453 16.

Definition Ceil (x : float64) : float64 :=
  match x with
  | S754_finite s m e =>
      if 0 <=? e then x
      else
        let d := 2 ^ (- e) in
        let q := Zpos m / d in
        let c := if s then - q else if Zpos m mod d =? 0 then q else q + 1 in
        if c =? 0 then S754_zero s else F64.of_int c
  | _ => x
  end.

(** The binary digits of [log2 y] for [1 <= y < 2], by repeated squaring. *)
Fixpoint log2Digits (k : nat) (y w acc : float64) : float64 :=
  match k with
  | O => acc
  | S k' =>
      let y2 := F64.mul y y in
      if F64.leb F64.two y2
      then log2Digits k' (F64.div y2 F64.two) (F64.div w F64.two)
                      (F64.add acc w)
      else log2Digits k' y2 (F64.div w F64.two) acc
  end.

Definition Log2 (x : float64) : float64 :=
  match x with
  | S754_nan => F64.nan
  | S754_zero _ => inf true
  | S754_infinity false => x
  | S754_infinity true => F64.nan
  | S754_finite true _ _ => F64.nan
  | S754_finite false _ _ =>
      let '(frac, exp) := SFfrexp F64.prec F64.emax x in
      if F64.eqb frac half then F64.of_int (exp - 1)
      else F64.add
             (F64.sub (log2Digits 52 (F64.mul F64.two frac) half F64.zero)
                      F64.one)
             (F64.of_int exp)
  end.

Definition Log (x : float64) : float64 := F64.mul (Log2 x) Ln2.

Definition floorZ (x : float64) : option Z :=
  match x with
  | S754_zero _ => Some 0
  | S754_finite s m e =>
      if 0 <=? e then Some (if s then - (Zpos m * 2 ^ e) else Zpos m * 2 ^ e)
      else
        let d := 2 ^ (- e) in
        Some (if s then - ((Zpos m + d - 1) / d) else Zpos m / d)
  | _ => None
  end.

Definition isInt (x : float64) : bool :=
  match floorZ x with
  | Some n => F64.eqb (F64.of_int n) x
  | None => false
  end.

Definition isOddInt (x : float64) : bool :=
  match floorZ x with
  | Some n => F64.eqb (F64.of_int n) x && Z.odd n
  | None => false
  end.

Definition signbit (x : float64) : bool :=
  match x with
  | S754_zero s | S754_infinity s | S754_finite s _ _ => s
  | S754_nan => false
  end.

(** The series of [exp z], [k] more terms from the [i]-th on. *)
Fixpoint expSeries (k : nat) (z : float64) (i : Z) (term acc : float64)
  : float64 :=
  match k with
  | O => acc
  | S k' =>
      let term' := F64.div (F64.mul term z) (F64.of_int i) in
      expSeries k' z (i + 1) term' (F64.add acc term')
  end.

Definition Exp2 (t : float64) : float64 :=
  match floorZ t with
  | Some n =>
      if 1100 <? n then inf false
      else if n <? -1200 then F64.zero
      else
        let f := F64.sub t (F64.of_int n) in
        SFldexp F64.prec F64.emax
                (expSeries 24 (F64.mul f Ln2) 1 F64.one F64.one) n
  | None =>
      match t with
      | S754_infinity true => F64.zero
      | _ => t
      end
  end.

Definition Pow (x y : float64) : float64 :=
  if F64.eqb y F64.zero || F64.eqb x F64.one then F64.one
  else if F64.eqb y F64.one then x
  else if F64.is_nan x || F64.is_nan y then F64.nan
  else if F64.eqb x F64.zero then
    if F64.ltb y F64.zero
    then inf (signbit x && isOddInt y)
    else if signbit x && isOddInt y then x else F64.zero
  else
    match y, x with
    | S754_infinity sy, _ =>
        if F64.eqb x (F64.of_int (-1)) then F64.one
        else if Bool.eqb (F64.ltb (SFabs x) F64.one) (negb sy) then F64.zero
        else inf false
    | _, S754_infinity sx =>
        if F64.ltb y F64.zero then S754_zero (sx && isOddInt y)
        else inf (sx && isOddInt y)
    | _, _ =>
        if F64.ltb x F64.zero then
          if isInt y then
            let v := Exp2 (F64.mul y (Log2 (SFabs x))) in
            if isOddInt y then F64.neg v else v
          else F64.nan
        else Exp2 (F64.mul y (Log2 x))
    end.

#[export] Instance math : GoMath := {|
  math_Log := Log;
  math_Log2 := Log2;
  math_Pow := Pow;
  math_Ceil := Ceil;
  int_undef := fun _ => F64.min_int64
|}.

End RefMath.

(** ** A reference gob codec

    The wire format of gob for the values of the basic types int and
    float64: a message is a byte count, the type id (2 for int, 4 for
    float64), a zero byte and the value.  Unsigned integers below 128 are
    one byte, larger ones are their big-endian bytes after the negated byte
    count; a signed integer [i] travels as [i << 1], or as [(^i << 1) | 1]
    when negative; a float64 travels as its bits, byte-reversed.

    The decoder reads this fragment only: a message that defines a type (a
    negative id) is reported as an error.  No message of the fragment has
    the type of the [trees] field, so decoding into it fails. *)

Module RefGob.

Definition byteZ (b : Byte.byte) : Z := Z.of_N (Byte.to_N b).

Definition zByte (z : Z) : Byte.byte :=
  match Byte.of_N (Z.to_N (z mod 256)) with
  | Some b => b
  | None => Byte.x00
  end.

(** The [k] low bytes of [u], high byte first. *)
Fixpoint beBytes (k : nat) (u : Z) : list Byte.byte :=
  match k with
  | O => []
  | S k' => beBytes k' (u / 256) ++ [zByte u]
  end.

Definition byteLen (u : Z) : nat := Z.to_nat (Z.log2 u / 8 + 1).

Definition encodeUint (u : Z) : list Byte.byte :=
  if u <? 128 then [zByte u]
  else let k := byteLen u in zByte (256 - Z.of_nat k) :: beBytes k u.

Definition encodeInt (i : Z) : list Byte.byte :=
  encodeUint (if i <? 0 then 2 * (- i - 1) + 1 else 2 * i).

(** [math.Float64bits]; a NaN has the bits of [math.NaN()]. *)
Definition float64bits (x : float64) : Z :=
  let sign (s : bool) := if s then 2 ^ 63 else 0 in
  match x with
  | S754_zero s => sign s
  | S754_infinity s => sign s + 2047 * 2 ^ 52
  | S754_nan => 2047 * 2 ^ 52 + 2 ^ 51 + 1
  | S754_finite s m e =>
      if Zpos m <? 2 ^ 52 then sign s + Zpos m
      else sign s + (e + 1075) * 2 ^ 52 + (Zpos m - 2 ^ 52)
  end.

Definition float64frombits (b : Z) : float64 :=
  let s := 0 <? b / 2 ^ 63 in
  let e := (b / 2 ^ 52) mod 2048 in
  let m := b mod 2 ^ 52 in
  if e =? 2047 then if m =? 0 then S754_infinity s else S754_nan
  else if e =? 0 then
    match m with Zpos p => S754_finite s p (-1074) | _ => S754_zero s end
  else
    match m + 2 ^ 52 with
    | Zpos p => S754_finite s p (e - 1075)
    | _ => S754_zero s
    end.

(** The value of [bs] read as a little-endian number: the byte reversal of
    its big-endian reading. *)
Fixpoint leValue (bs : list Byte.byte) : Z :=
  match bs with
  | [] => 0
  | b :: bs' => byteZ b + 256 * leValue bs'
  end.

Definition beValue (bs : list Byte.byte) : Z := leValue (rev bs).

Definition reverse8 (u : Z) : Z := leValue (beBytes 8 u).

Definition tInt : Z := 2.
Definition tFloat : Z := 4.

Definition message (id : Z) (payload : list Byte.byte) : list Byte.byte :=
  let body := encodeInt id ++ [Byte.x00] ++ payload in
  encodeUint (len body) ++ body.

#[export] Instance wire : GobWire := {|
  gob_int := fun buf v => buf ++ message tInt (encodeInt v);
  gob_float64 := fun buf v =>
    buf ++ message tFloat (encodeUint (reverse8 (float64bits v)));
  gob_trees := fun buf _ => buf
|}.

Definition decodeUint (bs : list Byte.byte) : option (Z * list Byte.byte) :=
  match bs with
  | [] => None
  | b :: rest =>
      let v := byteZ b in
      if v <? 128 then Some (v, rest)
      else
        let k := Z.to_nat (256 - v) in
        if (8 <? k)%nat || (List.length rest <? k)%nat then None
        else Some (beValue (firstn k rest), skipn k rest)
  end.

Definition decodeInt (bs : list Byte.byte) : option (Z * list Byte.byte) :=
  match decodeUint bs with
  | Some (u, rest) =>
      Some (if Z.odd u then - (u / 2) - 1 else u / 2, rest)
  | None => None
  end.

(** The next message: its type id and its value bytes, and the bytes that
    follow the message. *)
Definition recvMessage (bs : list Byte.byte)
  : res (Z * list Byte.byte * list Byte.byte) :=
  match bs with
  | [] => Error (ErrGob "EOF")
  | _ =>
      match decodeUint bs with
      | None => Error (ErrGob "unexpected EOF")
      | Some (count, rest) =>
          let k := Z.to_nat count in
          if (List.length rest <? k)%nat then Error (ErrGob "unexpected EOF")
          else
            match decodeInt (firstn k rest) with
            | None => Error (ErrGob "gob: bad data")
            | Some (id, body) =>
                if id <? 0
                then Error (ErrGob "gob: type definitions are outside the fragment")
                else Val (id, body, skipn k rest)
            end
      end
  end.

(** Decoding a singleton value of type [want]. *)
Definition decodeSingle {A : Type} (want : Z)
           (value : list Byte.byte -> option A)
           (bs : list Byte.byte) (old : A)
  : list Byte.byte * A * option error :=
  match recvMessage bs with
  | Val (id, body, rest) =>
      if id =? want then
        match decodeUint body with
        | Some (0, body') =>
            match value body' with
            | Some v => (rest, v, None)
            | None => (rest, old, Some (ErrGob "gob: bad data"))
            end
        | _ => (rest, old, Some (ErrGob "gob: corrupted data"))
        end
      else (rest, old, Some (ErrGob "gob: wrong type received"))
  | Error e => (bs, old, Some e)
  | Panic _ => (bs, old, Some (ErrGob "gob: bad data"))
  end.

#[export] Instance dec : GobDecoder := {|
  decoder := list Byte.byte;
  gob_NewDecoder := fun data => data;
  gob_Decode_int :=
    decodeSingle tInt (fun b => option_map fst (decodeInt b));
  gob_Decode_float64 :=
    decodeSingle tFloat
      (fun b => option_map (fun p => float64frombits (reverse8 (fst p)))
                           (decodeUint b));
  gob_Decode_trees := decodeSingle (-1) (fun _ => None)
|}.

End RefGob.

(** ** The configuration of the specification

    The four configuration fields of a forest with their defaults, and the
    configuration a list of options denotes: each option overrides one
    field, later options win. *)
Record Config : Type := {
  n_trees : Z;
  sample_size : Z;
  contamination_fraction : float64;
  seed : Z
}.

Definition defaultConfig : Config :=
  {| n_trees := 100; sample_size := 256;
     contamination_fraction := F64.dec 1 1; seed := 42 |}.

Definition configure (c : Config) (opt : Option) : Config :=
  match opt with
  | WithTrees n =>
      {| n_trees := n; sample_size := sample_size c;
         contamination_fraction := contamination_fraction c; seed := seed c |}
  | WithSampleSize n =>
      {| n_trees := n_trees c; sample_size := n;
         contamination_fraction := contamination_fraction c; seed := seed c |}
  | WithContamination x =>
      {| n_trees := n_trees c; sample_size := sample_size c;
         contamination_fraction := x; seed := seed c |}
  | WithSeed s =>
      {| n_trees := n_trees c; sample_size := sample_size c;
         contamination_fraction := contamination_fraction c; seed := s |}
  end.

Definition configOf (opts : list Option) : Config :=
  fold_left configure opts defaultConfig.

(** The forest [New] builds for a configuration. *)
Definition forestOf {M : GoMath} {Rand : Type} {R : GoRand Rand} (c : Config)
  : IsolationForest :=
  {| nTrees := n_trees c;
     sampleSize := sample_size c;
     contamination := contamination_fraction c;
     threshold := F64.dec 5 1;
     maxDepth := depthOf (sample_size c);
     rng := rand_New (seed c);
     trees := [];
     trained := false;
     avgPathLength := F64.zero |}.

(** The record [PredictStream] sends for a sample and its score. *)
Definition scoreRecord {Rand : Type} (f : @IsolationForest Rand)
           (sample : list float64) (score : float64) : Score :=
  {| Value := score;
     IsAnomaly := F64.geb score (threshold f);
     Features := sample |}.

(** A score of the interval [0,1]. *)
Definition inUnitInterval (v : float64) : bool :=
  F64.leb F64.zero v && F64.leb v F64.one.

(** The message of gob for a struct with fields, none of them exported. *)
Definition noExportedFields : error :=
  ErrGob "gob: type iforest.iTree has no exported fields".

(** The depth bound the specification derives from the effective sample
    size: the ceiling of [log2 (min sample_size n_samples)]. *)
Definition effectiveDepth (sampleSize nSamples : Z) : Z :=
  Z.log2_up (Z.min sampleSize nSamples).

(** Ascending order for Go's [<=] on float64, between neighbours. *)
Definition ascending (l : list float64) : Prop :=
  Sorted (fun a b => F64.leb a b = true) l.

Definition noNaN (l : list float64) : Prop :=
  Forall (fun v => F64.is_nan v = false) l.

(** ** Concrete runs

    Forests and inputs on which the statements below are exercised, run
    with the reference generator, math library and codec. *)

Module Example.

#[local] Existing Instance RefMath.math.
#[local] Existing Instance RefRand.rand.
#[local] Existing Instance RefGob.wire.
#[local] Existing Instance RefGob.dec.

Definition num (z : Z) : float64 := F64.of_int z.

(** A forest over the reference generator, whose state is an integer. *)
Definition Forest : Type := @IsolationForest Z.

(** Four rows of two features. *)
Definition data : list (list float64) :=
  [ [num 1; num 5]; [num 2; num 4]; [num 3; num 9]; [num 10; num 4] ].

Definition batch : list (list float64) :=
  [ [num 1; num 1]; [num 100; num 100]; [num 3; num 3] ].

(** The forest a call returns, or the receiver when it does not return
    one. *)
Definition fitted (f : Forest) (d : list (list float64)) : Forest :=
  match Fit f d with Val f' => f' | _ => f end.

Definition forest : Forest :=
  fitted (New [WithTrees 3; WithSeed 42]) data.

Definition scoresOf (f : Forest) (b : list (list float64))
  : list float64 :=
  match Predict f b with Val s => s | _ => [] end.

(** The single-sample case of [TestFit]. *)
Definition singleRow : list float64 := [num 1; num 2; num 3].

Definition singleForest : Forest :=
  fitted (New [WithTrees 10; WithSeed 42]) [singleRow].

(** The gob encoding of the int 7, and nothing after it. *)
Definition sevenOnly : list Byte.byte :=
  [Byte.x03; Byte.x04; Byte.x00; Byte.x0e].

(** Calls on a fresh forest, none of them a successful [Fit] or [Load]. *)
Definition idleCalls : list call :=
  [ CallFit []; CallSetThreshold (F64.dec 7 1); CallPredict data;
    CallSave; CallLoad [] ].

End Example.
(** ** The shape of a tree

    Measures on the trees [buildNode] returns.  A leaf is a node with no
    child, as [pathLength] tests it. *)

(** The sum of the [size] fields of the leaves below a node. *)
Fixpoint leafTotal (n : node) : Z :=
  match n with
  | Node _ _ l r size =>
      match l, r with
      | None, None => size
      | _, _ =>
          (match l with Some ln => leafTotal ln | None => 0 end) +
          (match r with Some rn => leafTotal rn | None => 0 end)
      end
  end.

(** The number of edges of the longest path from a node down to a leaf. *)
Fixpoint height (n : node) : Z :=
  match n with
  | Node _ _ l r _ =>
      match l, r with
      | None, None => 0
      | _, _ =>
          1 + Z.max (match l with Some ln => height ln | None => 0 end)
                    (match r with Some rn => height rn | None => 0 end)
      end
  end.

(** Every node is a leaf or has its two children and splits on a column
    of the interval [0, nFeatures). *)
Fixpoint splitsBelow (nFeatures : Z) (n : node) : bool :=
  match n with
  | Node feature _ l r _ =>
      match l, r with
      | None, None => true
      | Some ln, Some rn =>
          (0 <=? feature) && (feature <? nFeatures) &&
          splitsBelow nFeatures ln && splitsBelow nFeatures rn
      | _, _ => false
      end
  end.

(** The node a [*iTree] of the slice [f.trees] leads to, if any. *)
Definition rootOf (t : option iTree) : option node :=
  match t with
  | Some tr => root tr
  | None => None
  end.

(** Rows of at least [nFeatures] columns. *)
Definition wide (nFeatures : Z) (rows : list (list float64)) : Prop :=
  Forall (fun row => nFeatures <= len row) rows.

(** From the documentation of package [math/rand]: [Intn(n)] is a number
    of the half-open interval [0,n) (and panics when [n <= 0]). *)
Class IntnLaws {Rand : Type} (R : GoRand Rand) : Prop := {
  Intn_range : forall r n, 0 < n -> 0 <= fst (rand_Intn r n) < n
}.

(** The samples a script hands to [PredictStream], in order. *)
Definition received (events : list recvEvent) : list (list float64) :=
  flat_map (fun e => match e with
                     | Received sample _ => [sample]
                     | _ => []
                     end) events.

(** ** The lengths [make] accepts

    [make([]T, n)] panics ("makeslice: len out of range") when [n] is
    negative or [n] elements take more than [maxAlloc] bytes; on the 64-bit
    targets [maxAlloc] is [2^48] and a pointer takes 8 bytes.  [Fit] panics
    in its first [make] for a negative [nTrees] only: a statement that [Fit]
    returns takes [makeAccepts (nTrees f)] as a hypothesis.  The slices
    that [Fit] makes besides are no longer than the dataset it was handed.
    Running out of memory is a fatal error of the run time, not a panic,
    and is not modelled. *)
Definition maxAlloc : Z := 2 ^ 48.

Definition ptrSize : Z := 8.

Definition makeAccepts (n : Z) : bool :=
  (0 <=? n) && (n * ptrSize <=? maxAlloc).

(** Further inputs of the concrete runs. *)

Module Example2.

#[local] Existing Instance RefMath.math.
#[local] Existing Instance RefRand.rand.
#[local] Existing Instance RefGob.wire.
#[local] Existing Instance RefGob.dec.

(** The tree [buildNode] returns for the four rows, with the generator it
    leaves behind. *)
Definition built : node * Z :=
  match buildNode (New [WithSeed 42] : Example.Forest) Example.data 2 0 with
  | Val p => p
  | _ => (leaf 0, 0)
  end.

Definition values : list float64 :=
  [Example.num 3; Example.num 1; Example.num 2; Example.num 1].

(** Calls on a trained forest, among them a [Load] and a [Fit] that
    fail. *)
Definition laterCalls : list call :=
  [ CallLoad []; CallFit []; CallPredict Example.batch; CallSave ].

End Example2.

(** ** The example program (examples/basic/main.go)

    [generateNormalTraffic] and [generateMixedTraffic] draw from the
    package-level generator of [math/rand], whose state is threaded through
    as [g]; the calls of a composite literal are made from left to right.
    Of the lines [main] prints, the model keeps what they show. *)

Section Program.

Context {M : GoMath} {Rand : Type} {R : GoRand Rand}.

(** The row of normal traffic: packet size, interval, protocol, source
    port, destination port. *)
Definition normalRow (g : Rand) : list float64 * Rand :=
  let '(u1, g) := rand_Float64 g in
  let '(u2, g) := rand_Float64 g in
  let '(k, g) := rand_Intn g 64000 in
  ([ F64.add (F64.of_int 64) (F64.mul u1 (F64.of_int 200));
     F64.add (F64.dec 1 3) (F64.mul u2 (F64.dec 1 1));
     F64.of_int 6;
     F64.of_int (1024 + k);
     F64.of_int 443 ], g).

(** The row of an anomaly. *)
Definition anomalyRow (g : Rand) : list float64 * Rand :=
  let '(u1, g) := rand_Float64 g in
  let '(k1, g) := rand_Intn g 1024 in
  let '(k2, g) := rand_Intn g 1024 in
  ([ F64.add (F64.of_int 1400) (F64.mul u1 (F64.of_int 100));
     F64.dec 1 4;
     F64.of_int 17;
     F64.of_int k1;
     F64.of_int k2 ], g).

(** [for i := 0; i < n; i++ { data[i] = ... }] *)
Fixpoint fillRows (row : Rand -> list float64 * Rand) (count : nat)
         (g : Rand) : list (list float64) * Rand :=
  match count with
  | O => ([], g)
  | S count' =>
      let '(r, g) := row g in
      let '(rest, g) := fillRows row count' g in
      (r :: rest, g)
  end.

Definition generateNormalTraffic (n : Z) (g : Rand)
  : res (list (list float64) * Rand) :=
  if n <? 0 then Panic MakeSliceLenOutOfRange
  else Val (fillRows normalRow (Z.to_nat n) g).

(** One row of the mixed traffic: [if rand.Float64() < 0.1]. *)
Definition mixedRow (g : Rand) : list float64 * Rand :=
  let '(u, g) := rand_Float64 g in
  if F64.ltb u (F64.dec 1 1) then anomalyRow g else normalRow g.

Definition generateMixedTraffic (n : Z) (g : Rand)
  : res (list (list float64) * Rand) :=
  if n <? 0 then Panic MakeSliceLenOutOfRange
  else Val (fillRows mixedRow (Z.to_nat n) g).

(** The loop of [main] over the scores: one line per sample whose score
    reaches the threshold, with its index, its score and its features. *)
Fixpoint report (scores : list float64) (testData : list (list float64))
         (threshold : float64) (i : Z)
  : res (list (Z * float64 * list float64)) :=
  match scores with
  | [] => Val []
  | score :: rest =>
      if F64.geb score threshold then
        features <- index testData i ;;
        lines <- report rest testData threshold (i + 1) ;;
        Val ((i, score, features) :: lines)
      else report rest testData threshold (i + 1)
  end.

(** How [main] ends: it returns after its last line, which shows the
    number of anomalies, the number of samples and the threshold; or it
    panics, with the error of [Fit] or [Predict] or at run time. *)
Inductive exit : Type :=
| Done (lines : list (Z * float64 * list float64))
       (anomalyCount total : Z) (threshold : float64)
| PanicError (e : error)
| PanicRuntime (p : panic).

Definition main (g : Rand) : exit :=
  match generateNormalTraffic 1000 g with
  | Error e => PanicError e
  | Panic p => PanicRuntime p
  | Val (trainingData, g) =>
      let detector :=
        New [ WithTrees 100; WithSampleSize 256;
              WithContamination (F64.dec 1 1); WithSeed 42 ] in
      match Fit detector trainingData with
      | Error e => PanicError e
      | Panic p => PanicRuntime p
      | Val detector =>
          match generateMixedTraffic 100 g with
          | Error e => PanicError e
          | Panic p => PanicRuntime p
          | Val (testData, g) =>
              match Predict detector testData with
              | Error e => PanicError e
              | Panic p => PanicRuntime p
              | Val scores =>
                  let threshold := Threshold detector in
                  match report scores testData threshold 0 with
                  | Error e => PanicError e
                  | Panic p => PanicRuntime p
                  | Val lines =>
                      Done lines (len lines) (len testData) threshold
                  end
              end
          end
      end
  end.

End Program.

(** ** The fields [Load] decodes

    [Load] calls [dec.Decode(&f.x)] once for each of six fields, in the
    order of [loadOrder], and returns at the first error. *)

Inductive field : Type :=
| nTreesField
| sampleSizeField
| contaminationField
| thresholdField
| avgPathLengthField
| treesField.

Definition loadOrder : list field :=
  [ nTreesField; sampleSizeField; contaminationField; thresholdField;
    avgPathLengthField; treesField ].

(** The number of fields [Load] decodes before [x]. *)
Definition position (x : field) : nat :=
  match x with
  | nTreesField => 0
  | sampleSizeField => 1
  | contaminationField => 2
  | thresholdField => 3
  | avgPathLengthField => 4
  | treesField => 5
  end.

Section Decoding.

Context {Rand : Type} {D : GobDecoder}.

(** One call [dec.Decode(&f.x)]: the decoder and the forest as the call
    leaves them, and its error. *)
Definition decodeField (x : field) (dec : decoder)
           (f : @IsolationForest Rand)
  : decoder * @IsolationForest Rand * option error :=
  match x with
  | nTreesField =>
      let '(dec, v, err) := gob_Decode_int dec (nTrees f) in
      (dec, set_nTrees v f, err)
  | sampleSizeField =>
      let '(dec, v, err) := gob_Decode_int dec (sampleSize f) in
      (dec, set_sampleSize v f, err)
  | contaminationField =>
      let '(dec, v, err) := gob_Decode_float64 dec (contamination f) in
      (dec, set_contamination v f, err)
  | thresholdField =>
      let '(dec, v, err) := gob_Decode_float64 dec (threshold f) in
      (dec, set_threshold v f, err)
  | avgPathLengthField =>
      let '(dec, v, err) := gob_Decode_float64 dec (avgPathLength f) in
      (dec, set_avgPathLength v f, err)
  | treesField =>
      let '(dec, v, err) := gob_Decode_trees dec (trees f) in
      (dec, set_trees v f, err)
  end.

(** The calls for the fields [xs], one after the other, up to the first
    error. *)
Fixpoint decodeFields (xs : list field) (dec : decoder)
         (f : @IsolationForest Rand)
  : decoder * @IsolationForest Rand * option error :=
  match xs with
  | [] => (dec, f, None)
  | x :: xs' =>
      let '(dec, f, err) := decodeField x dec f in
      match err with
      | Some e => (dec, f, Some e)
      | None => decodeFields xs' dec f
      end
  end.

(** Field [x] is in [f'] what it is in [f]. *)
Definition sameField (x : field) (f f' : @IsolationForest Rand) : Prop :=
  match x with
  | nTreesField => nTrees f' = nTrees f
  | sampleSizeField => sampleSize f' = sampleSize f
  | contaminationField => contamination f' = contamination f
  | thresholdField => threshold f' = threshold f
  | avgPathLengthField => avgPathLength f' = avgPathLength f
  | treesField => trees f' = trees f
  end.

(** The trained flag, the depth bound, the generator and every field that
    [Load] decodes after [x] are in [f'] what they are in [f]. *)
Definition keptAfter (x : field) (f f' : @IsolationForest Rand) : Prop :=
  trained f' = trained f /\ maxDepth f' = maxDepth f /\ rng f' = rng f /\
  forall y, (position x < position y)%nat -> sameField y f f'.

End Decoding.

(** ** The threshold index of the specification

    The integer part of [(n-1)(1-c)] for a contamination [c = num / den],
    in exact arithmetic. *)
Definition floorIndex (n num den : Z) : Z := ((n - 1) * (den - num)) / den.

(** ** The receiver after a panic

    A panic unwinds the call, and a caller that recovers from it holds the
    forest with everything the call had written before.  [Fit] writes
    [f.trees] before its loop and one tree per iteration, draws from
    [f.rng] all along, writes [f.avgPathLength] and [f.trained] after the
    loop and [f.threshold] last; the other methods that can panic write
    nothing. *)

Section Recovery.

Context {M : GoMath} {Rand : Type} {R : GoRand Rand}.
Context {W : GobWire} {D : GobDecoder}.

(** The generator as a call of [buildNode] leaves it, whether the call
    returns or panics.  [Intn] panics before it draws; an index out of
    range comes after the draw of the feature, or after the draw of the
    split value; the left subtree is built before the right one. *)
Fixpoint buildNode_rng (remaining : nat) (r : Rand)
         (data : list (list float64)) (nFeatures : Z) : Rand :=
  let n := len data in
  match remaining with
  | O => r
  | S remaining' =>
      if n <=? 1 then r
      else if nFeatures <=? 0 then r
      else
        let '(feature, r) := rand_Intn r nFeatures in
        match (row0 <- index data 0 ;;
               x0 <- index row0 feature ;;
               minMax (tl data) feature x0 x0) with
        | Val (minVal, maxVal) =>
            if F64.eqb minVal maxVal then r
            else
              let '(u, r) := rand_Float64 r in
              let splitValue :=
                F64.add minVal (F64.mul u (F64.sub maxVal minVal)) in
              match partitionRows data feature splitValue with
              | Val (leftData, rightData) =>
                  match buildNode_rem remaining' r leftData nFeatures with
                  | Val (_, r') =>
                      buildNode_rng remaining' r' rightData nFeatures
                  | _ => buildNode_rng remaining' r leftData nFeatures
                  end
              | _ => r
              end
        | _ => r
        end
  end.

(** The loop of [Fit] when it ends, by running out or by a panic: the
    trees it has assigned to [f.trees], in order, and the generator. *)
Fixpoint buildTrees_end (count : nat) (f : @IsolationForest Rand)
         (data : list (list float64)) (nSamples sampleSize nFeatures : Z)
  : list (option iTree) * Rand :=
  match count with
  | O => ([], rng f)
  | S count' =>
      let '(perm, r) := rand_Perm (rng f) nSamples in
      let f := set_rng r f in
      match (indices <- slice_to perm sampleSize ;; gather data indices) with
      | Val sample =>
          match buildTree f sample nFeatures 0 with
          | Val (tree, r) =>
              let '(rest, r) :=
                buildTrees_end count' (set_rng r f) data
                               nSamples sampleSize nFeatures in
              (Some tree :: rest, r)
          | _ =>
              ([], buildNode_rng (Z.to_nat (maxDepth f - 0)) (rng f)
                                 sample nFeatures)
          end
      | _ => ([], rng f)
      end
  end.

(** The receiver when [Fit] ends, however it ends. *)
Definition FitReceiver (f : @IsolationForest Rand)
           (data : list (list float64)) : @IsolationForest Rand :=
  match data with
  | [] => f
  | row0 :: _ =>
      let nSamples := len data in
      let nFeatures := len row0 in
      let sampleSize :=
        if sampleSize f >? nSamples then nSamples else sampleSize f in
      if nTrees f <? 0 then f
      else
        let count := Z.to_nat (nTrees f) in
        match buildTrees count f data nSamples sampleSize nFeatures with
        | Val (ts, f) =>
            let f := set_trees ts f in
            let f := set_avgPathLength
                       (averagePathLength (F64.of_int sampleSize)) f in
            let f := set_trained true f in
            if F64.gtb (contamination f) F64.zero then
              match (scores <- predict f data ;;
                     percentile scores (percentileOf (contamination f))) with
              | Val t => set_threshold t f
              | _ => f
              end
            else f
        | _ =>
            let '(built, r) :=
              buildTrees_end count f data nSamples sampleSize nFeatures in
            set_rng r
              (set_trees
                 (built ++ repeat None (count - List.length built)) f)
        end
  end.

(** The forest after a call, for a caller that recovers when the call
    panics.  [Predict], [PredictOne], [Save] and [PredictStream] write
    nothing. *)
Definition stepAll (f : @IsolationForest Rand) (c : call)
  : @IsolationForest Rand :=
  match c with
  | CallFit data => FitReceiver f data
  | CallLoad blob => fst (Load f blob)
  | CallSetThreshold t => SetThreshold f t
  | CallPredict _ | CallPredictOne _ | CallSave | CallStream _ => f
  end.

(** Whether the call panics. *)
Definition panics (f : @IsolationForest Rand) (c : call) : bool :=
  match c with
  | CallFit data => match Fit f data with Panic _ => true | _ => false end
  | CallLoad _ | CallSetThreshold _ => false
  | CallPredict data =>
      match Predict f data with Panic _ => true | _ => false end
  | CallPredictOne sample =>
      match PredictOne f sample with Panic _ => true | _ => false end
  | CallSave => match Save f with Panic _ => true | _ => false end
  | CallStream events =>
      match snd (PredictStream f events) with
      | Panicked _ => true
      | _ => false
      end
  end.

(** Whether the call is a [Fit] that gets past its loop, to the line that
    sets [f.trained], or a [Load] that returns nil. *)
Definition reaches (f : @IsolationForest Rand) (c : call) : bool :=
  match c with
  | CallFit data =>
      match data with
      | [] => false
      | row0 :: _ =>
          if nTrees f <? 0 then false
          else
            match buildTrees (Z.to_nat (nTrees f)) f data (len data)
                    (if sampleSize f >? len data then len data
                     else sampleSize f)
                    (len row0) with
            | Val _ => true
            | _ => false
            end
      end
  | CallLoad blob =>
      match snd (Load f blob) with None => true | Some _ => false end
  | _ => false
  end.

(** What happened in a sequence of calls: one of them was a [Fit] or a
    [Load] that returned nil; one of them set the trained flag; one of them
    panicked. *)
Record past : Type := {
  completed : bool;
  reached : bool;
  panicked : bool
}.

(** The forest after a sequence of calls, each panic recovered from, and
    what happened on the way. *)
Fixpoint runAll (f : @IsolationForest Rand) (cs : list call)
  : @IsolationForest Rand * past :=
  match cs with
  | [] => (f, {| completed := false; reached := false; panicked := false |})
  | c :: cs' =>
      let '(f', h) := runAll (stepAll f c) cs' in
      (f', {| completed := succeeds f c || completed h;
              reached := reaches f c || reached h;
              panicked := panics f c || panicked h |})
  end.

End Recovery.

(** ** Generators as objects

    [rand.New] returns a pointer to a new generator, and the methods of a
    generator update it in place: two forests are independent only if they
    do not hold the same generator.  A [heap] keeps the generators made so
    far, each at its address; a forest reference is the forest with the
    address of its generator in the field [rng]. *)

Section Heap.

Context {M : GoMath} {Rand : Type} {R : GoRand Rand}.

Definition heap : Type := list Rand.

Definition ForestRef : Type := @IsolationForest nat.

(** [rand.New(rand.NewSource(seed))]: a generator at an address that was
    not in use. *)
Definition newRand (seed : Z) (h : heap) : nat * heap :=
  (List.length h, h ++ [rand_New seed]).

(** [h[a] = r] *)
Fixpoint putAt (h : heap) (a : nat) (r : Rand) : heap :=
  match h, a with
  | [], _ => []
  | _ :: h', O => r :: h'
  | x :: h', S a' => x :: putAt h' a' r
  end.

(** The forest with [r] in the field [rng]. *)
Definition withRng {A B : Type} (r : B) (f : @IsolationForest A)
  : @IsolationForest B :=
  {| nTrees := nTrees f; sampleSize := sampleSize f;
     contamination := contamination f; threshold := threshold f;
     maxDepth := maxDepth f; rng := r; trees := trees f;
     trained := trained f; avgPathLength := avgPathLength f |}.

(** The forest behind a reference, with the state of its generator; none
    when the address holds no generator. *)
Definition deref (h : heap) (p : ForestRef)
  : option (@IsolationForest Rand) :=
  match nth_error h (rng p) with
  | Some r => Some (withRng r p)
  | None => None
  end.

(** [opt(f)]: [WithSeed] makes a new generator each time it is applied. *)
Definition applyOptionAt (opt : Option) (p : ForestRef) (h : heap)
  : ForestRef * heap :=
  match opt with
  | WithTrees n => (set_nTrees n p, h)
  | WithSampleSize n => (set_sampleSize n p, h)
  | WithContamination c => (set_contamination c p, h)
  | WithSeed seed =>
      let '(a, h) := newRand seed h in (set_rng a p, h)
  end.

(** [New(opts...)]: the struct literal makes the generator of seed 42,
    then the options are applied in order. *)
Definition NewAt (opts : list Option) (h : heap) : ForestRef * heap :=
  let '(a, h) := newRand 42 h in
  let p := {| nTrees := 100; sampleSize := 256;
              contamination := F64.dec 1 1;
              threshold := F64.dec 5 1;
              maxDepth := 0;
              rng := a;
              trees := [];
              trained := false;
              avgPathLength := F64.zero |} in
  let '(p, h) :=
    fold_left (fun ph opt => applyOptionAt opt (fst ph) (snd ph))
              opts (p, h) in
  (set_maxDepth (depthOf (sampleSize p)) p, h).

(** [p.Fit(data)]: [Fit] runs on the generator [p.rng] points to, and the
    generator is left in the heap as the call leaves it.  [New] always
    sets [rng]; an address that holds no generator stands for a nil
    pointer.  [Predict] and [PredictOne] do not touch the generator: they
    are applied to the reference itself. *)
Definition FitAt (p : ForestRef) (data : list (list float64)) (h : heap)
  : res (ForestRef * heap) :=
  match deref h p with
  | None => Panic NilDereference
  | Some f =>
      f' <- Fit f data ;;
      Val (withRng (rng p) f', putAt h (rng p) (rng f'))
  end.

End Heap.

(** ** Further runs: a large contamination, a recovered panic, two forests *)

Module Example3.

#[local] Existing Instance RefMath.math.
#[local] Existing Instance RefRand.rand.
#[local] Existing Instance RefGob.wire.
#[local] Existing Instance RefGob.dec.

(** Eleven rows of two features. *)
Definition eleven : list (list float64) :=
  map (fun p => [Example.num (fst p); Example.num (snd p)])
      [ (1, 5); (2, 4); (3, 9); (10, 4); (4, 4); (5, 6); (6, 2); (7, 8);
        (8, 1); (9, 3); (50, 60) ].

(** A forest told that nine samples in ten are anomalies. *)
Definition skewed : Example.Forest :=
  New [WithTrees 8; WithContamination (F64.dec 9 1); WithSeed 42].

Definition skewedForest : Example.Forest := Example.fitted skewed eleven.

(** The same forest with the default contamination. *)
Definition plain : Example.Forest := New [WithTrees 8; WithSeed 42].

Definition plainForest : Example.Forest := Example.fitted plain eleven.

(** A contamination of 2: the percentile is negative. *)
Definition unfitOpts : list Option :=
  [WithTrees 3; WithContamination (F64.of_int 2); WithSeed 42].

Definition recovered : Example.Forest :=
  fst (runAll (New unfitOpts) [CallFit Example.data]).

(** Two forests of one configuration, made one after the other. *)
Definition opts1 : list Option := [WithTrees 5; WithSeed 7].

Definition opts2 : list Option := [WithSeed 3; WithSeed 7; WithTrees 5].

Definition fittedAt (p : ForestRef) (d : list (list float64))
           (h : @heap Z) : ForestRef * @heap Z :=
  match FitAt p d h with Val ph => ph | _ => (p, h) end.

Definition made1 : ForestRef * @heap Z := NewAt opts1 [].

Definition made2 : ForestRef * @heap Z := NewAt opts2 (snd made1).

Definition fit1 : ForestRef * @heap Z :=
  fittedAt (fst made1) Example.data (snd made2).

Definition fit2 : ForestRef * @heap Z :=
  fittedAt (fst made2) Example.data (snd fit1).

End Example3.

(** * Properties *)

(** ** The reference instances satisfy the laws *)

Lemma store_length m i v :
  List.length (RefRand.store m i v) = List.length m.
Proof.
  revert i; induction m as [|x m IH]; intros [|i]; simpl; auto.
Qed.

Lemma store_Forall (P : Z -> Prop) m i v :
  Forall P m -> P v -> Forall P (RefRand.store m i v).
Proof.
  intros Hm Hv; revert i.
  induction Hm as [|x m Hx Hm IH]; intros [|i]; simpl; auto.
Qed.

Lemma nth_Forall (P : Z -> Prop) (m : list Z) j :
  Forall P m -> P 0 -> P (nth j m 0).
Proof.
  intros Hm H0; revert j.
  induction Hm as [|x m Hx Hm IH]; intros [|j]; simpl; auto.
Qed.

Lemma permLoop_length count : forall i m s,
  List.length (fst (RefRand.permLoop count i m s)) = List.length m.
Proof.
  induction count as [|c IH]; intros i m s; simpl; [reflexivity|].
  rewrite IH, !store_length; reflexivity.
Qed.

Lemma permLoop_range n count : forall i m s,
  0 <= i -> i + Z.of_nat count <= n ->
  Forall (fun v => 0 <= v < n) m ->
  Forall (fun v => 0 <= v < n) (fst (RefRand.permLoop count i m s)).
Proof.
  induction count as [|c IH]; intros i m s Hi Hn Hm; simpl; [exact Hm|].
  apply IH; try lia.
  apply store_Forall; [apply store_Forall; [exact Hm|]|lia].
  apply nth_Forall; [exact Hm|lia].
Qed.

Lemma RefRand_Perm_length s n : 0 <= n -> len (fst (RefRand.Perm s n)) = n.
Proof.
  intros Hn; unfold RefRand.Perm, len.
  rewrite permLoop_length, repeat_length; lia.
Qed.

Lemma RefRand_Perm_range s n i :
  In i (fst (RefRand.Perm s n)) -> 0 <= i < n.
Proof.
  unfold RefRand.Perm; intros Hin.
  destruct (Z_le_gt_dec n 0) as [Hle|Hgt].
  - replace (Z.to_nat n) with O in Hin by lia. simpl in Hin. contradiction.
  - assert (H : Forall (fun v => 0 <= v < n)
                  (fst (RefRand.permLoop (Z.to_nat n) 0
                          (repeat 0 (Z.to_nat n)) s))).
    { apply permLoop_range; try lia.
      apply Forall_forall; intros v Hv.
      apply repeat_spec in Hv; lia. }
    rewrite Forall_forall in H; exact (H i Hin).
Qed.

#[export] Instance RefRand_laws : RandLaws RefRand.rand.
Proof.
  split; [exact RefRand_Perm_length | exact RefRand_Perm_range].
Qed.

(** Every [k] with [0 <= k <= 62] is one of 63 numerals. *)
Lemma upto62 (P : Z -> Prop) :
  (forall n, (n < 63)%nat -> P (Z.of_nat n)) ->
  forall k, 0 <= k <= 62 -> P k.
Proof.
  intros H k Hk. rewrite <- (Z2Nat.id k) by lia. apply H. lia.
Qed.

Ltac each_upto62 :=
  apply upto62; intros n Hn;
  do 63 (destruct n as [|n]; [vm_compute; reflexivity|]); lia.

Lemma RefMath_Log2_pow2 k : 0 <= k <= 62 ->
  RefMath.Log2 (F64.of_int (2 ^ k)) = F64.of_int k.
Proof. revert k. each_upto62. Qed.

Lemma RefMath_Ceil_int k : 0 <= k <= 62 ->
  RefMath.Ceil (F64.of_int k) = F64.of_int k.
Proof. revert k. each_upto62. Qed.

Lemma RefMath_Pow_NaN x :
  F64.eqb x F64.one = false -> RefMath.Pow x F64.nan = F64.nan.
Proof.
  intros Hx. unfold RefMath.Pow. rewrite Hx.
  change (F64.eqb F64.nan F64.zero) with false.
  change (F64.eqb F64.nan F64.one) with false.
  change (F64.is_nan F64.nan) with true.
  rewrite orb_true_r. reflexivity.
Qed.

#[export] Instance RefMath_laws : MathLaws RefMath.math.
Proof.
  split; [exact RefMath_Pow_NaN | exact RefMath_Log2_pow2
         | exact RefMath_Ceil_int].
Qed.

(** ** Outcomes *)

Lemma bind_Val {A B : Type} (c : res A) (k : A -> res B) (b : B) :
  bind c k = Val b <-> exists a, c = Val a /\ k a = Val b.
Proof.
  destruct c as [a|e|p]; simpl; split.
  - intros H; exists a; auto.
  - intros [a' [Ha Hk]]; inversion Ha; subst; exact Hk.
  - discriminate.
  - intros [a' [Ha _]]; discriminate.
  - discriminate.
  - intros [a' [Ha _]]; discriminate.
Qed.

Ltac inv_bind H :=
  let a := fresh "a" in
  let Ha := fresh "Ha" in
  apply bind_Val in H; destruct H as [a [Ha H]].

(** ** Rounding: an upper bound *)

Lemma digits2_pos_bounds p :
  2 ^ (Zpos (digits2_pos p) - 1) <= Zpos p < 2 ^ Zpos (digits2_pos p).
Proof.
  induction p as [p IH|p IH|]; simpl digits2_pos.
  - rewrite Pos2Z.inj_succ, (Pos2Z.inj_xI p).
    replace (Z.succ (Zpos (digits2_pos p)) - 1)
      with (Z.succ (Zpos (digits2_pos p) - 1)) by lia.
    rewrite !Z.pow_succ_r by lia.
    destruct IH as [IH1 IH2]. revert IH1 IH2.
    generalize (2 ^ (Zpos (digits2_pos p) - 1)) (2 ^ Zpos (digits2_pos p)).
    intros; lia.
  - rewrite Pos2Z.inj_succ, (Pos2Z.inj_xO p).
    replace (Z.succ (Zpos (digits2_pos p)) - 1)
      with (Z.succ (Zpos (digits2_pos p) - 1)) by lia.
    rewrite !Z.pow_succ_r by lia.
    destruct IH as [IH1 IH2]. revert IH1 IH2.
    generalize (2 ^ (Zpos (digits2_pos p) - 1)) (2 ^ Zpos (digits2_pos p)).
    intros; lia.
  - simpl. lia.
Qed.

Lemma shr_1_floor mrs :
  0 <= shr_m mrs ->
  0 <= shr_m (shr_1 mrs) /\
  2 * shr_m (shr_1 mrs) <= shr_m mrs <= 2 * shr_m (shr_1 mrs) + 1.
Proof.
  destruct mrs as [m r s]. simpl shr_m at 1 3 4.
  destruct m as [|p|p]; [| |lia]; intros _.
  - simpl. lia.
  - destruct p as [p|p|]; simpl shr_m.
    + rewrite (Pos2Z.inj_xI p). lia.
    + rewrite (Pos2Z.inj_xO p). lia.
    + lia.
Qed.

Lemma iter_pos_shr_floor p : forall mrs,
  0 <= shr_m mrs ->
  0 <= shr_m (SpecFloat.iter_pos shr_1 p mrs) /\
  shr_m (SpecFloat.iter_pos shr_1 p mrs) * 2 ^ Zpos p <= shr_m mrs
    < (shr_m (SpecFloat.iter_pos shr_1 p mrs) + 1) * 2 ^ Zpos p.
Proof.
  induction p as [p IH|p IH|]; intros mrs Hm; simpl SpecFloat.iter_pos.
  - destruct (shr_1_floor mrs Hm) as (H0 & H1).
    destruct (IH (shr_1 mrs) H0) as (H2 & H3).
    destruct (IH (SpecFloat.iter_pos shr_1 p (shr_1 mrs)) H2) as (H4 & H5).
    split; [exact H4|].
    rewrite (Pos2Z.inj_xI p).
    replace (2 * Zpos p + 1) with (Zpos p + Zpos p + 1) by lia.
    rewrite !Z.pow_add_r by lia. change (2 ^ 1) with 2.
    assert (0 < 2 ^ Zpos p) by (apply Z.pow_pos_nonneg; lia).
    nia.
  - destruct (IH mrs Hm) as (H2 & H3).
    destruct (IH (SpecFloat.iter_pos shr_1 p mrs) H2) as (H4 & H5).
    split; [exact H4|].
    rewrite (Pos2Z.inj_xO p).
    replace (2 * Zpos p) with (Zpos p + Zpos p) by lia.
    rewrite !Z.pow_add_r by lia.
    assert (0 < 2 ^ Zpos p) by (apply Z.pow_pos_nonneg; lia).
    nia.
  - destruct (shr_1_floor mrs Hm) as (H0 & H1).
    split; [exact H0|]. change (2 ^ 1) with 2. lia.
Qed.

Lemma shr_record_of_loc_m m l : shr_m (shr_record_of_loc m l) = m.
Proof. destruct l as [|[| |]]; reflexivity. Qed.

(** [shr_fexp] drops [k] low bits, [k] the distance to the exponent of the
    format. *)
Lemma shr_fexp_floor m e l :
  0 <= m ->
  let k := Z.max 0 (fexp F64.prec F64.emax (Zdigits2 m + e) - e) in
  let r := shr_fexp F64.prec F64.emax m e l in
  snd r = e + k /\
  0 <= shr_m (fst r) /\
  shr_m (fst r) * 2 ^ k <= m < (shr_m (fst r) + 1) * 2 ^ k.
Proof.
  intros Hm k r. unfold r, shr_fexp, shr.
  fold (fexp F64.prec F64.emax (Zdigits2 m + e) - e) in k.
  subst k.
  destruct (fexp F64.prec F64.emax (Zdigits2 m + e) - e) as [|p|p] eqn:E.
  - simpl. rewrite shr_record_of_loc_m. lia.
  - simpl fst; simpl snd.
    pose proof (iter_pos_shr_floor p (shr_record_of_loc m l)) as H.
    rewrite shr_record_of_loc_m in H. specialize (H Hm).
    replace (Z.max 0 (Zpos p)) with (Zpos p) by lia.
    split; [reflexivity|]. exact H.
  - simpl. rewrite shr_record_of_loc_m. lia.
Qed.

Lemma round_nearest_even_bounds m l :
  m <= round_nearest_even m l <= m + 1.
Proof.
  destruct l as [|[| |]]; simpl; try lia.
  destruct (Z.even m); lia.
Qed.

Lemma Zdigits2_unique m d :
  0 < m -> 2 ^ (d - 1) <= m < 2 ^ d -> Zdigits2 m = d.
Proof.
  intros Hm [H1 H2]. destruct m as [|p|p]; try lia. simpl.
  pose proof (digits2_pos_bounds p) as [B1 B2].
  set (d' := Zpos (digits2_pos p)) in *.
  assert (Hd : 0 < d).
  { destruct (Z_lt_le_dec 0 d) as [Hd|Hd]; [exact Hd|].
    exfalso. destruct (Z.eq_dec d 0) as [->|Hn].
    - simpl in H2. lia.
    - rewrite (Z.pow_neg_r 2 d) in H2 by lia. lia. }
  destruct (Z_lt_le_dec d' d) as [Hlt|Hge].
  - exfalso.
    assert (2 ^ d' <= 2 ^ (d - 1)) by (apply Z.pow_le_mono_r; lia). lia.
  - destruct (Z_lt_le_dec d d') as [Hlt|Hge'].
    + exfalso.
      assert (2 ^ d <= 2 ^ (d' - 1)) by (apply Z.pow_le_mono_r; lia). lia.
    + lia.
Qed.

Lemma Zdigits2_lower m : 2 ^ 52 <= m -> 53 <= Zdigits2 m.
Proof.
  intros Hm. destruct m as [|p|p]; try (simpl in *; lia). simpl.
  pose proof (digits2_pos_bounds p) as [_ B2].
  destruct (Z_lt_le_dec (Zpos (digits2_pos p)) 53) as [Hlt|Hge]; [|exact Hge].
  exfalso.
  assert (2 ^ Zpos (digits2_pos p) <= 2 ^ 52)
    by (apply Z.pow_le_mono_r; lia).
  lia.
Qed.

Lemma Zdigits2_bounds m :
  0 < m -> 2 ^ (Zdigits2 m - 1) <= m < 2 ^ Zdigits2 m.
Proof.
  intros Hm. destruct m as [|p|p]; try lia. simpl.
  apply digits2_pos_bounds.
Qed.

Lemma fexp_normal e :
  -1074 <= e - 53 -> fexp F64.prec F64.emax e = e - 53.
Proof.
  intros H. unfold fexp, emin, F64.prec, F64.emax.
  change (3 - 1024 - 53) with (-1074). lia.
Qed.

Ltac pow_consts :=
  change (2 ^ 0) with 1 in *; change (2 ^ 1) with 2 in *;
  change (2 ^ 52) with 4503599627370496 in *;
  change (2 ^ 53) with 9007199254740992 in *.

(** The integer content of [binary_round_aux] on a mantissa of at least 53
    bits, away from underflow and overflow: the result is a normal number,
    at most one unit in the last place above the input. *)
Lemma binary_round_aux_normal mx ex lx :
  2 ^ 52 <= mx ->
  let d := Zdigits2 mx in
  -1074 <= d + ex - 53 -> d + ex <= 1023 ->
  exists m k,
    binary_round_aux F64.prec F64.emax false mx ex lx
      = S754_finite false m (ex + k) /\
    2 ^ 52 <= Zpos m < 2 ^ 53 /\
    d - 53 <= k <= d - 52 /\
    Zpos m * 2 ^ k * 2 ^ 52 <= mx * (2 ^ 52 + 1) /\
    mx * (2 ^ 52 - 1) < Zpos m * 2 ^ k * 2 ^ 52.
Proof.
  intros Hmx d Hlo Hhi.
  assert (Hd : 53 <= d) by (apply Zdigits2_lower; exact Hmx).
  assert (Hpos : 0 < mx) by (assert (0 < 2 ^ 52) by reflexivity; lia).
  pose proof (Zdigits2_bounds mx Hpos) as [D1 D2]. fold d in D1, D2.
  unfold binary_round_aux.
  pose proof (shr_fexp_floor mx ex lx ltac:(lia)) as S1. cbv zeta in S1.
  fold d in S1. rewrite (fexp_normal (d + ex)) in S1 by lia.
  replace (Z.max 0 (d + ex - 53 - ex)) with (d - 53) in S1 by lia.
  destruct (shr_fexp F64.prec F64.emax mx ex lx) as [mrs1 e1].
  simpl fst in S1; simpl snd in S1. destruct S1 as (-> & M0 & M1 & M2).
  set (m1 := shr_m mrs1) in *.
  set (k1 := d - 53) in *.
  assert (Hk1 : 0 <= k1) by (unfold k1; lia).
  assert (P52 : 2 ^ (d - 1) = 2 ^ 52 * 2 ^ k1).
  { rewrite <- Z.pow_add_r by lia. f_equal. unfold k1; lia. }
  assert (P53 : 2 ^ d = 2 ^ 53 * 2 ^ k1).
  { rewrite <- Z.pow_add_r by lia. f_equal. unfold k1; lia. }
  assert (Pk : 0 < 2 ^ k1) by (apply Z.pow_pos_nonneg; lia).
  assert (Hm1 : 2 ^ 52 <= m1 < 2 ^ 53).
  { change (2 ^ 52) with 4503599627370496 in *.
    change (2 ^ 53) with 9007199254740992 in *. nia. }
  pose proof (round_nearest_even_bounds m1 (loc_of_shr_record mrs1)) as Hr.
  set (m2 := round_nearest_even m1 (loc_of_shr_record mrs1)) in *.
  assert (Hd2 : (Zdigits2 m2 = 53 /\ m2 < 2 ^ 53) \/
                (Zdigits2 m2 = 54 /\ m2 = 2 ^ 53)).
  { destruct (Z_lt_le_dec m2 (2 ^ 53)) as [Hlt|Hge].
    - left. split; [|exact Hlt].
      apply Zdigits2_unique; [lia|]. change (53 - 1) with 52. lia.
    - right. assert (m2 = 2 ^ 53) by lia. split; [|assumption].
      apply Zdigits2_unique; [lia|].
      change (54 - 1) with 53. rewrite H. split; [lia|reflexivity]. }
  pose proof (shr_fexp_floor m2 (ex + k1) loc_Exact ltac:(lia)) as S2.
  cbv zeta in S2.
  rewrite (fexp_normal (Zdigits2 m2 + (ex + k1))) in S2
    by (unfold k1; lia).
  destruct (shr_fexp F64.prec F64.emax m2 (ex + k1) loc_Exact) as [mrs2 e2].
  simpl fst in S2; simpl snd in S2. destruct S2 as (-> & N0 & N1 & N2).
  set (m3 := shr_m mrs2) in *.
  destruct Hd2 as [[Hd2 Hm2]|[Hd2 Hm2]]; rewrite Hd2 in *.
  - replace (Z.max 0 (53 + (ex + k1) - 53 - (ex + k1))) with 0 in * by lia.
    pow_consts.
    assert (m3 = m2) by lia.
    destruct m3 as [|p|p] eqn:E3; try lia.
    replace (ex + k1 + 0 <=? F64.emax - F64.prec) with true
      by (symmetry; apply Z.leb_le; unfold F64.emax, F64.prec, k1; lia).
    exists p, k1. replace (ex + k1 + 0) with (ex + k1) by lia.
    split; [reflexivity|]. split; [lia|]. split; [unfold k1; lia|].
    split; nia.
  - replace (Z.max 0 (54 + (ex + k1) - 53 - (ex + k1))) with 1 in * by lia.
    pow_consts.
    assert (m3 = 4503599627370496) by lia.
    destruct m3 as [|p|p] eqn:E3; try lia.
    replace (ex + k1 + 1 <=? F64.emax - F64.prec) with true
      by (symmetry; apply Z.leb_le; unfold F64.emax, F64.prec, k1; lia).
    exists p, (k1 + 1). replace (ex + k1 + 1) with (ex + (k1 + 1)) by lia.
    split; [reflexivity|].
    split; [lia|].
    split; [unfold k1; lia|].
    rewrite Z.pow_add_r by lia. pow_consts. split; nia.
Qed.

Lemma Zdigits2_range m a b :
  0 <= a -> 2 ^ a <= m < 2 ^ b -> a < Zdigits2 m <= b.
Proof.
  intros Ha [H1 H2].
  assert (Hm : 0 < m) by (assert (0 < 2 ^ a) by (apply Z.pow_pos_nonneg; lia); lia).
  pose proof (Zdigits2_bounds m Hm) as [D1 D2].
  split.
  - destruct (Z_lt_le_dec a (Zdigits2 m)) as [H|H]; [exact H|]. exfalso.
    assert (2 ^ Zdigits2 m <= 2 ^ a).
    { destruct (Z_lt_le_dec (Zdigits2 m) 0) as [Hn|Hn].
      - rewrite (Z.pow_neg_r 2 (Zdigits2 m)) in D2 by lia. lia.
      - apply Z.pow_le_mono_r; lia. }
    lia.
  - destruct (Z_lt_le_dec b (Zdigits2 m)) as [H|H]; [|exact H]. exfalso.
    destruct (Z_lt_le_dec b 0) as [Hb|Hb].
    + rewrite (Z.pow_neg_r 2 b) in H2 by lia. lia.
    + assert (2 ^ b <= 2 ^ (Zdigits2 m - 1))
        by (apply Z.pow_le_mono_r; lia).
      lia.
Qed.

Lemma iter_xO_value d m : Zpos (Pos.iter xO m d) = Zpos m * 2 ^ Zpos d.
Proof.
  induction d as [|d IH] using Pos.peano_ind.
  - simpl. rewrite (Pos2Z.inj_xO m). pow_consts. lia.
  - rewrite Pos.iter_succ, (Pos2Z.inj_xO (Pos.iter xO m d)), IH.
    rewrite Pos2Z.inj_succ, Z.pow_succ_r by lia. lia.
Qed.

(** [float64(n)] for [1 <= n < 2^63]: a normal number [m * 2^(k-a)], at
    most one unit in the last place above [n]. *)
Lemma of_int_normal n :
  1 <= n < 2 ^ 63 ->
  exists m a k,
    F64.of_int n = S754_finite false m (k - a) /\
    0 <= a <= 52 /\ 0 <= k <= 11 /\
    2 ^ 52 <= Zpos m < 2 ^ 53 /\
    Zpos m * 2 ^ k * 2 ^ 52 <= n * 2 ^ a * (2 ^ 52 + 1).
Proof.
  intros [Hn1 Hn2]. destruct n as [|p|p]; try lia.
  unfold F64.of_int, binary_normalize, binary_round.
  pose proof (digits2_pos_bounds p) as [D1 D2].
  set (d0 := Zpos (digits2_pos p)) in *.
  assert (Hd0 : 1 <= d0 <= 63).
  { split; [unfold d0; lia|].
    destruct (Z_lt_le_dec 63 d0) as [H|H]; [|exact H]. exfalso.
    assert (2 ^ 63 <= 2 ^ (d0 - 1)) by (apply Z.pow_le_mono_r; lia). lia. }
  rewrite (fexp_normal (d0 + 0)) by lia.
  unfold shl_align.
  destruct (d0 + 0 - 53 - 0) as [|q|q] eqn:E.
  - (* d0 = 53 *)
    assert (Hd : Zdigits2 (Zpos p) = d0) by reflexivity.
    destruct (binary_round_aux_normal (Zpos p) 0 loc_Exact) as (m & k & H1 & H2 & H3 & H4 & H5).
    + replace 52 with (d0 - 1) by lia. exact D1.
    + rewrite Hd; lia.
    + rewrite Hd; lia.
    + rewrite Hd in H3. exists m, 0, k. rewrite H1.
      split; [f_equal; lia|]. split; [lia|]. split; [lia|].
      split; [exact H2|]. pow_consts. lia.
  - (* d0 > 53 *)
    assert (Hd : Zdigits2 (Zpos p) = d0) by reflexivity.
    destruct (binary_round_aux_normal (Zpos p) 0 loc_Exact) as (m & k & H1 & H2 & H3 & H4 & H5).
    + assert (2 ^ 52 <= 2 ^ (d0 - 1)) by (apply Z.pow_le_mono_r; lia). lia.
    + rewrite Hd; lia.
    + rewrite Hd; lia.
    + rewrite Hd in H3. exists m, 0, k. rewrite H1.
      split; [f_equal; lia|]. split; [lia|]. split; [lia|].
      split; [exact H2|]. pow_consts. lia.
  - (* d0 < 53: the mantissa is shifted left *)
    set (a := Zpos q) in *.
    assert (Ha : a = 53 - d0) by (unfold a; lia).
    assert (Hv : Zpos (Pos.iter xO p q) = Zpos p * 2 ^ a)
      by apply iter_xO_value.
    assert (Pa : 0 < 2 ^ a) by (apply Z.pow_pos_nonneg; lia).
    assert (P52 : 2 ^ 52 = 2 ^ (d0 - 1) * 2 ^ a).
    { rewrite <- Z.pow_add_r by lia. f_equal. lia. }
    assert (P53 : 2 ^ 53 = 2 ^ d0 * 2 ^ a).
    { rewrite <- Z.pow_add_r by lia. f_equal. lia. }
    assert (Hz : 2 ^ 52 <= Zpos (Pos.iter xO p q) < 2 ^ 53).
    { rewrite Hv, P52, P53. split.
      - apply Z.mul_le_mono_nonneg_r; lia.
      - apply Z.mul_lt_mono_pos_r; lia. }
    assert (Hd : Zdigits2 (Zpos (Pos.iter xO p q)) = 53).
    { apply Zdigits2_unique; [lia|]. change (53 - 1) with 52. exact Hz. }
    destruct (binary_round_aux_normal (Zpos (Pos.iter xO p q)) (d0 + 0 - 53)
                loc_Exact) as (m & k & H1 & H2 & H3 & H4 & H5).
    + lia.
    + rewrite Hd; lia.
    + rewrite Hd; lia.
    + rewrite Hd in H3. exists m, a, k. rewrite H1.
      split; [f_equal; lia|]. split; [lia|]. split; [lia|].
      split; [exact H2|]. rewrite Hv in H4.
      rewrite <- Z.mul_assoc. rewrite <- Z.mul_assoc in H4. exact H4.
Qed.

(** The product of two normal numbers. *)
Lemma mul_normal mx ex my ey :
  2 ^ 52 <= Zpos mx < 2 ^ 53 -> 2 ^ 52 <= Zpos my < 2 ^ 53 ->
  -900 <= ex + ey <= 800 ->
  exists m k,
    F64.mul (S754_finite false mx ex) (S754_finite false my ey)
      = S754_finite false m (ex + ey + k) /\
    52 <= k <= 54 /\
    2 ^ 52 <= Zpos m < 2 ^ 53 /\
    Zpos m * 2 ^ k * 2 ^ 52 <= Zpos mx * Zpos my * (2 ^ 52 + 1).
Proof.
  intros Hx Hy He. unfold F64.mul, SFmul. simpl xorb.
  rewrite Pos2Z.inj_mul.
  assert (HM : 2 ^ 104 <= Zpos mx * Zpos my < 2 ^ 106).
  { change (2 ^ 104) with (2 ^ 52 * 2 ^ 52).
    change (2 ^ 106) with (2 ^ 53 * 2 ^ 53). pow_consts. nia. }
  pose proof (Zdigits2_range _ 104 106 ltac:(lia) HM) as HD.
  destruct (binary_round_aux_normal (Zpos mx * Zpos my) (ex + ey) loc_Exact)
    as (m & k & H1 & H2 & H3 & H4 & H5).
  - assert (2 ^ 52 <= 2 ^ 104) by (apply Z.pow_le_mono_r; lia). lia.
  - lia.
  - lia.
  - exists m, k. split; [exact H1|]. split; [lia|]. split; assumption.
Qed.

(** The quotient of two normal numbers. *)
Lemma div_normal mx ex my ey :
  2 ^ 52 <= Zpos mx < 2 ^ 53 -> 2 ^ 52 <= Zpos my < 2 ^ 53 ->
  -900 <= ex - ey <= 900 ->
  exists m k,
    F64.div (S754_finite false mx ex) (S754_finite false my ey)
      = S754_finite false m (ex - ey - 53 + k) /\
    0 <= k <= 2 /\
    2 ^ 52 <= Zpos m < 2 ^ 53 /\
    Zpos m * 2 ^ k * 2 ^ 52 * Zpos my <= Zpos mx * 2 ^ 53 * (2 ^ 52 + 1) /\
    (Zpos mx * 2 ^ 53 - Zpos my) * (2 ^ 52 - 1)
      < Zpos m * 2 ^ k * 2 ^ 52 * Zpos my.
Proof.
  intros Hx Hy He. unfold F64.div, SFdiv. simpl xorb.
  unfold SFdiv_core_binary.
  rewrite (Zdigits2_unique (Zpos mx) 53) by (change (53 - 1) with 52; lia).
  rewrite (Zdigits2_unique (Zpos my) 53) by (change (53 - 1) with 52; lia).
  replace (53 + ex - (53 + ey)) with (ex - ey) by lia.
  rewrite (fexp_normal (ex - ey)) by lia.
  change (IntDef.Z.min (ex - ey - 53) (ex - ey))
    with (Z.min (ex - ey - 53) (ex - ey)).
  replace (Z.min (ex - ey - 53) (ex - ey)) with (ex - ey - 53) by lia.
  replace (ex - ey - (ex - ey - 53)) with 53 by lia.
  cbv iota beta zeta.
  change (IntDef.Z.shiftl (Zpos mx) 53) with (Z.shiftl (Zpos mx) 53).
  rewrite Z.shiftl_mul_pow2 by lia.
  change (IntDef.Z.div_eucl (Zpos mx * 2 ^ 53) (Zpos my))
    with (Z.div_eucl (Zpos mx * 2 ^ 53) (Zpos my)).
  pose proof (Z_div_mod (Zpos mx * 2 ^ 53) (Zpos my) ltac:(lia)) as Hdm.
  destruct (Z.div_eucl (Zpos mx * 2 ^ 53) (Zpos my)) as [q r].
  destruct Hdm as [Hq Hr].
  assert (HQ : 2 ^ 52 <= q < 2 ^ 54).
  { change (2 ^ 54) with 18014398509481984. pow_consts. nia. }
  pose proof (Zdigits2_range q 52 54 ltac:(lia) HQ) as HD.
  destruct (binary_round_aux_normal q (ex - ey - 53)
              (new_location (Zpos my) r))
    as (m & k & H1 & H2 & H3 & H4 & H5).
  - lia.
  - lia.
  - lia.
  - exists m, k. split; [exact H1|]. split; [lia|]. split; [exact H2|].
    pow_consts. split; nia.
Qed.

(** The integer part of a normal number [m * 2^e], against the integer
    [m * 2^(e+s)] for a shift [s] that makes the exponent non-negative. *)
Lemma trunc_normal m e s :
  0 <= e + s -> 0 <= s ->
  exists t,
    F64.trunc (S754_finite false m e) = Some t /\
    0 <= t /\
    t * 2 ^ s <= Zpos m * 2 ^ (e + s) < (t + 1) * 2 ^ s.
Proof.
  intros Hes Hs. unfold F64.trunc.
  assert (P2 : 0 < 2 ^ s) by (apply Z.pow_pos_nonneg; lia).
  destruct (0 <=? e) eqn:E.
  - apply Z.leb_le in E. exists (Zpos m * 2 ^ e).
    split; [reflexivity|].
    assert (0 < 2 ^ e) by (apply Z.pow_pos_nonneg; lia).
    split; [lia|]. rewrite Z.pow_add_r by lia. nia.
  - apply Z.leb_gt in E. exists (Zpos m / 2 ^ (- e)).
    split; [reflexivity|].
    assert (Pe : 0 < 2 ^ (- e)) by (apply Z.pow_pos_nonneg; lia).
    assert (Ps : 0 < 2 ^ (e + s)) by (apply Z.pow_pos_nonneg; lia).
    split; [apply Z.div_pos; lia|].
    assert (Hs2 : 2 ^ s = 2 ^ (- e) * 2 ^ (e + s)).
    { rewrite <- Z.pow_add_r by lia. f_equal. lia. }
    rewrite Hs2.
    pose proof (Z.mul_div_le (Zpos m) (2 ^ (- e)) Pe).
    pose proof (Z.mul_succ_div_gt (Zpos m) (2 ^ (- e)) Pe).
    nia.
Qed.

Lemma percentileOf_default :
  percentileOf (F64.dec 1 1) = S754_finite false 6333186975989760 (-46).
Proof. vm_compute. reflexivity. Qed.

Lemma of_int_100 : F64.of_int 100 = S754_finite false 7036874417766400 (-46).
Proof. vm_compute. reflexivity. Qed.

(** The calibration index of the default contamination stays inside a
    dataset of [n] rows: [int(float64(n-1) * 90 / 100) <= n - 1]. *)
Lemma percentile_default_value n :
  2 <= n <= 2 ^ 63 ->
  exists z t,
    F64.div (F64.mul (F64.of_int (n - 1)) (percentileOf (F64.dec 1 1)))
            (F64.of_int 100) = z /\
    F64.trunc z = Some t /\ 0 <= t <= n - 1.
Proof.
  intros Hn. rewrite percentileOf_default, of_int_100.
  destruct (of_int_normal (n - 1) ltac:(lia))
    as (mx & a & kx & -> & Ha & Hkx & Hmx & H1).
  destruct (mul_normal mx (kx - a) 6333186975989760 (-46) Hmx
              ltac:(pow_consts; lia) ltac:(lia))
    as (my & ky & -> & Hky & Hmy & H2).
  destruct (div_normal my (kx - a + -46 + ky) 7036874417766400 (-46) Hmy
              ltac:(pow_consts; lia) ltac:(lia))
    as (mz & kz & -> & Hkz & Hmz & H3 & _).
  eexists.
  destruct (trunc_normal mz (kx - a + -46 + ky - -46 - 53 + kz) (a + 53)
              ltac:(lia) ltac:(lia)) as (t & Ht & Ht0 & HT & _).
  exists t. split; [reflexivity|]. split; [exact Ht|]. split; [exact Ht0|].
  replace (kx - a + -46 + ky - -46 - 53 + kz + (a + 53))
    with (kx + ky + kz) in HT by lia.
  rewrite !Z.pow_add_r in HT by lia.
  assert (PX : 0 < 2 ^ kx) by (apply Z.pow_pos_nonneg; lia).
  assert (PY : 0 < 2 ^ ky) by (apply Z.pow_pos_nonneg; lia).
  assert (PZ : 0 < 2 ^ kz) by (apply Z.pow_pos_nonneg; lia).
  assert (PS : 0 < 2 ^ a) by (apply Z.pow_pos_nonneg; lia).
  pow_consts. change (2 ^ 53) with 9007199254740992 in HT.
  revert HT H1 H2 H3 PX PY PZ PS.
  generalize (2 ^ kx) (2 ^ ky) (2 ^ kz) (2 ^ a).
  intros X Y Zk S HT H1 H2 H3 PX PY PZ PS.
  set (A := 4503599627370496) in *.
  set (B := 4503599627370496 + 1) in *.
  set (P := 9007199254740992) in *.
  set (mp := 6333186975989760) in *.
  set (mc := 7036874417766400) in *.
  set (m0 := n - 1) in *.
  assert (E1 : t * (S * P) * (A * A * A * mc)
               <= Zpos mz * (X * Y * Zk) * (A * A * A * mc)).
  { apply Z.mul_le_mono_nonneg_r; [unfold A, mc; lia|exact HT]. }
  assert (E2 : Zpos mz * Zk * A * mc * (X * Y * A * A)
               <= Zpos my * P * B * (X * Y * A * A)).
  { apply Z.mul_le_mono_nonneg_r; [unfold A; nia|exact H3]. }
  assert (E3 : Zpos my * Y * A * (P * B * X * A)
               <= Zpos mx * mp * B * (P * B * X * A)).
  { apply Z.mul_le_mono_nonneg_r; [unfold A, B, P; nia|exact H2]. }
  assert (E4 : Zpos mx * X * A * (mp * B * B * P)
               <= m0 * S * B * (mp * B * B * P)).
  { apply Z.mul_le_mono_nonneg_r; [unfold B, P, mp; lia|exact H1]. }
  assert (E5 : t * (A * A * A * mc) * (S * P)
               <= m0 * (B * B * B * mp) * (S * P)) by lia.
  apply Z.mul_le_mono_pos_r in E5; [|unfold P; nia].
  unfold A, B, mc, mp in E5. unfold m0 in *. nia.
Qed.

(** ** Rounding: exact results *)

Lemma shr_1_exact mrs :
  shr_r mrs = false -> shr_s mrs = false -> 0 <= shr_m mrs ->
  (exists c, shr_m mrs = 2 * c) ->
  shr_r (shr_1 mrs) = false /\ shr_s (shr_1 mrs) = false /\
  shr_m mrs = 2 * shr_m (shr_1 mrs).
Proof.
  destruct mrs as [m r s]. cbn [shr_r shr_s shr_m].
  intros -> -> Hm [c Hc].
  destruct m as [|p|p]; [simpl; auto| |lia].
  destruct p as [p|p|]; cbn [shr_1 shr_r shr_s shr_m orb].
  - exfalso. rewrite (Pos2Z.inj_xI p) in Hc. lia.
  - rewrite (Pos2Z.inj_xO p). auto.
  - exfalso. lia.
Qed.

Lemma iter_pos_shr_exact p : forall mrs,
  shr_r mrs = false -> shr_s mrs = false -> 0 <= shr_m mrs ->
  (exists c, shr_m mrs = c * 2 ^ Zpos p) ->
  shr_r (SpecFloat.iter_pos shr_1 p mrs) = false /\
  shr_s (SpecFloat.iter_pos shr_1 p mrs) = false /\
  shr_m mrs = shr_m (SpecFloat.iter_pos shr_1 p mrs) * 2 ^ Zpos p.
Proof.
  induction p as [p IH|p IH|]; intros mrs Hr Hs Hm [c Hc];
    simpl SpecFloat.iter_pos.
  - assert (Pp : 0 < 2 ^ Zpos p) by (apply Z.pow_pos_nonneg; lia).
    rewrite (Pos2Z.inj_xI p) in *.
    replace (2 * Zpos p + 1) with (Zpos p + Zpos p + 1) in * by lia.
    rewrite !Z.pow_add_r in * by lia. change (2 ^ 1) with 2 in *.
    destruct (shr_1_exact mrs Hr Hs Hm) as (R1 & S1 & M1).
    { exists (c * 2 ^ Zpos p * 2 ^ Zpos p). lia. }
    assert (Hm1 : 0 <= shr_m (shr_1 mrs)) by lia.
    destruct (IH (shr_1 mrs) R1 S1 Hm1) as (R2 & S2 & M2).
    { exists (c * 2 ^ Zpos p). nia. }
    assert (Hm2 : 0 <= shr_m (SpecFloat.iter_pos shr_1 p (shr_1 mrs)))
      by nia.
    destruct (IH _ R2 S2 Hm2) as (R3 & S3 & M3).
    { exists c. nia. }
    split; [exact R3|]. split; [exact S3|]. nia.
  - assert (Pp : 0 < 2 ^ Zpos p) by (apply Z.pow_pos_nonneg; lia).
    rewrite (Pos2Z.inj_xO p) in *.
    replace (2 * Zpos p) with (Zpos p + Zpos p) in * by lia.
    rewrite !Z.pow_add_r in * by lia.
    destruct (IH mrs Hr Hs Hm) as (R2 & S2 & M2).
    { exists (c * 2 ^ Zpos p). lia. }
    assert (Hm2 : 0 <= shr_m (SpecFloat.iter_pos shr_1 p mrs)) by nia.
    destruct (IH _ R2 S2 Hm2) as (R3 & S3 & M3).
    { exists c. nia. }
    split; [exact R3|]. split; [exact S3|]. nia.
  - change (2 ^ 1) with 2 in *.
    destruct (shr_1_exact mrs Hr Hs Hm) as (R1 & S1 & M1).
    { exists c. lia. }
    split; [exact R1|]. split; [exact S1|]. lia.
Qed.

(** [binary_round_aux] on an exact input whose low bits are zero: nothing
    is lost. *)
Lemma binary_round_aux_exact mx ex c :
  2 ^ 52 <= mx ->
  let d := Zdigits2 mx in
  -1074 <= d + ex - 53 -> d + ex <= 1023 ->
  mx = c * 2 ^ (d - 53) ->
  exists m,
    binary_round_aux F64.prec F64.emax false mx ex loc_Exact
      = S754_finite false m (ex + (d - 53)) /\
    Zpos m = c /\ 2 ^ 52 <= c < 2 ^ 53.
Proof.
  intros Hmx d Hlo Hhi Hc.
  assert (Hd : 53 <= d) by (apply Zdigits2_lower; exact Hmx).
  assert (Hpos : 0 < mx) by (assert (0 < 2 ^ 52) by reflexivity; lia).
  pose proof (Zdigits2_bounds mx Hpos) as [D1 D2]. fold d in D1, D2.
  set (k1 := d - 53) in *.
  assert (Hk1 : 0 <= k1) by (unfold k1; lia).
  assert (Pk : 0 < 2 ^ k1) by (apply Z.pow_pos_nonneg; lia).
  assert (P52 : 2 ^ (d - 1) = 2 ^ 52 * 2 ^ k1).
  { rewrite <- Z.pow_add_r by lia. f_equal. unfold k1; lia. }
  assert (P53 : 2 ^ d = 2 ^ 53 * 2 ^ k1).
  { rewrite <- Z.pow_add_r by lia. f_equal. unfold k1; lia. }
  assert (Hcr : 2 ^ 52 <= c < 2 ^ 53) by (pow_consts; nia).
  assert (S1 : shr_fexp F64.prec F64.emax mx ex loc_Exact
               = ({| shr_m := c; shr_r := false; shr_s := false |}, ex + k1)).
  { unfold shr_fexp. fold d. rewrite (fexp_normal (d + ex)) by lia.
    replace (d + ex - 53 - ex) with k1 by (unfold k1; lia).
    unfold shr. simpl shr_record_of_loc.
    clearbody k1. destruct k1 as [|q|q]; [| |lia].
    - change (2 ^ 0) with 1 in Hc.
      replace c with mx by lia. replace (ex + 0) with ex by lia.
      reflexivity.
    - destruct (iter_pos_shr_exact q
                  {| shr_m := mx; shr_r := false; shr_s := false |}
                  eq_refl eq_refl ltac:(simpl; lia)) as (R & S & Mq).
      { exists c. exact Hc. }
      simpl shr_m in Mq at 1.
      destruct (SpecFloat.iter_pos shr_1 q _) as [m' r' s'].
      simpl in R, S, Mq. subst r' s'. f_equal. f_equal. nia. }
  unfold binary_round_aux. rewrite S1. simpl shr_m. simpl loc_of_shr_record.
  simpl round_nearest_even.
  assert (S2 : shr_fexp F64.prec F64.emax c (ex + k1) loc_Exact
               = ({| shr_m := c; shr_r := false; shr_s := false |}, ex + k1)).
  { unfold shr_fexp.
    rewrite (Zdigits2_unique c 53) by (change (53 - 1) with 52; lia).
    rewrite (fexp_normal (53 + (ex + k1))) by (unfold k1; lia).
    replace (53 + (ex + k1) - 53 - (ex + k1)) with 0 by lia.
    reflexivity. }
  rewrite S2. simpl shr_m.
  destruct c as [|p|p]; try (pow_consts; lia).
  replace (ex + k1 <=? F64.emax - F64.prec) with true
    by (symmetry; apply Z.leb_le; unfold F64.emax, F64.prec, k1; lia).
  exists p. auto.
Qed.

Lemma Zdigits2_shift m k :
  0 < m -> 0 <= k -> Zdigits2 (m * 2 ^ k) = Zdigits2 m + k.
Proof.
  intros Hm Hk.
  pose proof (Zdigits2_bounds m Hm) as [D1 D2].
  assert (Pk : 0 < 2 ^ k) by (apply Z.pow_pos_nonneg; lia).
  assert (Hd : 1 <= Zdigits2 m).
  { destruct m as [|p|p]; try lia. simpl. lia. }
  apply Zdigits2_unique; [nia|].
  replace (Zdigits2 m + k - 1) with (Zdigits2 m - 1 + k) by lia.
  rewrite !Z.pow_add_r by lia. nia.
Qed.

Lemma normalized_bounds n :
  1 <= n -> Zdigits2 n <= 53 ->
  2 ^ 52 <= n * 2 ^ (53 - Zdigits2 n) < 2 ^ 53.
Proof.
  intros Hn Hd.
  pose proof (Zdigits2_bounds n ltac:(lia)) as [B1 B2].
  assert (H1 : 1 <= Zdigits2 n).
  { destruct n as [|p|p]; try lia. simpl. lia. }
  set (d := Zdigits2 n) in *.
  assert (Pw : 0 < 2 ^ (53 - d)) by (apply Z.pow_pos_nonneg; lia).
  assert (P52 : 2 ^ 52 = 2 ^ (d - 1) * 2 ^ (53 - d)).
  { rewrite <- Z.pow_add_r by lia. f_equal. lia. }
  assert (P53 : 2 ^ 53 = 2 ^ d * 2 ^ (53 - d)).
  { rewrite <- Z.pow_add_r by lia. f_equal. lia. }
  rewrite P52, P53. split.
  - apply Z.mul_le_mono_nonneg_r; lia.
  - apply Z.mul_lt_mono_pos_r; lia.
Qed.

(** [float64(n)] is exact below [2^53]: the mantissa is [n] shifted to 53
    bits. *)
Lemma of_int_exact n :
  1 <= n < 2 ^ 53 ->
  exists m,
    F64.of_int n = S754_finite false m (Zdigits2 n - 53) /\
    Zpos m = n * 2 ^ (53 - Zdigits2 n) /\
    1 <= Zdigits2 n <= 53.
Proof.
  intros [Hn1 Hn2]. destruct n as [|p|p]; try lia.
  unfold F64.of_int, binary_normalize, binary_round.
  pose proof (digits2_pos_bounds p) as [D1 D2].
  simpl Zdigits2.
  set (d0 := Zpos (digits2_pos p)) in *.
  assert (Hd0 : 1 <= d0 <= 53).
  { split; [unfold d0; lia|].
    destruct (Z_lt_le_dec 53 d0) as [H|H]; [|exact H]. exfalso.
    assert (2 ^ 53 <= 2 ^ (d0 - 1)) by (apply Z.pow_le_mono_r; lia). lia. }
  rewrite (fexp_normal (d0 + 0)) by lia.
  unfold shl_align.
  destruct (d0 + 0 - 53 - 0) as [|q|q] eqn:E; [|lia|].
  - (* 53 bits already *)
    assert (d0 = 53) by lia.
    destruct (binary_round_aux_exact (Zpos p) 0 (Zpos p)) as (m & H1 & H2 & H3).
    + replace 52 with (d0 - 1) by lia. exact D1.
    + simpl Zdigits2. fold d0. lia.
    + simpl Zdigits2. fold d0. lia.
    + simpl Zdigits2. fold d0. replace (d0 - 53) with 0 by lia.
      change (2 ^ 0) with 1. lia.
    + simpl Zdigits2 in H1. fold d0 in H1.
      exists m. rewrite H1. split; [f_equal; lia|].
      split; [|exact Hd0]. replace (53 - d0) with 0 by lia.
      change (2 ^ 0) with 1. lia.
  - set (a := Zpos q) in *.
    assert (Ha : a = 53 - d0) by (unfold a; lia).
    assert (Hv : Zpos (Pos.iter xO p q) = Zpos p * 2 ^ a)
      by apply iter_xO_value.
    assert (Hdz : Zdigits2 (Zpos (Pos.iter xO p q)) = 53).
    { rewrite Hv, Zdigits2_shift by lia. simpl Zdigits2. fold d0. lia. }
    destruct (binary_round_aux_exact (Zpos (Pos.iter xO p q)) (d0 + 0 - 53)
                (Zpos (Pos.iter xO p q))) as (m & H1 & H2 & H3).
    + pose proof (Zdigits2_bounds (Zpos (Pos.iter xO p q)) ltac:(lia)) as [B1 _].
      rewrite Hdz in B1. exact B1.
    + rewrite Hdz. lia.
    + rewrite Hdz. lia.
    + rewrite Hdz. change (2 ^ (53 - 53)) with 1. lia.
    + rewrite Hdz in H1. exists m. rewrite H1.
      split; [f_equal; lia|]. split; [|exact Hd0].
      rewrite H2, Hv. f_equal. f_equal. lia.
Qed.

(** The product of two integers is exact when it is below [2^53]. *)
Lemma mul_int_exact u v :
  1 <= u -> 1 <= v -> u * v < 2 ^ 53 ->
  F64.mul (F64.of_int u) (F64.of_int v) = F64.of_int (u * v).
Proof.
  intros Hu Hv Huv.
  assert (Hu' : u < 2 ^ 53) by nia.
  assert (Hv' : v < 2 ^ 53) by nia.
  destruct (of_int_exact u ltac:(lia)) as (mu & -> & Mu & Du).
  destruct (of_int_exact v ltac:(lia)) as (mv & -> & Mv & Dv).
  destruct (of_int_exact (u * v) ltac:(nia)) as (mw & -> & Mw & Dw).
  pose proof (normalized_bounds (u * v) ltac:(nia) ltac:(lia)) as HW.
  rewrite <- Mw in HW.
  pose proof (Zdigits2_bounds u ltac:(lia)) as [Bu _].
  pose proof (Zdigits2_bounds v ltac:(lia)) as [Bv _].
  set (du := Zdigits2 u) in *. set (dv := Zdigits2 v) in *.
  set (dw := Zdigits2 (u * v)) in *.
  assert (Dge : du + dv - 1 <= dw).
  { assert (R : du + dv - 2 < Zdigits2 (u * v) <= 53).
    { apply Zdigits2_range; [lia|]. split; [|exact Huv].
      replace (du + dv - 2) with ((du - 1) + (dv - 1)) by lia.
      rewrite Z.pow_add_r by lia.
      assert (0 < 2 ^ (du - 1)) by (apply Z.pow_pos_nonneg; lia).
      assert (0 < 2 ^ (dv - 1)) by (apply Z.pow_pos_nonneg; lia).
      nia. }
    fold dw in R. lia. }
  unfold F64.mul, SFmul. simpl xorb. rewrite Pos2Z.inj_mul, Mu, Mv.
  assert (HM : u * 2 ^ (53 - du) * (v * 2 ^ (53 - dv))
               = (u * v) * 2 ^ (106 - du - dv)).
  { replace (106 - du - dv) with ((53 - du) + (53 - dv)) by lia.
    rewrite Z.pow_add_r by lia. ring. }
  rewrite HM.
  assert (HD : Zdigits2 ((u * v) * 2 ^ (106 - du - dv))
               = dw + (106 - du - dv)).
  { apply Zdigits2_shift; nia. }
  assert (Hsplit : (u * v) * 2 ^ (106 - du - dv)
                   = Zpos mw * 2 ^ (dw + (106 - du - dv) - 53)).
  { rewrite Mw.
    replace (106 - du - dv)
      with ((53 - dw) + (dw + (106 - du - dv) - 53)) at 1 by lia.
    rewrite Z.pow_add_r by lia. ring. }
  assert (Pz : 0 < 2 ^ (dw + (106 - du - dv) - 53))
    by (apply Z.pow_pos_nonneg; lia).
  destruct (binary_round_aux_exact ((u * v) * 2 ^ (106 - du - dv))
              (du - 53 + (dv - 53)) (Zpos mw)) as (m & H1 & H2 & H3).
  - rewrite Hsplit. nia.
  - rewrite HD. lia.
  - rewrite HD. lia.
  - rewrite HD. exact Hsplit.
  - rewrite HD in H1. rewrite H1. f_equal.
    + apply Pos2Z.inj. exact H2.
    + lia.
Qed.

(** The quotient of two integers is exact when the division is. *)
Lemma div_int_exact w v :
  1 <= w -> 1 <= v -> w * v < 2 ^ 53 ->
  F64.div (F64.of_int (w * v)) (F64.of_int v) = F64.of_int w.
Proof.
  intros Hw Hv Hwv.
  assert (Hw' : w < 2 ^ 53) by nia.
  assert (Hv' : v < 2 ^ 53) by nia.
  destruct (of_int_exact (w * v) ltac:(nia)) as (mu & -> & Mu & Du).
  destruct (of_int_exact v ltac:(lia)) as (mv & -> & Mv & Dv).
  destruct (of_int_exact w ltac:(lia)) as (mw & -> & Mw & Dw).
  pose proof (normalized_bounds (w * v) ltac:(nia) ltac:(lia)) as HU.
  pose proof (normalized_bounds v ltac:(lia) ltac:(lia)) as HV.
  pose proof (normalized_bounds w ltac:(lia) ltac:(lia)) as HW.
  rewrite <- Mu in HU. rewrite <- Mv in HV. rewrite <- Mw in HW.
  pose proof (Zdigits2_bounds w ltac:(lia)) as [_ Bw].
  pose proof (Zdigits2_bounds v ltac:(lia)) as [_ Bv].
  set (du := Zdigits2 (w * v)) in *. set (dv := Zdigits2 v) in *.
  set (dw := Zdigits2 w) in *.
  assert (Dle : du <= dw + dv).
  { assert (R : 0 < Zdigits2 (w * v) <= dw + dv).
    { apply Zdigits2_range; [lia|]. split; [change (2 ^ 0) with 1; nia|].
      rewrite Z.pow_add_r by lia.
      assert (0 < 2 ^ dw) by (apply Z.pow_pos_nonneg; lia).
      assert (0 < 2 ^ dv) by (apply Z.pow_pos_nonneg; lia).
      nia. }
    fold du in R. lia. }
  unfold F64.div, SFdiv. simpl xorb. unfold SFdiv_core_binary.
  rewrite (Zdigits2_unique (Zpos mu) 53) by (change (53 - 1) with 52; lia).
  rewrite (Zdigits2_unique (Zpos mv) 53) by (change (53 - 1) with 52; lia).
  replace (53 + (du - 53) - (53 + (dv - 53))) with (du - dv) by lia.
  rewrite (fexp_normal (du - dv)) by lia.
  replace (du - 53 - (dv - 53)) with (du - dv) by lia.
  change (IntDef.Z.min (du - dv - 53) (du - dv))
    with (Z.min (du - dv - 53) (du - dv)).
  replace (Z.min (du - dv - 53) (du - dv)) with (du - dv - 53) by lia.
  replace (du - dv - (du - dv - 53)) with 53 by lia.
  cbv iota beta zeta.
  change (IntDef.Z.shiftl (Zpos mu) 53) with (Z.shiftl (Zpos mu) 53).
  rewrite Z.shiftl_mul_pow2 by lia.
  change (IntDef.Z.div_eucl (Zpos mu * 2 ^ 53) (Zpos mv))
    with (Z.div_eucl (Zpos mu * 2 ^ 53) (Zpos mv)).
  set (j := 53 + dv - du).
  assert (Hj : 0 <= j) by (unfold j; lia).
  assert (HQ : Zpos mu * 2 ^ 53 = Zpos mv * (w * 2 ^ j) + 0).
  { rewrite Mu, Mv. unfold j.
    replace (53 - du) with ((53 + dv - du) - dv) by lia.
    assert (E1 : 2 ^ (53 + dv - du) * 2 ^ (53 - dv) * 1
                 = 2 ^ (53 + dv - du - dv) * 2 ^ 53).
    { rewrite <- !Z.pow_add_r by lia. rewrite Z.mul_1_r. f_equal. lia. }
    nia. }
  pose proof (Z_div_mod (Zpos mu * 2 ^ 53) (Zpos mv) ltac:(lia)) as Hdm.
  destruct (Z.div_eucl (Zpos mu * 2 ^ 53) (Zpos mv)) as [q r].
  destruct Hdm as [Hq Hr].
  destruct (Z.div_mod_unique (Zpos mv) q (w * 2 ^ j) r 0) as [-> ->];
    [lia | lia | lia |].
  assert (Hloc : new_location (Zpos mv) 0 = loc_Exact).
  { unfold new_location, new_location_even, new_location_odd.
    destruct (IntDef.Z.even (Zpos mv)); reflexivity. }
  rewrite Hloc.
  assert (Pj : 0 < 2 ^ j) by (apply Z.pow_pos_nonneg; lia).
  assert (HD : Zdigits2 (w * 2 ^ j) = dw + j)
    by (apply Zdigits2_shift; lia).
  assert (Hsplit : w * 2 ^ j = Zpos mw * 2 ^ (dw + j - 53)).
  { rewrite Mw. replace j with ((53 - dw) + (dw + j - 53)) at 1 by (unfold j; lia).
    rewrite Z.pow_add_r by (unfold j; lia). ring. }
  assert (Pz : 0 < 2 ^ (dw + j - 53))
    by (apply Z.pow_pos_nonneg; unfold j; lia).
  destruct (binary_round_aux_exact (w * 2 ^ j) (du - dv - 53) (Zpos mw))
    as (m & H1 & H2 & H3).
  - rewrite Hsplit. nia.
  - rewrite HD. unfold j. lia.
  - rewrite HD. unfold j. lia.
  - rewrite HD. exact Hsplit.
  - rewrite HD in H1. rewrite H1. f_equal.
    + apply Pos2Z.inj. exact H2.
    + unfold j. lia.
Qed.

Lemma trunc_of_int n : 1 <= n < 2 ^ 53 -> F64.trunc (F64.of_int n) = Some n.
Proof.
  intros Hn. destruct (of_int_exact n Hn) as (m & -> & Mm & Dn).
  unfold F64.trunc. rewrite Mm.
  destruct (0 <=? Zdigits2 n - 53) eqn:E.
  - apply Z.leb_le in E. replace (Zdigits2 n) with 53 by lia.
    change (2 ^ (53 - 53)) with 1. f_equal. lia.
  - replace (- (Zdigits2 n - 53)) with (53 - Zdigits2 n) by lia.
    f_equal. apply Z.div_mul.
    assert (0 < 2 ^ (53 - Zdigits2 n)) by (apply Z.pow_pos_nonneg; lia). lia.
Qed.

Lemma of_int_90 : F64.of_int 90 = S754_finite false 6333186975989760 (-46).
Proof. vm_compute. reflexivity. Qed.

(** For the default contamination and fewer than [2^46] rows the float64
    expression [int(float64(n-1) * 90 / 100)] is the exact integer part
    of [9 * (n - 1) / 10]. *)
Lemma percentile_default_floor n :
  1 <= n -> n - 1 < 2 ^ 46 ->
  F64.trunc
    (F64.div (F64.mul (F64.of_int (n - 1)) (percentileOf (F64.dec 1 1)))
             (F64.of_int 100))
  = Some (9 * (n - 1) / 10).
Proof.
  intros Hn1 Hn2. rewrite percentileOf_default, <- of_int_90.
  remember (n - 1) as m0 eqn:Em0.
  assert (H0 : 0 <= m0) by lia. clear Em0 Hn1.
  change (2 ^ 46) with 70368744177664 in Hn2.
  destruct (Z.eq_dec m0 0) as [->|Hm]; [vm_compute; reflexivity|].
  rewrite mul_int_exact by (pow_consts; lia).
  pose proof (Z.div_mod (9 * m0) 10 ltac:(lia)) as Hdm.
  pose proof (Z.mod_pos_bound (9 * m0) 10 ltac:(lia)) as Hr.
  set (q0 := 9 * m0 / 10) in *. set (r0 := (9 * m0) mod 10) in *.
  destruct (Z.eq_dec r0 0) as [Hr0|Hr0].
  - replace (m0 * 90) with (q0 * 100) by lia.
    rewrite div_int_exact by (pow_consts; lia).
    apply trunc_of_int. pow_consts. lia.
  - destruct (of_int_exact (m0 * 90) ltac:(pow_consts; lia))
      as (mu & -> & Mu & Du).
    pose proof (normalized_bounds (m0 * 90) ltac:(lia) ltac:(lia)) as HU.
    rewrite <- Mu in HU.
    set (du := Zdigits2 (m0 * 90)) in *.
    rewrite of_int_100.
    destruct (div_normal mu (du - 53) 7036874417766400 (-46) HU
                ltac:(pow_consts; lia) ltac:(lia))
      as (m & k & -> & Hk & Hm52 & Hup & Hlo).
    destruct (trunc_normal m (du - 53 - -46 - 53 + k) (60 - du)
                ltac:(lia) ltac:(lia)) as (t & -> & Ht0 & HT1 & HT2).
    f_equal.
    replace (du - 53 - -46 - 53 + k + (60 - du)) with k in * by lia.
    assert (HS : 2 ^ (60 - du) = 128 * 2 ^ (53 - du)).
    { replace (60 - du) with (7 + (53 - du)) by lia.
      rewrite Z.pow_add_r by lia. reflexivity. }
    assert (PW : 1 <= 2 ^ (53 - du))
      by (assert (0 < 2 ^ (53 - du)) by (apply Z.pow_pos_nonneg; lia); lia).
    assert (PK : 0 < 2 ^ k) by (apply Z.pow_pos_nonneg; lia).
    rewrite HS in HT1, HT2. rewrite Mu in Hup, Hlo.
    pow_consts.
    revert HT1 HT2 Hup Hlo PW PK.
    generalize (2 ^ (53 - du)) (2 ^ k) (Zpos m). intros W K mm HT1 HT2 Hup Hlo PW PK.
    set (A := 4503599627370496) in *.
    assert (Eu : m0 * 90 = 100 * q0 + 10 * r0) by lia.
    rewrite Eu in Hup, Hlo.
    assert (Hq0 : 0 <= q0 < 70368744177664) by lia.
    destruct (Z_lt_le_dec q0 t) as [Hgt|Hle].
    + exfalso.
      (* t >= q0 + 1 *)
      assert (E1 : (q0 + 1) * (128 * W) * (A * 7036874417766400)
                   <= mm * K * (A * 7036874417766400)).
      { apply Z.mul_le_mono_nonneg_r; [unfold A; lia|]. nia. }
      assert (E2 : (q0 + 1) * 100 * A * (W * 9007199254740992)
                   <= (100 * q0 + 10 * r0) * (A + 1) * (W * 9007199254740992))
        by (unfold A in *; lia).
      apply Z.mul_le_mono_pos_r in E2; [|lia].
      unfold A in E2. lia.
    + destruct (Z_lt_le_dec t q0) as [Hlt|Hge]; [|lia].
      exfalso.
      assert (E1 : mm * K * (A * 7036874417766400)
                   < q0 * (128 * W) * (A * 7036874417766400)).
      { apply Z.mul_lt_mono_pos_r; [unfold A; lia|]. nia. }
      assert (E2 : ((100 * q0 + 10 * r0) * W * 128 - 100) * (A - 1)
                   < q0 * 128 * W * A * 100) by (unfold A in *; lia).
      assert (E3 : 1180 * W * (A - 1) <= (10 * r0 * W * 128 - 100) * (A - 1)).
      { apply Z.mul_le_mono_nonneg_r; [unfold A; lia|]. nia. }
      assert (E4 : 1180 * W * (A - 1) < 12800 * q0 * W) by (unfold A in *; nia).
      assert (E5 : 1180 * (A - 1) * W < 12800 * q0 * W) by lia.
      apply Z.mul_lt_mono_pos_r in E5; [|lia].
      unfold A in E5. lia.
Qed.

Section Properties.

Context {M : GoMath} {Rand : Type} {R : GoRand Rand}.
Context {W : GobWire} {D : GobDecoder}.

Implicit Types f g : @IsolationForest Rand.

(** ** Batch and single-sample scoring *)

Lemma index_no_error {A : Type} (s : list A) i e : index s i <> Error e.
Proof.
  unfold index. destruct (i <? 0); [discriminate|].
  destruct (nth_error s (Z.to_nat i)); discriminate.
Qed.

Lemma pathLength_node_no_error sample :
  forall n d e, pathLength_node sample n d <> Error e.
Proof.
  fix IHn 1. intros [ft sv [l|] [r|] sz] d e; simpl; try discriminate;
    (destruct (index sample ft) eqn:E; simpl;
     [ destruct (F64.ltb _ _); first [apply IHn | discriminate]
     | exfalso; exact (index_no_error _ _ _ E)
     | discriminate ]).
Qed.

Lemma totalPathLength_no_error sample :
  forall ts acc e, totalPathLength sample ts acc <> Error e.
Proof.
  induction ts as [|[tr|] ts IH]; intros acc e; simpl; try discriminate.
  destruct (root tr) as [n|]; simpl; [|discriminate].
  destruct (pathLength_node sample n 0) eqn:E; simpl;
    [apply IH | exfalso; exact (pathLength_node_no_error _ _ _ _ E)
    | discriminate].
Qed.

Lemma predictOne_no_error f sample e : predictOne f sample <> Error e.
Proof.
  unfold predictOne.
  destruct (totalPathLength sample (trees f) F64.zero) eqn:E; simpl;
    [discriminate | exfalso; exact (totalPathLength_no_error _ _ _ _ E)
    | discriminate].
Qed.

Lemma predict_no_error f data : forall e, predict f data <> Error e.
Proof.
  induction data as [|x data IH]; intros e; simpl; [discriminate|].
  destruct (predictOne f x) eqn:E1; simpl;
    [| exfalso; exact (predictOne_no_error _ _ _ E1) | discriminate].
  destruct (predict f data) eqn:E2; simpl;
    [discriminate | exfalso; exact (IH _ eq_refl) | discriminate].
Qed.

Lemma predict_Forall2 f data scores :
  predict f data = Val scores <->
  Forall2 (fun x v => predictOne f x = Val v) data scores.
Proof.
  revert scores; induction data as [|x data IH]; intros scores; simpl.
  - split.
    + intros H; inversion H; constructor.
    + intros H; inversion H; reflexivity.
  - split.
    + intros H. inv_bind H. inv_bind H. inversion H; subst.
      constructor; [assumption | apply IH; assumption].
    + intros H. inversion H as [|x' v l l' Hx Hl]; subst.
      rewrite Hx; simpl. apply IH in Hl. rewrite Hl; reflexivity.
Qed.

Lemma PredictOne_each f data scores :
  trained f = true -> Predict f data = Val scores ->
  Forall2 (fun x v => PredictOne f x = Val v) data scores.
Proof.
  unfold Predict, PredictOne. intros ->. simpl. apply predict_Forall2.
Qed.

(** C8.  For a trained forest, [Predict] on a batch returns the scores
    [scores] exactly when [scores] has one element per sample of the batch,
    in order, each the score [PredictOne] returns for that sample: the
    result has the length of the batch and its i-th element is
    [PredictOne] of the i-th sample; and [Predict] does return such a
    vector as soon as [PredictOne] returns a score for every sample. *)
Theorem Predict_is_PredictOne_pointwise :
  forall (f : @IsolationForest Rand) (B : list (list float64))
         (scores : list float64),
    trained f = true ->
    (Predict f B = Val scores <->
     Forall2 (fun x v => PredictOne f x = Val v) B scores).
Proof.
  intros f B scores Ht. unfold Predict, PredictOne. rewrite Ht; simpl.
  apply predict_Forall2.
Qed.

(** ** The trained flag *)

Lemma New_unfold opts :
  New opts =
  set_maxDepth
    (depthOf (sampleSize (fold_left (fun f opt => applyOption opt f) opts
       {| nTrees := 100; sampleSize := 256; contamination := F64.dec 1 1;
          threshold := F64.dec 5 1; maxDepth := 0; rng := rand_New 42;
          trees := []; trained := false; avgPathLength := F64.zero |})))
    (fold_left (fun f opt => applyOption opt f) opts
       {| nTrees := 100; sampleSize := 256; contamination := F64.dec 1 1;
          threshold := F64.dec 5 1; maxDepth := 0; rng := rand_New 42;
          trees := []; trained := false; avgPathLength := F64.zero |}).
Proof. reflexivity. Qed.

Lemma applyOption_keeps opt f :
  trained (applyOption opt f) = trained f /\
  threshold (applyOption opt f) = threshold f /\
  trees (applyOption opt f) = trees f /\
  maxDepth (applyOption opt f) = maxDepth f /\
  avgPathLength (applyOption opt f) = avgPathLength f.
Proof. destruct opt; simpl; auto. Qed.

Lemma fold_options_keeps opts : forall f,
  let f' := fold_left (fun f opt => applyOption opt f) opts f in
  trained f' = trained f /\ threshold f' = threshold f /\
  trees f' = trees f /\ maxDepth f' = maxDepth f /\
  avgPathLength f' = avgPathLength f.
Proof.
  induction opts as [|opt opts IH]; intros f; simpl; [auto|].
  destruct (IH (applyOption opt f)) as (H1 & H2 & H3 & H4 & H5).
  destruct (applyOption_keeps opt f) as (K1 & K2 & K3 & K4 & K5).
  simpl in *. repeat split; congruence.
Qed.

Lemma New_untrained opts : trained (New opts) = false.
Proof.
  rewrite New_unfold. simpl.
  match goal with |- trained (fold_left _ _ ?f0) = _ =>
    destruct (fold_options_keeps opts f0) as (H & _) end.
  exact H.
Qed.

Lemma New_threshold opts : threshold (New opts) = F64.dec 5 1.
Proof.
  rewrite New_unfold. simpl.
  match goal with |- threshold (fold_left _ _ ?f0) = _ =>
    destruct (fold_options_keeps opts f0) as (_ & H & _) end.
  exact H.
Qed.

Lemma buildTrees_keeps count : forall f data nS sS nF ts f',
  buildTrees count f data nS sS nF = Val (ts, f') ->
  nTrees f' = nTrees f /\ sampleSize f' = sampleSize f /\
  contamination f' = contamination f /\ threshold f' = threshold f /\
  maxDepth f' = maxDepth f /\ trees f' = trees f /\
  trained f' = trained f /\ avgPathLength f' = avgPathLength f /\
  List.length ts = count.
Proof.
  induction count as [|c IH]; intros f data nS sS nF ts f' H; simpl in H.
  - inversion H; subst. repeat split; reflexivity.
  - destruct (rand_Perm (rng f) nS) as [perm r].
    inv_bind H. inv_bind H. inv_bind H. destruct a1 as [tree r1].
    inv_bind H. destruct a1 as [rest f1]. inversion H; subst.
    apply IH in Ha2. simpl in Ha2.
    destruct Ha2 as (H1 & H2 & H3 & H4 & H5 & H6 & H7 & H8 & H9).
    repeat split; try assumption. simpl; congruence.
Qed.

Lemma Fit_Val f data f' :
  Fit f data = Val f' ->
  exists ts f1 sS,
    data <> [] /\
    sS = (if sampleSize f >? len data then len data else sampleSize f) /\
    0 <= nTrees f /\
    buildTrees (Z.to_nat (nTrees f)) f data (len data) sS
               (len (hd [] data)) = Val (ts, f1) /\
    let f2 := set_trained true
                (set_avgPathLength (averagePathLength (F64.of_int sS))
                   (set_trees ts f1)) in
    (F64.gtb (contamination f) F64.zero = true ->
       exists scores t,
         predict f2 data = Val scores /\
         percentile scores (percentileOf (contamination f)) = Val t /\
         f' = set_threshold t f2) /\
    (F64.gtb (contamination f) F64.zero = false -> f' = f2).
Proof.
  unfold Fit. destruct data as [|row0 rest]; [discriminate|].
  set (data := row0 :: rest).
  destruct (nTrees f <? 0) eqn:En; [discriminate|].
  intros H. inv_bind H. destruct a as [ts f1].
  exists ts, f1, (if sampleSize f >? len data then len data else sampleSize f).
  split; [discriminate|]. split; [reflexivity|].
  split; [apply Z.ltb_ge in En; exact En|].
  split; [exact Ha|].
  pose proof (buildTrees_keeps _ _ _ _ _ _ _ _ Ha) as (_ & _ & Hc & _).
  simpl in H. rewrite Hc in H. simpl.
  split; intros Hg; rewrite Hg in H.
  - inv_bind H. inv_bind H. inversion H; subst.
    exists a, a0. auto.
  - inversion H; reflexivity.
Qed.

Lemma Fit_trained f data f' : Fit f data = Val f' -> trained f' = true.
Proof.
  intros H. apply Fit_Val in H.
  destruct H as (ts & f1 & sS & _ & _ & _ & _ & Hyes & Hno).
  destruct (F64.gtb (contamination f) F64.zero).
  - destruct (Hyes eq_refl) as (scores & t & _ & _ & ->). reflexivity.
  - rewrite (Hno eq_refl). reflexivity.
Qed.

Lemma Load_result f blob :
  let f' := fst (Load f blob) in
  match snd (Load f blob) with
  | None => trained f' = true
  | Some _ => trained f' = trained f /\ maxDepth f' = maxDepth f /\
              rng f' = rng f
  end.
Proof.
  unfold Load.
  destruct (gob_Decode_int _ _) as [[d1 v1] [e|]]; simpl; [auto|].
  destruct (gob_Decode_int _ _) as [[d2 v2] [e|]]; simpl; [auto|].
  destruct (gob_Decode_float64 _ _) as [[d3 v3] [e|]]; simpl; [auto|].
  destruct (gob_Decode_float64 _ _) as [[d4 v4] [e|]]; simpl; [auto|].
  destruct (gob_Decode_float64 _ _) as [[d5 v5] [e|]]; simpl; [auto|].
  destruct (gob_Decode_trees _ _) as [[d6 v6] [e|]]; simpl; auto.
Qed.

Lemma step_trained f c f' :
  step f c = Some f' -> trained f' = trained f || succeeds f c.
Proof.
  destruct c; simpl.
  - destruct (Fit f data) eqn:E; intros H; inversion H; subst.
    + rewrite (Fit_trained _ _ _ E). symmetry; apply orb_true_r.
    + symmetry; apply orb_false_r.
  - intros H; inversion H; subst.
    pose proof (Load_result f blob) as L. simpl in L.
    destruct (snd (Load f blob)).
    + destruct L as (L & _). rewrite L. symmetry; apply orb_false_r.
    + rewrite L. symmetry; apply orb_true_r.
  - intros H; inversion H; subst. simpl. symmetry; apply orb_false_r.
  - destruct (Predict f data); intros H; inversion H; subst;
      symmetry; apply orb_false_r.
  - destruct (PredictOne f sample); intros H; inversion H; subst;
      symmetry; apply orb_false_r.
  - destruct (Save f); intros H; inversion H; subst;
      symmetry; apply orb_false_r.
  - destruct (snd (PredictStream f events)); intros H; inversion H; subst;
      symmetry; apply orb_false_r.
Qed.

Lemma run_trained cs : forall f f' b,
  run f cs = Some (f', b) -> trained f' = trained f || b.
Proof.
  induction cs as [|c cs IH]; intros f f' b H; simpl in H.
  - inversion H; subst. symmetry; apply orb_false_r.
  - destruct (step f c) as [f1|] eqn:E1; [|discriminate].
    destruct (run f1 cs) as [[f2 b2]|] eqn:E2; [|discriminate].
    inversion H; subst.
    rewrite (IH _ _ _ E2), (step_trained _ _ _ E1).
    rewrite orb_assoc. reflexivity.
Qed.

(** ** Streaming *)

Lemma streamLoop_all_sent f : forall samples scores out,
  Forall2 (fun s v => PredictOne f s = Val v) samples scores ->
  streamLoop f (map (fun s => Received s Sent) samples ++ [Closed]) out =
  (out ++ map (fun sv => scoreRecord f (fst sv) (snd sv))
              (combine samples scores),
   Returned None).
Proof.
  intros samples scores out H; revert out.
  induction H as [|s v samples scores Hs _ IH]; intros out; simpl.
  - rewrite app_nil_r; reflexivity.
  - rewrite Hs. rewrite IH. rewrite <- app_assoc. reflexivity.
Qed.

(** C6.  On a trained forest, when the samples [s1 .. sn] arrive on the
    input channel, each record is taken by the consumer, the channel is then
    closed and the context is never cancelled, [PredictStream] returns a
    nil error after sending exactly [n] records, in input order; the i-th
    carries the score [PredictOne] returns for [si], the flag
    [score >= threshold] and the sample itself. *)
Theorem PredictStream_scores_in_input_order :
  forall (f : @IsolationForest Rand) (samples : list (list float64))
         (scores : list float64),
    trained f = true ->
    Forall2 (fun s v => PredictOne f s = Val v) samples scores ->
    let sent :=
      map (fun sv => {| Value := snd sv;
                        IsAnomaly := F64.geb (snd sv) (threshold f);
                        Features := fst sv |})
          (combine samples scores) in
    PredictStream f (map (fun s => Received s Sent) samples ++ [Closed])
      = (sent, Returned None) /\
    List.length sent = List.length samples /\
    map Value sent = scores /\
    map Features sent = samples.
Proof.
  intros f samples scores Ht H. simpl.
  unfold PredictStream. rewrite Ht. simpl.
  rewrite (streamLoop_all_sent f samples scores [] H). simpl.
  split; [reflexivity|].
  clear Ht. induction H as [|s v samples scores _ _ IH]; simpl.
  - auto.
  - destruct IH as (I1 & I2 & I3). rewrite I1, I2, I3. auto.
Qed.

(** ** Determinism *)

Lemma fold_configure opts : forall f c,
  nTrees f = n_trees c -> sampleSize f = sample_size c ->
  contamination f = contamination_fraction c -> rng f = rand_New (seed c) ->
  let f' := fold_left (fun f opt => applyOption opt f) opts f in
  let c' := fold_left configure opts c in
  nTrees f' = n_trees c' /\ sampleSize f' = sample_size c' /\
  contamination f' = contamination_fraction c' /\
  rng f' = rand_New (seed c').
Proof.
  induction opts as [|opt opts IH]; intros f c H1 H2 H3 H4; simpl; [auto|].
  apply IH; destruct opt; simpl; congruence.
Qed.

Lemma New_forestOf opts : New opts = forestOf (configOf opts).
Proof.
  rewrite New_unfold. unfold configOf, forestOf.
  match goal with |- context [fold_left _ opts ?f0] =>
    pose proof (fold_options_keeps opts f0) as K;
    pose proof (fold_configure opts f0 defaultConfig
                  eq_refl eq_refl eq_refl eq_refl) as C;
    destruct (fold_left (fun f opt => applyOption opt f) opts f0) end.
  simpl in *.
  destruct K as (K1 & K2 & K3 & K4 & K5).
  destruct C as (C1 & C2 & C3 & C4).
  unfold set_maxDepth; simpl. congruence.
Qed.

(** ** Persistence *)

Lemma Save_trained f : trained f = true -> Save f = Error noExportedFields.
Proof.
  intros Ht. unfold Save. rewrite Ht. reflexivity.
Qed.

(** C1.  [Save] on a trained forest never produces a blob: the gob encoder
    refuses the [trees] field, whose element type [iTree] has fields but no
    exported one, and [Save] returns that error.  So there is no
    [Load(Save(F))] to compare predictions with. *)
Theorem Save_refused_by_gob :
  forall f : @IsolationForest Rand,
    trained f = true ->
    Save f = Error noExportedFields /\
    forall blob, Save f <> Val blob.
Proof.
  intros f Ht. rewrite (Save_trained f Ht).
  split; [reflexivity | discriminate].
Qed.

Lemma keptAfter_field (x : field) f f' :
  trained f' = trained f -> maxDepth f' = maxDepth f -> rng f' = rng f ->
  (forall y, (position x < position y)%nat -> sameField y f f') ->
  keptAfter x f f'.
Proof. intros H1 H2 H3 H4. repeat split; assumption. Qed.

Ltac each_field y :=
  let Hy := fresh "Hy" in
  destruct y; simpl; intros Hy; first [reflexivity | exfalso; lia].

Ltac decode_steps :=
  repeat (cbn [decodeFields decodeField firstn position loadOrder];
          match goal with
          | E : ?t = (_, _, _) |- context [?t] => rewrite E
          end);
  cbn [decodeFields decodeField firstn position loadOrder]; reflexivity.

(** C4, as amended.  When [Load] fails it fails in the call
    [dec.Decode(&f.x)] of one field [x]: the calls for the fields before
    [x] returned nil, the forest is left as the failing call left it, and
    the trained flag, [max_depth], the generator and every field that comes
    after [x] in the order [n_trees], [sample_size], [contamination],
    [threshold], [avg_path_length], [trees] are what they were before the
    call, while the fields before [x] hold what was decoded into them. *)
Theorem Load_failure_keeps_later_fields :
  forall (f : @IsolationForest Rand) (blob : list Byte.byte) (e : error),
    snd (Load f blob) = Some e ->
    exists (x : field) (dec dec' : decoder) (g : @IsolationForest Rand),
      decodeFields (firstn (position x) loadOrder) (gob_NewDecoder blob) f
      = (dec, g, None) /\
      decodeField x dec g = (dec', fst (Load f blob), Some e) /\
      keptAfter x f (fst (Load f blob)) /\
      (forall y, (position y < position x)%nat ->
                 sameField y g (fst (Load f blob))).
Proof.
  intros f blob e. unfold Load.
  destruct (gob_Decode_int (gob_NewDecoder blob) (nTrees f))
    as [[d1 v1] [e1|]] eqn:E1.
  { simpl. intros H; inversion H; subst.
    exists nTreesField, (gob_NewDecoder blob), d1, f.
    split; [reflexivity|]. split; [decode_steps|].
    split; [apply keptAfter_field; try reflexivity; intros y; each_field y|].
    intros y; each_field y. }
  destruct (gob_Decode_int d1 (sampleSize (set_nTrees v1 f)))
    as [[d2 v2] [e2|]] eqn:E2.
  { simpl. intros H; inversion H; subst.
    exists sampleSizeField, d1, d2, (set_nTrees v1 f).
    split; [decode_steps|].
    split; [decode_steps|].
    split; [apply keptAfter_field; try reflexivity; intros y; each_field y|].
    intros y; each_field y. }
  destruct (gob_Decode_float64 d2
              (contamination (set_sampleSize v2 (set_nTrees v1 f))))
    as [[d3 v3] [e3|]] eqn:E3.
  { simpl. intros H; inversion H; subst.
    exists contaminationField, d2, d3, (set_sampleSize v2 (set_nTrees v1 f)).
    split; [decode_steps|].
    split; [decode_steps|].
    split; [apply keptAfter_field; try reflexivity; intros y; each_field y|].
    intros y; each_field y. }
  destruct (gob_Decode_float64 d3
              (threshold (set_contamination v3
                 (set_sampleSize v2 (set_nTrees v1 f)))))
    as [[d4 v4] [e4|]] eqn:E4.
  { simpl. intros H; inversion H; subst.
    exists thresholdField, d3, d4,
      (set_contamination v3 (set_sampleSize v2 (set_nTrees v1 f))).
    split; [decode_steps|].
    split; [decode_steps|].
    split; [apply keptAfter_field; try reflexivity; intros y; each_field y|].
    intros y; each_field y. }
  destruct (gob_Decode_float64 d4
              (avgPathLength (set_threshold v4 (set_contamination v3
                 (set_sampleSize v2 (set_nTrees v1 f))))))
    as [[d5 v5] [e5|]] eqn:E5.
  { simpl. intros H; inversion H; subst.
    exists avgPathLengthField, d4, d5,
      (set_threshold v4 (set_contamination v3
         (set_sampleSize v2 (set_nTrees v1 f)))).
    split; [decode_steps|].
    split; [decode_steps|].
    split; [apply keptAfter_field; try reflexivity; intros y; each_field y|].
    intros y; each_field y. }
  destruct (gob_Decode_trees d5
              (trees (set_avgPathLength v5 (set_threshold v4
                 (set_contamination v3
                    (set_sampleSize v2 (set_nTrees v1 f)))))))
    as [[d6 v6] [e6|]] eqn:E6.
  { simpl. intros H; inversion H; subst.
    exists treesField, d5, d6,
      (set_avgPathLength v5 (set_threshold v4 (set_contamination v3
         (set_sampleSize v2 (set_nTrees v1 f))))).
    split; [decode_steps|].
    split; [decode_steps|].
    split; [apply keptAfter_field; try reflexivity; intros y; each_field y|].
    intros y; each_field y. }
  simpl. discriminate.
Qed.

(** ** Tree construction *)

(** The equation of [buildNode] as the source writes it. *)
Lemma buildNode_unfold f data nFeatures depth :
  buildNode f data nFeatures depth =
  let n := len data in
  if (depth >=? maxDepth f) || (n <=? 1) then Val (leaf n, rng f)
  else if nFeatures <=? 0 then Panic IntnInvalidArgument
  else
    let '(feature, r) := rand_Intn (rng f) nFeatures in
    row0 <- index data 0 ;;
    x0 <- index row0 feature ;;
    ' (minVal, maxVal) <- minMax (tl data) feature x0 x0 ;;
    if F64.eqb minVal maxVal then Val (leaf n, r)
    else
      let '(u, r) := rand_Float64 r in
      let splitValue := F64.add minVal (F64.mul u (F64.sub maxVal minVal)) in
      ' (leftData, rightData) <- partitionRows data feature splitValue ;;
      ' (l, r) <- buildNode (set_rng r f) leftData nFeatures (depth + 1) ;;
      ' (rt, r) <- buildNode (set_rng r f) rightData nFeatures (depth + 1) ;;
      Val (Node feature splitValue (Some l) (Some rt) 0, r).
Proof.
  unfold buildNode. cbv zeta.
  destruct (depth >=? maxDepth f) eqn:E.
  - rewrite Z.geb_leb in E. apply Z.leb_le in E.
    replace (Z.to_nat (maxDepth f - depth)) with O by lia. reflexivity.
  - rewrite Z.geb_leb in E. apply Z.leb_gt in E.
    replace (Z.to_nat (maxDepth f - depth))
      with (S (Z.to_nat (maxDepth f - (depth + 1)))) by lia.
    reflexivity.
Qed.

(** ** The depth bound *)

Lemma Fit_maxDepth f data f' : Fit f data = Val f' -> maxDepth f' = maxDepth f.
Proof.
  intros H. apply Fit_Val in H.
  destruct H as (ts & f1 & sS & _ & _ & _ & Hb & Hyes & Hno).
  pose proof (buildTrees_keeps _ _ _ _ _ _ _ _ Hb)
    as (_ & _ & _ & _ & Hd & _).
  destruct (F64.gtb (contamination f) F64.zero).
  - destruct (Hyes eq_refl) as (scores & t & _ & _ & ->). exact Hd.
  - rewrite (Hno eq_refl). exact Hd.
Qed.

Lemma to_int_of_int k : 0 <= k <= 62 -> to_int (F64.of_int k) = k.
Proof. revert k. each_upto62. Qed.

(** C3, as amended.  After a successful [Fit], [max_depth] is the value
    [New] computed from the configured sample size, whatever the number of
    rows of the dataset: [Fit] does not touch it.  For a configured sample
    size [2^k] that value is [k], its base-2 logarithm. *)
Theorem maxDepth_from_configured_sampleSize :
  forall (ML : MathLaws M) (opts : list Option)
         (data : list (list float64)) (f' : @IsolationForest Rand),
    Fit (New opts) data = Val f' ->
    maxDepth f' = maxDepth (New opts) /\
    maxDepth f' = depthOf (sample_size (configOf opts)) /\
    forall k, 0 <= k <= 62 -> sample_size (configOf opts) = 2 ^ k ->
              maxDepth f' = k.
Proof.
  intros ML opts data f' H.
  apply Fit_maxDepth in H. rewrite H, New_forestOf. simpl.
  repeat split. intros k Hk ->. unfold depthOf.
  rewrite Log2_pow2, Ceil_int by exact Hk. apply to_int_of_int; exact Hk.
Qed.

(** ** The percentile calibrator *)

Lemma sift_perm x l : Permutation (sift x l) (x :: l).
Proof.
  induction l as [|y ys IH]; simpl; [reflexivity|].
  destruct (F64.ltb x y); [|reflexivity].
  rewrite IH. apply perm_swap.
Qed.

Lemma sortLoop_perm rest : forall revPrefix,
  Permutation (sortLoop revPrefix rest) (revPrefix ++ rest).
Proof.
  induction rest as [|x rest IH]; intros revPrefix; simpl.
  - rewrite app_nil_r. symmetry. apply Permutation_rev.
  - rewrite IH, sift_perm. apply Permutation_middle.
Qed.

Lemma insertionSort_perm l : Permutation (insertionSort l) l.
Proof. unfold insertionSort. apply sortLoop_perm. Qed.

Lemma SFcompare_antisym x y :
  SFcompare y x = option_map CompOpp (SFcompare x y).
Proof.
  destruct x as [sx|sx| |sx mx ex], y as [sy|sy| |sy my ey]; simpl;
    try reflexivity;
    try (destruct sx; reflexivity); try (destruct sy; reflexivity);
    try (destruct sx, sy; reflexivity).
  assert (Hm : Pos.compare_cont Eq my mx = CompOpp (Pos.compare_cont Eq mx my))
    by (rewrite Pos.compare_cont_antisym; reflexivity).
  destruct sx, sy; try reflexivity;
    rewrite (Z.compare_antisym ex ey);
    destruct (ex ?= ey) eqn:E; simpl; try reflexivity;
    rewrite Hm; try rewrite CompOpp_involutive; reflexivity.
Qed.

Lemma ltb_leb x y : F64.ltb x y = true -> F64.leb x y = true.
Proof.
  unfold F64.ltb, F64.leb, SFltb, SFleb.
  destruct (SFcompare x y) as [[| |]|]; auto.
Qed.

Lemma SFcompare_None x y :
  SFcompare x y = None -> F64.is_nan x = true \/ F64.is_nan y = true.
Proof.
  destruct x as [sx|sx| |sx mx ex], y as [sy|sy| |sy my ey]; simpl;
    auto; discriminate.
Qed.

Lemma not_ltb_leb x y :
  F64.is_nan x = false -> F64.is_nan y = false ->
  F64.ltb x y = false -> F64.leb y x = true.
Proof.
  unfold F64.ltb, F64.leb, SFltb, SFleb. intros Hx Hy.
  rewrite (SFcompare_antisym x y).
  destruct (SFcompare x y) as [[| |]|] eqn:E; simpl; auto.
  apply SFcompare_None in E. destruct E; congruence.
Qed.

Lemma sift_descending x l :
  F64.is_nan x = false -> noNaN l ->
  Sorted (fun a b => F64.leb b a = true) l ->
  Sorted (fun a b => F64.leb b a = true) (sift x l).
Proof.
  intros Hx Hn Hs. induction Hs as [|y ys Hys IH Hhd]; simpl.
  - repeat constructor.
  - inversion Hn as [|y' ys' Hy Hn']; subst.
    destruct (F64.ltb x y) eqn:E.
    + constructor; [apply IH; exact Hn'|].
      destruct ys as [|z zs]; simpl.
      * constructor. apply ltb_leb; exact E.
      * destruct (F64.ltb x z); constructor.
        -- inversion Hhd; assumption.
        -- apply ltb_leb; exact E.
    + constructor; [constructor; assumption|].
      constructor. apply not_ltb_leb; assumption.
Qed.

Lemma sift_noNaN x l : F64.is_nan x = false -> noNaN l -> noNaN (sift x l).
Proof.
  intros Hx Hn. unfold noNaN.
  eapply Permutation_Forall; [symmetry; apply sift_perm|].
  constructor; assumption.
Qed.

Lemma Sorted_snoc {A : Type} (Rel : A -> A -> Prop) l a :
  Sorted Rel l ->
  match rev l with [] => True | b :: _ => Rel b a end ->
  Sorted Rel (l ++ [a]).
Proof.
  intros Hs. induction Hs as [|y ys Hys IH Hhd]; simpl; intros Hl.
  - repeat constructor.
  - constructor.
    + apply IH. destruct (rev ys) as [|b bs]; [exact I|]. exact Hl.
    + destruct ys as [|z zs]; simpl.
      * constructor. exact Hl.
      * constructor. inversion Hhd; assumption.
Qed.

Lemma descending_rev l :
  Sorted (fun a b => F64.leb b a = true) l -> ascending (rev l).
Proof.
  intros Hs. induction Hs as [|y ys Hys IH Hhd]; simpl; [constructor|].
  apply Sorted_snoc; [exact IH|].
  rewrite rev_involutive. destruct ys as [|z zs]; [exact I|].
  inversion Hhd; assumption.
Qed.

Lemma sortLoop_ascending rest : forall revPrefix,
  noNaN revPrefix -> noNaN rest ->
  Sorted (fun a b => F64.leb b a = true) revPrefix ->
  ascending (sortLoop revPrefix rest).
Proof.
  induction rest as [|x rest IH]; intros revPrefix Hp Hr Hs; simpl.
  - apply descending_rev; exact Hs.
  - inversion Hr; subst.
    apply IH; [apply sift_noNaN | | apply sift_descending]; assumption.
Qed.

Lemma insertionSort_ascending l : noNaN l -> ascending (insertionSort l).
Proof.
  intros Hl. apply sortLoop_ascending; [constructor | exact Hl | constructor].
Qed.

Lemma predict_length f data scores :
  predict f data = Val scores -> List.length scores = List.length data.
Proof.
  intros H. apply predict_Forall2 in H.
  symmetry. eapply Forall2_length; exact H.
Qed.

Lemma predict_set_threshold t f : forall data,
  predict (set_threshold t f) data = predict f data.
Proof.
  induction data as [|x data IH]; simpl; [reflexivity|].
  rewrite IH. reflexivity.
Qed.

(** The calibration index of the default contamination is the integer
    part of [(n-1) * 0.9]. *)
Lemma percentileIndex_default_floor n :
  1 <= n <= 2 ^ 46 ->
  percentileIndex n (percentileOf (F64.dec 1 1)) = 9 * (n - 1) / 10.
Proof.
  intros [Hn1 Hn2]. unfold percentileIndex, to_int, F64.to_int.
  rewrite percentile_default_floor by lia.
  assert (Hq : 0 <= 9 * (n - 1) / 10 <= n - 1).
  { split; [apply Z.div_pos; lia|].
    apply Z.div_le_upper_bound; lia. }
  change (2 ^ 46) with 70368744177664 in Hn2.
  replace ((F64.min_int64 <=? 9 * (n - 1) / 10) &&
           (9 * (n - 1) / 10 <=? F64.max_int64)) with true; [reflexivity|].
  symmetry. apply andb_true_iff.
  unfold F64.min_int64, F64.max_int64. split; apply Z.leb_le; lia.
Qed.

(** C5, as amended.  A successful [Fit] with a positive contamination [c]
    sets the threshold to the element of index [int(float64(n-1) * p / 100)],
    with [p = 100*(1-c)] and every operation rounded to float64, of the
    sorted scores of the whole training dataset, as the fitted forest scores
    it; the sorted scores are a permutation of the scores, in ascending
    order when no score is NaN.  That index is not always the integer part
    of [(n-1)(1-c)]; for the default contamination 0.1 and at most [2^46]
    samples it is exactly the integer part of [9 * (n - 1) / 10].  With a
    contamination that is not positive the threshold is left as it was, and
    it is 0.5 in a forest just built by [New]. *)
Theorem Fit_calibrates_threshold :
  forall (f : @IsolationForest Rand) (data : list (list float64))
         (f' : @IsolationForest Rand),
    Fit f data = Val f' ->
    (F64.gtb (contamination f) F64.zero = true ->
     exists scores : list float64,
       Predict f' data = Val scores /\
       Permutation (insertionSort scores) scores /\
       (noNaN scores -> ascending (insertionSort scores)) /\
       index (insertionSort scores)
             (percentileIndex (len data) (percentileOf (contamination f)))
       = Val (threshold f')) /\
    (F64.gtb (contamination f) F64.zero = false ->
     threshold f' = threshold f) /\
    (forall opts, threshold (New opts) = F64.dec 5 1) /\
    (contamination f = F64.dec 1 1 -> len data <= 2 ^ 46 ->
     percentileIndex (len data) (percentileOf (contamination f))
     = 9 * (len data - 1) / 10).
Proof.
  intros f data f' H.
  pose proof (Fit_trained _ _ _ H) as Ht.
  apply Fit_Val in H.
  destruct H as (ts & f1 & sS & Hd & _ & _ & Hb & Hyes & Hno).
  pose proof (buildTrees_keeps _ _ _ _ _ _ _ _ Hb)
    as (_ & _ & _ & Hth & _).
  split; [|split; [|split]]; cycle 3.
  - intros Hc Hlen. rewrite Hc.
    apply percentileIndex_default_floor. split; [|exact Hlen].
    destruct data; [congruence|]. unfold len. simpl List.length. lia.
  - intros Hg. destruct (Hyes Hg) as (scores & t & Hp & Hq & ->).
    exists scores. unfold Predict. rewrite Ht. simpl negb. cbv iota.
    rewrite predict_set_threshold.
    split; [exact Hp|]. split; [apply insertionSort_perm|].
    split; [apply insertionSort_ascending|].
    unfold percentile in Hq.
    pose proof (predict_length _ _ _ Hp) as HL.
    destruct scores as [|s0 scores].
    + destruct data; [congruence | discriminate].
    + simpl threshold.
      replace (len data) with (len (insertionSort (s0 :: scores))).
      * exact Hq.
      * unfold len. f_equal. rewrite <- HL.
        apply Permutation_length, insertionSort_perm.
  - intros Hg. rewrite (Hno Hg). exact Hth.
  - exact New_threshold.
Qed.

(** ** Degenerate forests: a NaN score *)

Lemma two_is_not_one : F64.eqb F64.two F64.one = false.
Proof. reflexivity. Qed.

Lemma zero_over_zero y :
  F64.div (F64.neg (F64.div F64.zero y)) F64.zero = F64.nan.
Proof. destruct y as [s|s| |s m e]; try destruct s; reflexivity. Qed.

Lemma sortLoop_NaN n : forall revPrefix,
  sortLoop revPrefix (repeat F64.nan n) =
  rev revPrefix ++ repeat F64.nan n.
Proof.
  induction n as [|n IH]; intros revPrefix; simpl.
  - rewrite app_nil_r; reflexivity.
  - rewrite IH. destruct revPrefix as [|y ys]; simpl.
    + reflexivity.
    + rewrite <- app_assoc. reflexivity.
Qed.

Lemma insertionSort_NaN n :
  insertionSort (repeat F64.nan n) = repeat F64.nan n.
Proof. unfold insertionSort. rewrite sortLoop_NaN. reflexivity. Qed.

Lemma index_repeat {A : Type} (a : A) n i :
  0 <= i < Z.of_nat n -> index (repeat a n) i = Val a.
Proof.
  intros Hi. unfold index.
  destruct (i <? 0) eqn:E; [apply Z.ltb_lt in E; lia|].
  destruct (nth_error (repeat a n) (Z.to_nat i)) eqn:En.
  - apply nth_error_In, repeat_spec in En. subst; reflexivity.
  - apply nth_error_None in En. rewrite repeat_length in En. lia.
Qed.

Lemma predict_constant f v : forall data,
  (forall x, predictOne f x = Val v) ->
  predict f data = Val (repeat v (List.length data)).
Proof.
  intros data H; induction data as [|x data IH]; simpl; [reflexivity|].
  rewrite H, IH. reflexivity.
Qed.

Section WithMathLaws.

Context {ML : MathLaws M}.

Lemma predictOne_no_trees f x :
  trees f = [] -> predictOne f x = Val F64.nan.
Proof.
  intros Ht. unfold predictOne. rewrite Ht. simpl.
  rewrite Pow_NaN by exact two_is_not_one. reflexivity.
Qed.

Lemma totalPathLength_unit_leaves x n :
  totalPathLength x (repeat (Some {| root := Some (leaf 1) |}) n) F64.zero
  = Val F64.zero.
Proof.
  induction n as [|n IH]; simpl; [reflexivity|].
  unfold averagePathLength.
  change (F64.leb (F64.of_int 1) F64.one) with true. simpl.
  exact IH.
Qed.

Lemma predictOne_unit_leaves f x n :
  trees f = repeat (Some {| root := Some (leaf 1) |}) n ->
  avgPathLength f = F64.zero ->
  predictOne f x = Val F64.nan.
Proof.
  intros Ht Ha. unfold predictOne. rewrite Ht, Ha.
  rewrite totalPathLength_unit_leaves. cbv beta iota zeta delta [bind].
  rewrite zero_over_zero.
  rewrite Pow_NaN by exact two_is_not_one. reflexivity.
Qed.

(** [Fit] on a forest without trees, as far as the calibration. *)
Lemma Fit_no_trees f data :
  data <> [] -> nTrees f = 0 ->
  let n := len data in
  let f2 :=
    set_trained true
      (set_avgPathLength
         (averagePathLength
            (F64.of_int (if sampleSize f >? n then n else sampleSize f)))
         (set_trees [] f)) in
  Fit f data =
  if F64.gtb (contamination f) F64.zero then
    t <- index (repeat F64.nan (List.length data))
               (percentileIndex n (percentileOf (contamination f))) ;;
    Val (set_threshold t f2)
  else Val f2.
Proof.
  intros Hd Hn. destruct data as [|row0 rest]; [congruence|].
  unfold Fit. rewrite Hn.
  cbn [Z.to_nat buildTrees bind Z.ltb Z.compare contamination
       set_trained set_avgPathLength set_trees].
  destruct (F64.gtb (contamination f) F64.zero); [|reflexivity].
  match goal with |- context [predict ?g (row0 :: rest)] =>
    rewrite (predict_constant g F64.nan (row0 :: rest))
      by (intros x; apply predictOne_no_trees; reflexivity) end.
  cbn [bind]. unfold percentile.
  rewrite insertionSort_NaN. unfold len. rewrite repeat_length.
  reflexivity.
Qed.

Section WithRandLaws.

Context {RL : RandLaws R}.

Lemma Perm_one r : fst (rand_Perm r 1) = [0].
Proof.
  pose proof (Perm_length r 1 ltac:(lia)) as HL.
  pose proof (Perm_range r 1) as HR.
  destruct (fst (rand_Perm r 1)) as [|i [|j l]]; unfold len in HL;
    simpl in HL; try lia.
  assert (0 <= i < 1) by (apply HR; left; reflexivity).
  f_equal. lia.
Qed.

Lemma buildNode_rem_single remaining r row nFeatures :
  buildNode_rem remaining r [row] nFeatures = Val (leaf 1, r).
Proof. destruct remaining; reflexivity. Qed.

Lemma buildTrees_single count : forall f row nFeatures,
  exists f',
    buildTrees count f [row] 1 1 nFeatures =
    Val (repeat (Some {| root := Some (leaf 1) |}) count, f').
Proof.
  induction count as [|c IH]; intros f row nFeatures; simpl.
  - exists f; reflexivity.
  - pose proof (Perm_one (rng f)) as HP.
    destruct (rand_Perm (rng f) 1) as [perm r]. simpl in HP. subst perm.
    cbn [slice_to bind gather index]. simpl.
    unfold buildTree, buildNode. rewrite buildNode_rem_single.
    cbn [bind].
    destruct (IH (set_rng (rng (set_rng r f)) (set_rng r f)) row nFeatures)
      as [f' Hf'].
    rewrite Hf'. exists f'. reflexivity.
Qed.

(** [Fit] on a single row: every tree is a leaf of size 1 and the
    normalisation constant is [c(1) = 0]. *)
Lemma Fit_single_row f row :
  0 <= nTrees f -> 1 <= sampleSize f ->
  contamination f = F64.dec 1 1 ->
  exists f',
    Fit f [row] = Val f' /\
    trees f' = repeat (Some {| root := Some (leaf 1) |})
                      (Z.to_nat (nTrees f)) /\
    avgPathLength f' = F64.zero /\
    trained f' = true /\
    threshold f' = F64.nan /\
    maxDepth f' = maxDepth f.
Proof.
  intros Hn Hs Hc. unfold Fit.
  destruct (nTrees f <? 0) eqn:En; [apply Z.ltb_lt in En; lia|].
  change (len [row]) with 1.
  replace (if sampleSize f >? 1 then 1 else sampleSize f) with 1
    by (destruct (sampleSize f >? 1) eqn:E; [reflexivity|];
        rewrite Z.gtb_ltb in E; apply Z.ltb_ge in E; lia).
  destruct (buildTrees_single (Z.to_nat (nTrees f)) f row (len row))
    as [f1 Hf1].
  rewrite Hf1. cbn [bind].
  pose proof (buildTrees_keeps _ _ _ _ _ _ _ _ Hf1)
    as (_ & _ & Hc1 & _ & Hd1 & _).
  cbn [contamination set_trained set_avgPathLength set_trees].
  rewrite Hc1, Hc.
  change (F64.gtb (F64.dec 1 1) F64.zero) with true. cbv iota.
  match goal with |- context [predict ?g [row]] =>
    rewrite (predict_constant g F64.nan [row])
      by (intros x;
          apply (predictOne_unit_leaves g x (Z.to_nat (nTrees f)));
          reflexivity) end.
  cbn [bind]. eexists. split; [reflexivity|].
  repeat split. exact Hd1.
Qed.

(** C2 at the failing input.  A forest with the default contamination, at
    least one configured sample per tree and any number of trees, fitted on
    a dataset of one row (so that the effective subsample size is 1 and
    [c(1) = 0]), is trained and gives every sample the score NaN, which is
    not in the interval [0,1]. *)
Theorem single_row_scores_NaN :
  forall (f : @IsolationForest Rand) (row : list float64),
    0 <= nTrees f -> 1 <= sampleSize f ->
    contamination f = F64.dec 1 1 ->
    exists f' : @IsolationForest Rand,
      Fit f [row] = Val f' /\
      trained f' = true /\
      forall x, PredictOne f' x = Val F64.nan /\
                inUnitInterval F64.nan = false.
Proof.
  intros f row Hn Hs Hc.
  destruct (Fit_single_row f row Hn Hs Hc)
    as (f' & HF & Ht & Ha & Htr & _).
  exists f'. repeat split; try assumption.
  unfold PredictOne. rewrite Htr. simpl.
  exact (predictOne_unit_leaves f' x _ Ht Ha).
Qed.

End WithRandLaws.

Lemma percentileIndex_default n :
  1 <= n <= 2 ^ 63 ->
  0 <= percentileIndex n (percentileOf (F64.dec 1 1)) < n.
Proof.
  intros Hn. destruct (Z.eq_dec n 1) as [->|Hne].
  - vm_compute. split; [discriminate | reflexivity].
  - destruct (percentile_default_value n ltac:(lia))
      as (z & t & Hz & Ht & Hr).
    unfold percentileIndex, to_int, F64.to_int. rewrite Hz, Ht.
    replace ((F64.min_int64 <=? t) && (t <=? F64.max_int64)) with true.
    + lia.
    + symmetry. apply andb_true_iff.
      unfold F64.min_int64, F64.max_int64.
      split; apply Z.leb_le; lia.
Qed.

(** C10.  [New] stores whatever number of trees the last [WithTrees]
    option gives, zero and negative numbers included.  A forest with zero
    trees and the default contamination (or a contamination that is not
    positive) is fitted on every non-empty dataset: the call returns a nil
    error, the forest is marked trained, its tree slice is empty, and
    [PredictOne] then returns NaN, the quotient of a zero total path length
    by zero trees, for every sample. *)
Theorem zero_trees_score_NaN :
  forall (opts : list Option) (data : list (list float64)),
    (forall n, nTrees (New (opts ++ [WithTrees n])) = n) /\
    (data <> [] -> len data <= 2 ^ 63 ->
     let f := New (opts ++ [WithTrees 0]) in
     contamination f = F64.dec 1 1 \/
     F64.gtb (contamination f) F64.zero = false ->
     exists f' : @IsolationForest Rand,
       Fit f data = Val f' /\
       trained f' = true /\
       trees f' = [] /\
       forall x, PredictOne f' x = Val F64.nan /\
                 inUnitInterval F64.nan = false).
Proof.
  intros opts data.
  assert (HN : forall n, nTrees (New (opts ++ [WithTrees n])) = n).
  { intros n. rewrite New_unfold. rewrite fold_left_app. reflexivity. }
  split; [exact HN|].
  intros Hd Hlen f Hc.
  assert (Hpos : 1 <= len data).
  { destruct data; [congruence|]. unfold len. simpl List.length. lia. }
  rewrite (Fit_no_trees f data Hd (HN 0)).
  destruct (F64.gtb (contamination f) F64.zero) eqn:Hg.
  - destruct Hc as [Hc|Hc]; [|discriminate].
    rewrite Hc. rewrite index_repeat
      by (apply percentileIndex_default; split; assumption).
    cbn [bind]. eexists. split; [reflexivity|].
    repeat split. unfold PredictOne. simpl.
    apply predictOne_no_trees. reflexivity.
  - eexists. split; [reflexivity|].
    repeat split. unfold PredictOne. simpl.
    apply predictOne_no_trees. reflexivity.
Qed.

End WithMathLaws.

End Properties.

(** ** The reference generator: [Intn] *)

#[export] Instance RefRand_Intn_laws : IntnLaws RefRand.rand.
Proof.
  constructor. intros r n Hn. simpl. unfold RefRand.Intn. simpl.
  apply Z.mod_pos_bound. exact Hn.
Qed.

(** ** Tree construction *)

Section Trees.

Context {M : GoMath} {Rand : Type} {R : GoRand Rand}.
Context {W : GobWire} {D : GobDecoder}.

Implicit Types f g : @IsolationForest Rand.

Lemma index_Val {A : Type} (s : list A) i :
  0 <= i < len s -> exists a, index s i = Val a /\ In a s.
Proof.
  intros Hi. unfold index.
  destruct (i <? 0) eqn:E; [apply Z.ltb_lt in E; lia|].
  destruct (nth_error s (Z.to_nat i)) as [a|] eqn:En.
  - exists a. split; [reflexivity|]. eapply nth_error_In; exact En.
  - apply nth_error_None in En. unfold len in Hi. lia.
Qed.

Lemma index_inv {A : Type} (s : list A) i a :
  index s i = Val a -> 0 <= i < len s /\ In a s.
Proof.
  unfold index. destruct (i <? 0) eqn:E; [discriminate|].
  apply Z.ltb_ge in E.
  destruct (nth_error s (Z.to_nat i)) as [b|] eqn:En; [|discriminate].
  intros H; inversion H; subst. split.
  - assert (Z.to_nat i < List.length s)%nat
      by (apply nth_error_Some; congruence).
    unfold len. lia.
  - eapply nth_error_In; exact En.
Qed.

Lemma partitionRows_perm rows feature v : forall l r,
  partitionRows rows feature v = Val (l, r) -> Permutation (l ++ r) rows.
Proof.
  induction rows as [|row rows IH]; intros l r H; simpl in H.
  - inversion H; subst. constructor.
  - inv_bind H. inv_bind H. destruct a0 as [l0 r0].
    specialize (IH _ _ Ha0).
    destruct (F64.ltb a v); inversion H; subst.
    + simpl. constructor. exact IH.
    + apply Permutation_sym. apply Permutation_cons_app.
      apply Permutation_sym. exact IH.
Qed.

Lemma partitionRows_len rows feature v l r :
  partitionRows rows feature v = Val (l, r) -> len l + len r = len rows.
Proof.
  intros H. apply partitionRows_perm, Permutation_length in H.
  rewrite length_app in H. unfold len. lia.
Qed.

Lemma buildNode_rem_S remaining r data nFeatures :
  buildNode_rem (S remaining) r data nFeatures =
  let n := len data in
  if n <=? 1 then Val (leaf n, r)
  else if nFeatures <=? 0 then Panic IntnInvalidArgument
  else
    let '(feature, r) := rand_Intn r nFeatures in
    row0 <- index data 0 ;;
    x0 <- index row0 feature ;;
    ' (minVal, maxVal) <- minMax (tl data) feature x0 x0 ;;
    if F64.eqb minVal maxVal then Val (leaf n, r)
    else
      let '(u, r) := rand_Float64 r in
      let splitValue :=
        F64.add minVal (F64.mul u (F64.sub maxVal minVal)) in
      ' (leftData, rightData) <- partitionRows data feature splitValue ;;
      ' (l, r) <- buildNode_rem remaining r leftData nFeatures ;;
      ' (rt, r) <- buildNode_rem remaining r rightData nFeatures ;;
      Val (Node feature splitValue (Some l) (Some rt) 0, r).
Proof. reflexivity. Qed.

(** What a call of [buildNode] that splits went through. *)
Lemma buildNode_rem_split remaining r data nFeatures n r' :
  buildNode_rem (S remaining) r data nFeatures = Val (n, r') ->
  n = leaf (len data) \/
  exists v leftData rightData l rt r1 r2,
    1 < len data /\ 0 < nFeatures /\
    partitionRows data (fst (rand_Intn r nFeatures)) v
      = Val (leftData, rightData) /\
    buildNode_rem remaining r1 leftData nFeatures = Val (l, r2) /\
    buildNode_rem remaining r2 rightData nFeatures = Val (rt, r') /\
    n = Node (fst (rand_Intn r nFeatures)) v (Some l) (Some rt) 0.
Proof.
  rewrite buildNode_rem_S. cbv zeta.
  destruct (len data <=? 1) eqn:E1.
  { intros H; inversion H; subst. left; reflexivity. }
  destruct (nFeatures <=? 0) eqn:E2; [discriminate|].
  apply Z.leb_gt in E1. apply Z.leb_gt in E2.
  destruct (rand_Intn r nFeatures) as [feature r0]. simpl fst.
  intros H. inv_bind H. inv_bind H. inv_bind H.
  destruct a1 as [minVal maxVal].
  destruct (F64.eqb minVal maxVal).
  { inversion H; subst. left; reflexivity. }
  destruct (rand_Float64 r0) as [u r1].
  inv_bind H. destruct a1 as [leftData rightData].
  inv_bind H. destruct a1 as [l r2].
  inv_bind H. destruct a1 as [rt r3].
  inversion H; subst. right.
  exists (F64.add minVal (F64.mul u (F64.sub maxVal minVal))),
         leftData, rightData, l, rt, r1, r2.
  repeat split; try assumption; try lia.
Qed.

Lemma buildNode_rem_leafTotal remaining : forall r data nFeatures n r',
  buildNode_rem remaining r data nFeatures = Val (n, r') ->
  leafTotal n = len data.
Proof.
  induction remaining as [|k IH]; intros r data nF n r' H.
  - simpl in H. inversion H; subst. reflexivity.
  - apply buildNode_rem_split in H.
    destruct H as [->|(v & lD & rD & l & rt & r1 & r2 & _ & _ & HP & HL & HR & ->)].
    + reflexivity.
    + simpl. rewrite (IH _ _ _ _ _ HL), (IH _ _ _ _ _ HR).
      exact (partitionRows_len _ _ _ _ _ HP).
Qed.

Lemma buildNode_rem_height remaining : forall r data nFeatures n r',
  buildNode_rem remaining r data nFeatures = Val (n, r') ->
  0 <= height n <= Z.of_nat remaining.
Proof.
  induction remaining as [|k IH]; intros r data nF n r' H.
  - simpl in H. inversion H; subst. simpl. lia.
  - apply buildNode_rem_split in H.
    destruct H as [->|(v & lD & rD & l & rt & r1 & r2 & _ & _ & HP & HL & HR & ->)].
    + simpl. lia.
    + apply IH in HL. apply IH in HR. cbn [height].
      rewrite Nat2Z.inj_succ. lia.
Qed.

(** C3's bound is on the number of levels: below a node with at most one
    row nothing is split. *)
Lemma buildNode_rem_small remaining r data nFeatures :
  len data <= 1 ->
  buildNode_rem remaining r data nFeatures = Val (leaf (len data), r).
Proof.
  intros H. destruct remaining; [reflexivity|].
  rewrite buildNode_rem_S. cbv zeta.
  replace (len data <=? 1) with true by (symmetry; apply Z.leb_le; exact H).
  reflexivity.
Qed.

(** X7.  The leaves of a tree hold all the rows it was built from, each
    once: the [size] fields of the leaves add up to [len(data)]. *)
Theorem buildNode_leaf_sizes_add_up :
  forall (f : @IsolationForest Rand) (data : list (list float64))
         (nFeatures depth : Z) (n : node) (r : Rand),
    buildNode f data nFeatures depth = Val (n, r) ->
    leafTotal n = len data.
Proof.
  intros f data nF depth n r H. unfold buildNode in H.
  exact (buildNode_rem_leafTotal _ _ _ _ _ _ H).
Qed.

(** X8.  No path of the tree [buildNode] returns at depth [depth] is longer
    than [f.maxDepth - depth] edges; at or below [f.maxDepth], and for at
    most one row, the tree is a single leaf of size [len(data)]. *)
Theorem buildNode_depth_bound :
  forall (f : @IsolationForest Rand) (data : list (list float64))
         (nFeatures depth : Z),
    (forall n r, buildNode f data nFeatures depth = Val (n, r) ->
                 0 <= height n <= Z.max 0 (maxDepth f - depth)) /\
    (maxDepth f <= depth \/ len data <= 1 ->
     buildNode f data nFeatures depth = Val (leaf (len data), rng f)).
Proof.
  intros f data nF depth. split.
  - intros n r H. unfold buildNode in H.
    apply buildNode_rem_height in H. lia.
  - intros [H|H]; unfold buildNode.
    + replace (Z.to_nat (maxDepth f - depth)) with O by lia. reflexivity.
    + apply buildNode_rem_small. exact H.
Qed.

Section WithIntnLaws.

Context {IL : IntnLaws R}.

Lemma buildNode_rem_splits remaining : forall r data nFeatures n r',
  buildNode_rem remaining r data nFeatures = Val (n, r') ->
  splitsBelow nFeatures n = true.
Proof.
  induction remaining as [|k IH]; intros r data nF n r' H.
  - simpl in H. inversion H; subst. reflexivity.
  - apply buildNode_rem_split in H.
    destruct H as [->|(v & lD & rD & l & rt & r1 & r2 & _ & HF & HP & HL & HR & ->)].
    + reflexivity.
    + simpl. rewrite (IH _ _ _ _ _ HL), (IH _ _ _ _ _ HR).
      pose proof (Intn_range r nF HF) as [I1 I2].
      apply Z.leb_le in I1. apply Z.ltb_lt in I2. rewrite I1, I2.
      reflexivity.
Qed.

End WithIntnLaws.

Lemma pathLength_node_Val sample nFeatures :
  nFeatures <= len sample ->
  forall n d, splitsBelow nFeatures n = true ->
              exists v, pathLength_node sample n d = Val v.
Proof.
  intros Hs. fix IHn 1. intros [ft sv [l|] [r|] sz] d H; simpl in H;
    try discriminate.
  - apply andb_true_iff in H. destruct H as [H Hr].
    apply andb_true_iff in H. destruct H as [H Hl].
    apply andb_true_iff in H. destruct H as [H1 H2].
    apply Z.leb_le in H1. apply Z.ltb_lt in H2.
    destruct (index_Val sample ft ltac:(lia)) as (x & Hx & _).
    simpl. rewrite Hx. simpl.
    destruct (F64.ltb x sv); apply IHn; assumption.
  - simpl. eexists; reflexivity.
Qed.

(** ** The trees of a fitted forest *)

Lemma slice_to_inv {A : Type} (s : list A) high l :
  slice_to s high = Val l ->
  0 <= high <= len s /\ l = firstn (Z.to_nat high) s /\ len l = high.
Proof.
  unfold slice_to.
  destruct (high <? 0) eqn:E1; [discriminate|].
  destruct (len s <? high) eqn:E2; [discriminate|].
  apply Z.ltb_ge in E1. apply Z.ltb_ge in E2. simpl.
  intros H; inversion H; subst. split; [lia|]. split; [reflexivity|].
  unfold len in *. rewrite length_firstn. lia.
Qed.

Lemma gather_inv data : forall indices rows,
  gather data indices = Val rows ->
  List.length rows = List.length indices /\
  Forall (fun row => In row data) rows.
Proof.
  induction indices as [|i indices IH]; intros rows H; simpl in H.
  - inversion H; subst. split; [reflexivity | constructor].
  - inv_bind H. inv_bind H. inversion H; subst.
    destruct (IH _ Ha0) as [I1 I2]. apply index_inv in Ha.
    split; [simpl; congruence|]. constructor; [apply Ha | exact I2].
Qed.

Lemma buildTrees_roots count : forall f data nS sS nF ts f',
  buildTrees count f data nS sS nF = Val (ts, f') ->
  Forall (fun t => exists n r r',
            t = Some {| root := Some n |} /\
            exists sample,
              len sample = sS /\ Forall (fun row => In row data) sample /\
              buildNode_rem (Z.to_nat (maxDepth f)) r sample nF = Val (n, r'))
         ts.
Proof.
  induction count as [|c IH]; intros f data nS sS nF ts f' H; simpl in H.
  - inversion H; subst. constructor.
  - destruct (rand_Perm (rng f) nS) as [perm r].
    inv_bind H. inv_bind H. inv_bind H. destruct a1 as [tree r1].
    inv_bind H. destruct a1 as [rest f1]. inversion H; subst.
    unfold buildTree, buildNode in Ha1. inv_bind Ha1.
    destruct a1 as [n r2]. inversion Ha1; subst.
    apply IH in Ha2. simpl maxDepth in *.
    rewrite Z.sub_0_r in Ha3.
    constructor; [|exact Ha2].
    exists n, r, r1. split; [reflexivity|]. exists a0.
    apply slice_to_inv in Ha. destruct Ha as (_ & _ & HL).
    apply gather_inv in Ha0. destruct Ha0 as [G1 G2].
    split; [unfold len in *; lia|]. split; [exact G2 | exact Ha3].
Qed.

Lemma Fit_trees f data f' :
  Fit f data = Val f' ->
  exists f1,
    buildTrees (Z.to_nat (nTrees f)) f data (len data)
               (Z.min (sampleSize f) (len data)) (len (hd [] data))
    = Val (trees f', f1) /\
    0 <= nTrees f /\ data <> [] /\ trained f' = true /\
    avgPathLength f' =
      averagePathLength (F64.of_int (Z.min (sampleSize f) (len data))) /\
    nTrees f' = nTrees f /\ sampleSize f' = sampleSize f /\
    contamination f' = contamination f /\ maxDepth f' = maxDepth f.
Proof.
  intros H. apply Fit_Val in H.
  destruct H as (ts & f1 & sS & Hd & HS & Hn & Hb & Hyes & Hno).
  assert (ES : sS = Z.min (sampleSize f) (len data)).
  { rewrite HS. destruct (sampleSize f >? len data) eqn:E.
    - apply Z.gtb_lt in E. lia.
    - rewrite Z.gtb_ltb in E. apply Z.ltb_ge in E. lia. }
  rewrite ES in Hb. clear HS.
  pose proof (buildTrees_keeps _ _ _ _ _ _ _ _ Hb)
    as (K1 & K2 & K3 & K4 & K5 & _).
  exists f1.
  destruct (F64.gtb (contamination f) F64.zero) eqn:Hg.
  - destruct (Hyes eq_refl) as (scores & t & _ & _ & ->). simpl.
    rewrite ES. repeat split; assumption.
  - rewrite (Hno eq_refl). simpl.
    rewrite ES. repeat split; assumption.
Qed.

(** X3.  A successful [Fit] leaves the configuration as it was (number of
    trees, sample size, contamination, depth bound), marks the forest
    trained, replaces the tree slice by one of exactly [nTrees] trees,
    whatever it held before, and sets the normalisation constant to
    [c(min(sampleSize, len(data)))]. *)
Theorem Fit_keeps_configuration :
  forall (f : @IsolationForest Rand) (data : list (list float64))
         (f' : @IsolationForest Rand),
    Fit f data = Val f' ->
    nTrees f' = nTrees f /\ sampleSize f' = sampleSize f /\
    contamination f' = contamination f /\ maxDepth f' = maxDepth f /\
    trained f' = true /\
    len (trees f') = nTrees f /\
    avgPathLength f' =
      averagePathLength (F64.of_int (Z.min (sampleSize f) (len data))).
Proof.
  intros f data f' H. apply Fit_trees in H.
  destruct H as (f1 & Hb & Hn & _ & Ht & Ha & K1 & K2 & K3 & K4).
  pose proof (buildTrees_keeps _ _ _ _ _ _ _ _ Hb) as (_ & _ & _ & _ & _ & _ & _ & _ & HL).
  repeat split; try assumption.
  unfold len. rewrite HL. lia.
Qed.

Section WithIntnLaws2.

Context {IL : IntnLaws R}.

(** X9.  Every split of a tree [buildNode] returns is on a column below
    [nFeatures] and has its two children, so that [pathLength] returns a
    length, without a panic, for every sample of at least [nFeatures]
    columns. *)
Theorem buildNode_tree_takes_wide_samples :
  forall (f : @IsolationForest Rand) (data : list (list float64))
         (nFeatures depth : Z) (n : node) (r : Rand),
    buildNode f data nFeatures depth = Val (n, r) ->
    splitsBelow nFeatures n = true /\
    forall (sample : list float64) (d : Z),
      nFeatures <= len sample ->
      exists v, pathLength sample (Some n) d = Val v.
Proof.
  intros f data nF depth n r H. unfold buildNode in H.
  apply buildNode_rem_splits in H. split; [exact H|].
  intros sample d Hs. simpl.
  exact (pathLength_node_Val sample nF Hs n d H).
Qed.

Lemma Fit_tree_shapes f data f' :
  Fit f data = Val f' ->
  Forall (fun t => exists n,
            t = Some {| root := Some n |} /\
            leafTotal n = Z.min (sampleSize f) (len data) /\
            0 <= height n <= Z.max 0 (maxDepth f) /\
            splitsBelow (len (hd [] data)) n = true)
         (trees f').
Proof.
  intros H. apply Fit_trees in H. destruct H as (f1 & Hb & _).
  apply buildTrees_roots in Hb.
  eapply Forall_impl; [|exact Hb]. simpl.
  intros t (n & r & r' & -> & sample & HL & _ & HB).
  exists n. split; [reflexivity|].
  split; [rewrite (buildNode_rem_leafTotal _ _ _ _ _ _ HB); exact HL|].
  split; [apply buildNode_rem_height in HB; lia|].
  exact (buildNode_rem_splits _ _ _ _ _ _ HB).
Qed.

(** X5.  After a successful [Fit] every element of [f.trees] is a tree with
    a root; the leaf sizes of each tree add up to the effective sample
    size [min(sampleSize, len(data))], no path is longer than
    [f.maxDepth], and every split is on a column of the first training
    row. *)
Theorem Fit_trees_hold_the_sample :
  forall (f : @IsolationForest Rand) (data : list (list float64))
         (f' : @IsolationForest Rand),
    Fit f data = Val f' ->
    Forall (fun t => exists n,
              rootOf t = Some n /\
              leafTotal n = Z.min (sampleSize f) (len data) /\
              0 <= height n <= Z.max 0 (maxDepth f) /\
              splitsBelow (len (hd [] data)) n = true)
           (trees f').
Proof.
  intros f data f' H. apply Fit_tree_shapes in H.
  eapply Forall_impl; [|exact H]. simpl.
  intros t (n & -> & H1 & H2 & H3). exists n. simpl. auto.
Qed.

Lemma totalPathLength_Val sample nF :
  nF <= len sample ->
  forall ts acc,
    Forall (fun t => exists n, t = Some {| root := Some n |} /\
                               splitsBelow nF n = true) ts ->
    exists v, totalPathLength sample ts acc = Val v.
Proof.
  intros Hs ts. induction ts as [|t ts IH]; intros acc H; simpl.
  - eexists; reflexivity.
  - inversion H as [|t' ts' (n & -> & Hn) Hts]; subst. simpl.
    destruct (pathLength_node_Val sample nF Hs n 0 Hn) as [v Hv].
    rewrite Hv. simpl. apply IH. exact Hts.
Qed.

Lemma predict_Val f nF :
  Forall (fun t => exists n, t = Some {| root := Some n |} /\
                             splitsBelow nF n = true) (trees f) ->
  forall batch, wide nF batch ->
    exists scores, predict f batch = Val scores /\
                   List.length scores = List.length batch.
Proof.
  intros Ht batch. induction batch as [|x batch IH]; intros Hb; simpl.
  - exists []. split; reflexivity.
  - inversion Hb as [|x' b' Hx Hb']; subst.
    destruct (totalPathLength_Val x nF Hx (trees f) F64.zero Ht) as [v Hv].
    unfold predictOne. rewrite Hv. cbn [bind].
    destruct (IH Hb') as (scores & Hs & HL). rewrite Hs. cbn [bind].
    eexists. split; [reflexivity|]. simpl. congruence.
Qed.

Lemma Fit_trees_below f data f' :
  Fit f data = Val f' ->
  Forall (fun t => exists n, t = Some {| root := Some n |} /\
                             splitsBelow (len (hd [] data)) n = true)
         (trees f').
Proof.
  intros H. apply Fit_tree_shapes in H.
  eapply Forall_impl; [|exact H]. simpl.
  intros t (n & -> & _ & _ & Hn). exists n. auto.
Qed.

(** X6.  After a successful [Fit], [Predict] and [PredictOne] return a score,
    without an error and without a panic, for every sample that has at
    least as many columns as the first training row; [Predict] returns one
    score per sample. *)
Theorem Predict_returns_after_Fit :
  forall (f : @IsolationForest Rand) (data : list (list float64))
         (f' : @IsolationForest Rand),
    Fit f data = Val f' ->
    (forall sample, len (hd [] data) <= len sample ->
                    exists v, PredictOne f' sample = Val v) /\
    (forall batch, wide (len (hd [] data)) batch ->
                   exists scores, Predict f' batch = Val scores /\
                                  len scores = len batch).
Proof.
  intros f data f' H.
  pose proof (Fit_trees_below _ _ _ H) as HT.
  apply Fit_trees in H. destruct H as (_ & _ & _ & _ & Ht & _).
  unfold PredictOne, Predict. rewrite Ht. simpl. split.
  - intros sample Hs.
    destruct (predict_Val f' _ HT [sample]) as (scores & Hp & _).
    { constructor; [exact Hs | constructor]. }
    simpl in Hp. destruct (predictOne f' sample) as [v| |]; try discriminate.
    exists v; reflexivity.
  - intros batch Hb.
    destruct (predict_Val f' _ HT batch Hb) as (scores & Hp & HL).
    exists scores. split; [exact Hp|]. unfold len. congruence.
Qed.

End WithIntnLaws2.

End Trees.

(** ** [Fit] on rectangular data *)

Section Totality.

Context {M : GoMath} {Rand : Type} {R : GoRand Rand}.
Context {RL : RandLaws R} {IL : IntnLaws R}.

Implicit Types f g : @IsolationForest Rand.

Lemma minMax_Val feature : forall rows a b,
  Forall (fun row => 0 <= feature < len row) rows ->
  exists p, minMax rows feature a b = Val p.
Proof.
  induction rows as [|row rows IH]; intros a b H; simpl.
  - eexists; reflexivity.
  - inversion H as [|row' rows' Hr Hrs]; subst.
    destruct (index_Val row feature Hr) as (x & Hx & _).
    rewrite Hx. cbn [bind]. apply IH. exact Hrs.
Qed.

Lemma partitionRows_Val feature v : forall rows,
  Forall (fun row => 0 <= feature < len row) rows ->
  exists l r, partitionRows rows feature v = Val (l, r).
Proof.
  induction rows as [|row rows IH]; intros H; simpl.
  - do 2 eexists; reflexivity.
  - inversion H as [|row' rows' Hr Hrs]; subst.
    destruct (index_Val row feature Hr) as (x & Hx & _).
    rewrite Hx. cbn [bind].
    destruct (IH Hrs) as (l & r & ->). cbn [bind].
    destruct (F64.ltb x v); do 2 eexists; reflexivity.
Qed.

Lemma wide_columns nF rows feature :
  wide nF rows -> 0 <= feature < nF ->
  Forall (fun row => 0 <= feature < len row) rows.
Proof.
  intros H Hf. eapply Forall_impl; [|exact H]. simpl. intros row Hr. lia.
Qed.

Lemma buildNode_rem_Val nF : 0 < nF ->
  forall remaining r data,
    wide nF data ->
    exists n r', buildNode_rem remaining r data nF = Val (n, r').
Proof.
  intros HF. induction remaining as [|k IH]; intros r data Hw.
  - do 2 eexists; reflexivity.
  - rewrite buildNode_rem_S. cbv zeta.
    destruct (len data <=? 1) eqn:E1; [do 2 eexists; reflexivity|].
    apply Z.leb_gt in E1.
    replace (nF <=? 0) with false by (symmetry; apply Z.leb_gt; exact HF).
    pose proof (Intn_range r nF HF) as Hi.
    destruct (rand_Intn r nF) as [feature r0]. simpl fst in Hi.
    pose proof (wide_columns nF data feature Hw Hi) as Hc.
    destruct (index_Val data 0 ltac:(lia)) as (row0 & Hrow0 & Hin).
    rewrite Hrow0. cbn [bind].
    assert (H0 : 0 <= feature < len row0).
    { rewrite Forall_forall in Hc. apply Hc. exact Hin. }
    destruct (index_Val row0 feature H0) as (x0 & Hx0 & _).
    rewrite Hx0. cbn [bind].
    destruct (minMax_Val feature (tl data) x0 x0) as ([minVal maxVal] & Hmm).
    { destruct data; [constructor|]. inversion Hc; assumption. }
    rewrite Hmm. cbn [bind].
    destruct (F64.eqb minVal maxVal); [do 2 eexists; reflexivity|].
    destruct (rand_Float64 r0) as [u r1].
    destruct (partitionRows_Val feature
                (F64.add minVal (F64.mul u (F64.sub maxVal minVal)))
                data Hc) as (lD & rD & HP).
    rewrite HP. cbn [bind].
    pose proof (partitionRows_perm _ _ _ _ _ HP) as Hperm.
    assert (Hlr : wide nF (lD ++ rD)).
    { unfold wide. eapply Permutation_Forall;
        [apply Permutation_sym; exact Hperm | exact Hw]. }
    apply Forall_app in Hlr. destruct Hlr as [Hl Hr].
    destruct (IH r1 lD Hl) as (l & r2 & HL). rewrite HL. cbn [bind].
    destruct (IH r2 rD Hr) as (rt & r3 & HR). rewrite HR. cbn [bind].
    do 2 eexists; reflexivity.
Qed.

Lemma firstn_incl {A : Type} (k : nat) (l : list A) x :
  In x (firstn k l) -> In x l.
Proof.
  intros H. rewrite <- (firstn_skipn k l). apply in_or_app. left; exact H.
Qed.

Lemma gather_Val data : forall indices,
  Forall (fun i => 0 <= i < len data) indices ->
  exists rows, gather data indices = Val rows.
Proof.
  induction indices as [|i indices IH]; intros H; simpl.
  - eexists; reflexivity.
  - inversion H as [|i' l' Hi Hl]; subst.
    destruct (index_Val data i Hi) as (row & Hrow & _).
    rewrite Hrow. cbn [bind]. destruct (IH Hl) as (rows & ->). cbn [bind].
    eexists; reflexivity.
Qed.

Lemma buildTrees_Val data sS nF :
  0 <= sS <= len data -> 0 < nF -> wide nF data ->
  forall count f,
    exists ts f', buildTrees count f data (len data) sS nF = Val (ts, f').
Proof.
  intros HS HF Hw. induction count as [|c IH]; intros f; simpl.
  - do 2 eexists; reflexivity.
  - pose proof (Perm_length (rng f) (len data) ltac:(lia)) as PL.
    pose proof (Perm_range (rng f) (len data)) as PR.
    destruct (rand_Perm (rng f) (len data)) as [perm r].
    simpl fst in PL, PR.
    unfold slice_to.
    replace (sS <? 0) with false by (symmetry; apply Z.ltb_ge; lia).
    replace (len perm <? sS) with false by (symmetry; apply Z.ltb_ge; lia).
    simpl orb. cbv iota. cbn [bind].
    destruct (gather_Val data (firstn (Z.to_nat sS) perm)) as (sample & HG).
    { apply Forall_forall. intros i Hi. apply PR.
      eapply firstn_incl. exact Hi. }
    rewrite HG. cbn [bind].
    pose proof (gather_inv _ _ _ HG) as [_ Hin].
    assert (Hws : wide nF sample).
    { unfold wide in *. rewrite Forall_forall in *. intros row Hrow.
      apply Hw. apply Hin. exact Hrow. }
    unfold buildTree, buildNode.
    destruct (buildNode_rem_Val nF HF
                (Z.to_nat (maxDepth (set_rng r f) - 0))
                (rng (set_rng r f)) sample Hws) as (n & r1 & HB).
    rewrite HB. cbn [bind].
    destruct (IH (set_rng r1 (set_rng r f))) as (ts & f' & HT).
    rewrite HT. cbn [bind]. do 2 eexists; reflexivity.
Qed.

Lemma Fit_rectangular_Val :
  forall (f : @IsolationForest Rand) (data : list (list float64)),
    data <> [] ->
    1 <= len (hd [] data) ->
    wide (len (hd [] data)) data ->
    0 <= nTrees f -> 0 <= sampleSize f ->
    (contamination f = F64.dec 1 1 /\ len data <= 2 ^ 63) \/
    F64.gtb (contamination f) F64.zero = false ->
    exists f' : @IsolationForest Rand, Fit f data = Val f'.
Proof.
  intros f data Hd HF Hw Hn Hs Hc.
  assert (Hlen : 1 <= len data).
  { destruct data; [congruence|]. unfold len. simpl List.length. lia. }
  { destruct data as [|row0 rest]; [congruence|].
    unfold Fit. set (data := row0 :: rest) in *.
    change row0 with (hd [] data).
    replace (nTrees f <? 0) with false by (symmetry; apply Z.ltb_ge; lia).
    set (sS := if sampleSize f >? len data then len data else sampleSize f).
    assert (HsS : 0 <= sS <= len data).
    { unfold sS. destruct (sampleSize f >? len data) eqn:E; [lia|].
      rewrite Z.gtb_ltb in E. apply Z.ltb_ge in E. lia. }
    destruct (buildTrees_Val data sS (len (hd [] data)) HsS ltac:(lia) Hw
                (Z.to_nat (nTrees f)) f) as (ts & f1 & HB).
    rewrite HB. cbn [bind].
    pose proof (buildTrees_keeps _ _ _ _ _ _ _ _ HB)
      as (_ & _ & K3 & _).
    cbn [contamination set_trained set_avgPathLength set_trees].
    rewrite K3.
    destruct (F64.gtb (contamination f) F64.zero) eqn:Hg;
      [|eexists; reflexivity].
    destruct Hc as [[Hc HL]|Hc]; [|congruence].
    match goal with |- context [predict ?g data] => set (f2 := g) end.
    destruct (predict_Val f2 (len (hd [] data))) with (batch := data)
      as (scores & Hp & HLs).
    { apply buildTrees_roots in HB. unfold f2. simpl.
      eapply Forall_impl; [|exact HB]. simpl.
      intros t (n & r & r' & -> & sample & _ & _ & Hb).
      exists n. split; [reflexivity|].
      exact (buildNode_rem_splits _ _ _ _ _ _ Hb). }
    { exact Hw. }
    rewrite Hp. cbn [bind]. unfold percentile.
    destruct scores as [|s0 scores].
    { discriminate. }
    assert (HLen : len (insertionSort (s0 :: scores)) = len data).
    { unfold len. f_equal. rewrite <- HLs.
      apply Permutation_length, insertionSort_perm. }
    rewrite HLen, Hc.
    destruct (index_Val (insertionSort (s0 :: scores))
                (percentileIndex (len data) (percentileOf (F64.dec 1 1))))
      as (t & Ht & _).
    { rewrite HLen. apply percentileIndex_default. lia. }
    rewrite Ht. cbn [bind]. eexists; reflexivity. }
Qed.

(** X4.  [Fit] returns a nil error, without a panic, on every non-empty dataset
    whose rows all have at least the columns of the first one, and at least
    one, when [make] accepts the number of trees (it is not negative and
    that many pointers take at most [maxAlloc] bytes), the sample size is
    not negative and the contamination is the default one (for at most
    [2^63] rows) or is not positive; the allocations are taken to find the
    memory they ask for. *)
Theorem Fit_returns_on_rectangular_data :
  forall (f : @IsolationForest Rand) (data : list (list float64)),
    data <> [] ->
    1 <= len (hd [] data) ->
    wide (len (hd [] data)) data ->
    makeAccepts (nTrees f) = true -> 0 <= sampleSize f ->
    (contamination f = F64.dec 1 1 /\ len data <= 2 ^ 63) \/
    F64.gtb (contamination f) F64.zero = false ->
    exists f' : @IsolationForest Rand,
      Fit f data = Val f' /\ trained f' = true /\
      len (trees f') = nTrees f.
Proof.
  intros f data Hd HF Hw Hm Hs Hc.
  unfold makeAccepts, maxAlloc, ptrSize in Hm.
  apply andb_prop in Hm. destruct Hm as [Hn _].
  apply Z.leb_le in Hn.
  destruct (Fit_rectangular_Val f data Hd HF Hw Hn Hs Hc) as [f' Hf'].
  exists f'. split; [exact Hf'|].
  split.
  - apply Fit_Val in Hf'.
    destruct Hf' as (ts & f1 & sS & _ & _ & _ & _ & Hyes & Hno).
    destruct (F64.gtb (contamination f) F64.zero).
    + destruct (Hyes eq_refl) as (scores & t & _ & _ & ->). reflexivity.
    + rewrite (Hno eq_refl). reflexivity.
  - apply Fit_trees in Hf'. destruct Hf' as (f1 & Hb & _).
    apply buildTrees_keeps in Hb.
    destruct Hb as (_ & _ & _ & _ & _ & _ & _ & _ & HL).
    unfold len. rewrite HL. lia.
Qed.

End Totality.

(** ** Errors and panics of [Fit] *)

Section FitOutcomes.

Context {M : GoMath} {Rand : Type} {R : GoRand Rand}.

Implicit Types f g : @IsolationForest Rand.

Lemma bind_not_Error {A B : Type} (c : res A) (k : A -> res B) e :
  c <> Error e -> (forall a, k a <> Error e) -> bind c k <> Error e.
Proof.
  destruct c as [a|e'|p]; simpl; intros H1 H2;
    [apply H2 | | discriminate].
  intros E. apply H1. inversion E. reflexivity.
Qed.

Lemma minMax_no_error feature e : forall rows a b,
  minMax rows feature a b <> Error e.
Proof.
  induction rows as [|row rows IH]; intros a b; simpl; [discriminate|].
  apply bind_not_Error; [apply index_no_error|]. intros x. apply IH.
Qed.

Lemma partitionRows_no_error feature v e : forall rows,
  partitionRows rows feature v <> Error e.
Proof.
  induction rows as [|row rows IH]; simpl; [discriminate|].
  apply bind_not_Error; [apply index_no_error|]. intros x.
  apply bind_not_Error; [apply IH|]. intros [l r].
  destruct (F64.ltb x v); discriminate.
Qed.

Lemma buildNode_rem_no_error nF e : forall remaining r data,
  buildNode_rem remaining r data nF <> Error e.
Proof.
  induction remaining as [|k IH]; intros r data; [discriminate|].
  rewrite buildNode_rem_S. cbv zeta.
  destruct (len data <=? 1); [discriminate|].
  destruct (nF <=? 0); [discriminate|].
  destruct (rand_Intn r nF) as [feature r0].
  apply bind_not_Error; [apply index_no_error|]. intros row0.
  apply bind_not_Error; [apply index_no_error|]. intros x0.
  apply bind_not_Error; [apply minMax_no_error|]. intros [minVal maxVal].
  destruct (F64.eqb minVal maxVal); [discriminate|].
  destruct (rand_Float64 r0) as [u r1].
  apply bind_not_Error; [apply partitionRows_no_error|]. intros [lD rD].
  apply bind_not_Error; [apply IH|]. intros [l r2].
  apply bind_not_Error; [apply IH|]. intros [rt r3]. discriminate.
Qed.

Lemma gather_no_error data e : forall indices,
  gather data indices <> Error e.
Proof.
  induction indices as [|i indices IH]; simpl; [discriminate|].
  apply bind_not_Error; [apply index_no_error|]. intros row.
  apply bind_not_Error; [apply IH|]. discriminate.
Qed.

Lemma buildTrees_no_error data nS sS nF e : forall count f,
  buildTrees count f data nS sS nF <> Error e.
Proof.
  induction count as [|c IH]; intros f; simpl; [discriminate|].
  destruct (rand_Perm (rng f) nS) as [perm r].
  apply bind_not_Error.
  { unfold slice_to. destruct ((sS <? 0) || (len perm <? sS)); discriminate. }
  intros indices.
  apply bind_not_Error; [apply gather_no_error|]. intros sample.
  apply bind_not_Error.
  { unfold buildTree, buildNode.
    apply bind_not_Error; [apply buildNode_rem_no_error|].
    intros [n r1]. discriminate. }
  intros [tree r1].
  apply bind_not_Error; [apply IH|]. intros [rest f1]. discriminate.
Qed.

(** X1.  The only error [Fit] returns is the one for an empty dataset: it
    returns it for every forest, and for a non-empty dataset [Fit] either
    returns nil or panics. *)
Theorem Fit_error_is_empty_data :
  forall (f : @IsolationForest Rand) (data : list (list float64))
         (e : error),
    Fit f data = Error e <-> data = [] /\ e = ErrEmptyData.
Proof.
  intros f data e. split.
  - destruct data as [|row0 rest].
    + simpl. intros H; inversion H; auto.
    + intros H. exfalso. revert H. unfold Fit.
      destruct (nTrees f <? 0); [discriminate|].
      apply bind_not_Error; [apply buildTrees_no_error|].
      intros [ts f1].
      match goal with |- context [F64.gtb ?c F64.zero] =>
        destruct (F64.gtb c F64.zero) end; [|discriminate].
      apply bind_not_Error; [apply predict_no_error|]. intros scores.
      apply bind_not_Error; [|discriminate].
      unfold percentile. destruct scores; [discriminate|].
      apply index_no_error.
  - intros [-> ->]. reflexivity.
Qed.

(** X2.  [New] and [Fit] do not validate the options: on a non-empty dataset
    a negative number of trees makes [Fit] panic in [make], and a negative
    sample size makes it panic on the slice [Perm(n)[:sampleSize]] as soon
    as there is a tree to build. *)
Theorem Fit_panics_on_negative_options :
  forall (f : @IsolationForest Rand) (data : list (list float64)),
    data <> [] ->
    (nTrees f < 0 -> Fit f data = Panic MakeSliceLenOutOfRange) /\
    (0 < nTrees f -> sampleSize f < 0 ->
     Fit f data = Panic SliceBoundsOutOfRange).
Proof.
  intros f data Hd. destruct data as [|row0 rest]; [congruence|].
  split.
  - intros Hn. unfold Fit.
    replace (nTrees f <? 0) with true by (symmetry; apply Z.ltb_lt; exact Hn).
    reflexivity.
  - intros Hn Hs. unfold Fit.
    replace (nTrees f <? 0) with false by (symmetry; apply Z.ltb_ge; lia).
    set (data := row0 :: rest).
    replace (sampleSize f >? len data) with false.
    2:{ symmetry. rewrite Z.gtb_ltb. apply Z.ltb_ge.
        unfold len. lia. }
    destruct (Z.to_nat (nTrees f)) as [|c] eqn:Ec; [lia|].
    simpl buildTrees.
    destruct (rand_Perm (rng f) (len data)) as [perm r].
    unfold slice_to.
    replace (sampleSize f <? 0) with true
      by (symmetry; apply Z.ltb_lt; exact Hs).
    reflexivity.
Qed.

End FitOutcomes.

(** ** Streaming and the threshold *)

Section Streaming.

Context {M : GoMath} {Rand : Type} {R : GoRand Rand}.
Context {W : GobWire} {D : GobDecoder}.

Implicit Types f g : @IsolationForest Rand.

Lemma streamLoop_sends f :
  trained f = true ->
  forall events out,
    exists more,
      fst (streamLoop f events out) = out ++ more /\
      map Features more = firstn (List.length more) (received events) /\
      Forall (fun s => PredictOne f (Features s) = Val (Value s) /\
                       IsAnomaly s = F64.geb (Value s) (threshold f)) more.
Proof.
  intros Ht. induction events as [|ev events IH]; intros out.
  - exists []. simpl. rewrite app_nil_r. auto.
  - destruct ev as [| |sample s].
    + exists []. simpl. rewrite app_nil_r. auto.
    + exists []. simpl. rewrite app_nil_r. auto.
    + simpl streamLoop. destruct (PredictOne f sample) as [v|e|p] eqn:E.
      * destruct s.
        -- destruct (IH (out ++ [ {| Value := v;
                                     IsAnomaly := F64.geb v (threshold f);
                                     Features := sample |} ]))
             as (more & H1 & H2 & H3).
           eexists (_ :: more). rewrite H1, <- app_assoc.
           split; [reflexivity|]. split.
           ++ simpl. f_equal. exact H2.
           ++ constructor; [simpl; auto | exact H3].
        -- exists []. simpl. rewrite app_nil_r. auto.
      * exfalso. unfold PredictOne in E. rewrite Ht in E. simpl in E.
        exact (predictOne_no_error _ _ _ E).
      * exists []. simpl. rewrite app_nil_r. auto.
Qed.

Lemma PredictStream_records f events :
  Forall (fun s => PredictOne f (Features s) = Val (Value s) /\
                   IsAnomaly s = F64.geb (Value s) (threshold f))
         (fst (PredictStream f events)).
Proof.
  unfold PredictStream.
  destruct (trained f) eqn:Ht; simpl negb; cbv iota.
  - destruct (streamLoop_sends f Ht events []) as (more & H1 & _ & H3).
    simpl in H1. rewrite H1. exact H3.
  - simpl. constructor.
Qed.

(** X12.  Whatever the scheduler does, the records [PredictStream] has sent
    are those of the first samples it received, one per sample and in the
    order of arrival: each carries its sample, the score [PredictOne] gives
    it, and the flag [score >= f.threshold]. *)
Theorem PredictStream_sends_a_prefix :
  forall (f : @IsolationForest Rand) (events : list recvEvent),
    map Features (fst (PredictStream f events))
    = firstn (List.length (fst (PredictStream f events))) (received events) /\
    Forall (fun s => PredictOne f (Features s) = Val (Value s) /\
                     IsAnomaly s = F64.geb (Value s) (threshold f))
           (fst (PredictStream f events)).
Proof.
  intros f events. unfold PredictStream.
  destruct (trained f) eqn:Ht; simpl negb; cbv iota.
  - destruct (streamLoop_sends f Ht events []) as (more & H1 & H2 & H3).
    simpl in H1. rewrite H1. auto.
  - simpl. auto.
Qed.

Lemma geb_nan x t :
  F64.is_nan x = true \/ F64.is_nan t = true -> F64.geb x t = false.
Proof.
  unfold F64.geb, SFleb.
  destruct x as [sx|sx| |sx mx ex], t as [st|st| |st mt et]; simpl;
    intros [H|H]; try discriminate; reflexivity.
Qed.

(** X24.  A sample whose score is NaN is never flagged: in every record
    [PredictStream] sends, [IsAnomaly] is false when the score is NaN, and
    also when the threshold of the forest is NaN, since [score >= threshold]
    is then false. *)
Theorem NaN_is_never_an_anomaly :
  forall (f : @IsolationForest Rand) (events : list recvEvent),
    Forall (fun s => F64.is_nan (Value s) = true \/
                     F64.is_nan (threshold f) = true ->
                     IsAnomaly s = false)
           (fst (PredictStream f events)).
Proof.
  intros f events.
  pose proof (PredictStream_records f events) as H.
  eapply Forall_impl; [|exact H]. simpl. intros s [_ Hs] Hn.
  rewrite Hs. apply geb_nan. exact Hn.
Qed.

Lemma streamLoop_after_sent f : forall samples scores rest out,
  Forall2 (fun s v => PredictOne f s = Val v) samples scores ->
  streamLoop f (map (fun s => Received s Sent) samples ++ rest) out =
  streamLoop f rest
    (out ++ map (fun sv => scoreRecord f (fst sv) (snd sv))
                (combine samples scores)).
Proof.
  intros samples scores rest out H; revert out.
  induction H as [|s v samples scores Hs _ IH]; intros out; simpl.
  - rewrite app_nil_r; reflexivity.
  - rewrite Hs. rewrite IH. rewrite <- app_assoc. reflexivity.
Qed.

(** X13.  On a trained forest, after the samples [s1 .. sn] were received,
    scored and taken by the consumer, [PredictStream] returns the error of
    the context, with exactly these [n] records sent, when the context is
    cancelled while it waits for the next sample, and also when it is
    cancelled while the record of a further sample waits to be sent: that
    record is dropped.  A panic of [PredictOne] ends the call, and while
    no further event arrives the call stays blocked. *)
Theorem PredictStream_stops_on_cancel :
  forall (f : @IsolationForest Rand) (samples : list (list float64))
         (scores : list float64) (rest : list recvEvent),
    trained f = true ->
    Forall2 (fun s v => PredictOne f s = Val v) samples scores ->
    let sent := map (fun sv => scoreRecord f (fst sv) (snd sv))
                    (combine samples scores) in
    let arrived := map (fun s => Received s Sent) samples in
    PredictStream f (arrived ++ Canceled :: rest)
      = (sent, Returned (Some ErrCanceled)) /\
    (forall x v, PredictOne f x = Val v ->
       PredictStream f (arrived ++ Received x SendCanceled :: rest)
       = (sent, Returned (Some ErrCanceled))) /\
    (forall x p s, PredictOne f x = Panic p ->
       PredictStream f (arrived ++ Received x s :: rest)
       = (sent, Panicked p)) /\
    PredictStream f arrived = (sent, Blocked).
Proof.
  intros f samples scores rest Ht H sent arrived.
  unfold PredictStream. rewrite Ht. simpl negb. cbv iota.
  repeat split.
  - unfold arrived. rewrite (streamLoop_after_sent f _ _ _ [] H). reflexivity.
  - intros x v Hx. unfold arrived.
    rewrite (streamLoop_after_sent f _ _ _ [] H). simpl. rewrite Hx.
    reflexivity.
  - intros x p s Hx. unfold arrived.
    rewrite (streamLoop_after_sent f _ _ _ [] H). simpl. rewrite Hx.
    reflexivity.
  - rewrite <- (app_nil_r arrived). unfold arrived.
    rewrite (streamLoop_after_sent f _ _ _ [] H). reflexivity.
Qed.

Lemma streamLoop_nil f : forall events out out',
  streamLoop f events out = (out', Returned None) -> In Closed events.
Proof.
  induction events as [|ev events IH]; intros out out' H; simpl in H.
  - discriminate.
  - destruct ev as [| |sample s].
    + discriminate.
    + left; reflexivity.
    + right. destruct (PredictOne f sample) as [v|e|p].
      * destruct s; [|discriminate]. eapply IH; exact H.
      * eapply IH; exact H.
      * discriminate.
Qed.

(** X14.  [PredictStream] returns nil only for a trained forest whose input
    channel was closed; it answers the not-trained error, with nothing
    sent, whatever the channels and the context do, exactly when the forest
    is not trained. *)
Theorem PredictStream_endings :
  forall (f : @IsolationForest Rand) (events : list recvEvent),
    (snd (PredictStream f events) = Returned None ->
     trained f = true /\ In Closed events) /\
    (snd (PredictStream f events) = Returned (Some ErrNotTrained) <->
     trained f = false) /\
    (trained f = false ->
     PredictStream f events = ([], Returned (Some ErrNotTrained))).
Proof.
  intros f events. unfold PredictStream.
  destruct (trained f) eqn:Ht; simpl negb; cbv iota.
  - split; [|split].
    + intros H. split; [reflexivity|].
      destruct (streamLoop f events []) as [out e] eqn:E. simpl in H. subst e.
      exact (streamLoop_nil _ _ _ _ E).
    + split; [|discriminate]. intros H. exfalso.
      assert (G : forall evs out,
                 snd (streamLoop f evs out) <> Returned (Some ErrNotTrained)).
      { induction evs as [|ev evs IH]; intros out; simpl; [discriminate|].
        destruct ev as [| |sample s]; try discriminate.
        destruct (PredictOne f sample); [|apply IH|discriminate].
        destruct s; [apply IH|discriminate]. }
      exact (G _ _ H).
    + discriminate.
  - simpl. split; [discriminate|]. split; [split; reflexivity|reflexivity].
Qed.

Lemma predictOne_set_threshold t f x :
  predictOne (set_threshold t f) x = predictOne f x.
Proof. reflexivity. Qed.

Lemma streamLoop_set_threshold t f : forall events out1 out2,
  map Value out1 = map Value out2 ->
  map Features out1 = map Features out2 ->
  let r1 := streamLoop (set_threshold t f) events out1 in
  let r2 := streamLoop f events out2 in
  map Value (fst r1) = map Value (fst r2) /\
  map Features (fst r1) = map Features (fst r2) /\
  snd r1 = snd r2.
Proof.
  induction events as [|ev events IH]; intros out1 out2 HV HF; simpl.
  - auto.
  - destruct ev as [| |sample s]; simpl; auto.
    unfold PredictOne. simpl trained. rewrite predictOne_set_threshold.
    destruct (negb (trained f)); simpl.
    + apply IH; assumption.
    + destruct (predictOne f sample) as [v|e|p]; simpl; auto.
      destruct s; simpl; auto.
      apply IH; rewrite !map_app; simpl; congruence.
Qed.

(** X15.  [SetThreshold] changes the threshold and nothing else: [Threshold]
    returns the new value, the trained flag and every score are as before,
    and [PredictStream] sends the same scores for the same samples and ends
    the same way, with the flag of each record now [score >= t]. *)
Theorem SetThreshold_changes_the_flag_only :
  forall (f : @IsolationForest Rand) (t : float64),
    Threshold (SetThreshold f t) = t /\
    trained (SetThreshold f t) = trained f /\
    (forall x, PredictOne (SetThreshold f t) x = PredictOne f x) /\
    (forall B, Predict (SetThreshold f t) B = Predict f B) /\
    (forall events,
       map Value (fst (PredictStream (SetThreshold f t) events))
       = map Value (fst (PredictStream f events)) /\
       map Features (fst (PredictStream (SetThreshold f t) events))
       = map Features (fst (PredictStream f events)) /\
       snd (PredictStream (SetThreshold f t) events)
       = snd (PredictStream f events) /\
       Forall (fun s => IsAnomaly s = F64.geb (Value s) t)
              (fst (PredictStream (SetThreshold f t) events))).
Proof.
  intros f t. split; [reflexivity|]. split; [reflexivity|].
  split; [reflexivity|]. split.
  { intros B. unfold Predict, SetThreshold. simpl trained.
    rewrite predict_set_threshold. reflexivity. }
  intros events.
  assert (H4 : Forall (fun s => IsAnomaly s = F64.geb (Value s) t)
                 (fst (PredictStream (SetThreshold f t) events))).
  { pose proof (PredictStream_records (SetThreshold f t) events) as H.
    eapply Forall_impl; [|exact H]. simpl. intros s [_ Hs].
    exact Hs. }
  unfold PredictStream, SetThreshold in *. simpl trained in *.
  destruct (negb (trained f)); simpl.
  - auto.
  - destruct (streamLoop_set_threshold t f events [] [] eq_refl eq_refl)
      as (H1 & H2 & H3).
    auto.
Qed.

End Streaming.

(** ** The order of float64 and the insertion sort *)

Lemma leb_refl x : F64.is_nan x = false -> F64.leb x x = true.
Proof.
  unfold F64.leb, SFleb, SFcompare.
  destruct x as [s|s| |s m e]; try destruct s; simpl; try discriminate;
    try reflexivity; intros _; rewrite Z.compare_refl;
    change (Pcompare m m Eq) with (Pos.compare m m);
    rewrite Pos.compare_refl; reflexivity.
Qed.

Ltac compare_cases :=
  repeat match goal with
  | |- context [Z.compare ?a ?b] =>
      destruct (Z.compare_spec a b); subst; simpl; try lia
  | |- context [Pcompare ?a ?b Eq] =>
      change (Pcompare a b Eq) with (Pos.compare a b);
      destruct (Pos.compare_spec a b); subst; simpl; try lia
  end.

Lemma leb_trans x y z :
  F64.leb x y = true -> F64.leb y z = true -> F64.leb x z = true.
Proof.
  unfold F64.leb, SFleb, SFcompare.
  destruct x as [sx|sx| |sx mx ex]; try destruct sx;
  destruct y as [sy|sy| |sy my ey]; try destruct sy;
  destruct z as [sz|sz| |sz mz ez]; try destruct sz;
  simpl; try discriminate; try reflexivity;
  compare_cases; try discriminate; try reflexivity;
  intros; try discriminate; try reflexivity; try lia.
Qed.

Lemma leb_not_ltb x y : F64.leb x y = true -> F64.ltb y x = false.
Proof.
  unfold F64.leb, F64.ltb, SFleb, SFltb.
  rewrite (SFcompare_antisym x y).
  destruct (SFcompare x y) as [[| |]|]; simpl; intros H;
    try reflexivity; discriminate.
Qed.

Lemma leb_not_nan x y :
  F64.leb x y = true -> F64.is_nan x = false /\ F64.is_nan y = false.
Proof.
  unfold F64.leb, SFleb.
  destruct x as [sx|sx| |sx mx ex], y as [sy|sy| |sy my ey]; simpl;
    intros H; try discriminate; auto.
Qed.

Lemma ascending_strongly l :
  ascending l -> StronglySorted (fun a b => F64.leb a b = true) l.
Proof.
  apply Sorted_StronglySorted. intros x y z. apply leb_trans.
Qed.

Lemma sortLoop_ascending_input : forall rest revPrefix,
  ascending (rev revPrefix ++ rest) ->
  sortLoop revPrefix rest = rev revPrefix ++ rest.
Proof.
  induction rest as [|x rest IH]; intros revPrefix H; simpl.
  - rewrite app_nil_r; reflexivity.
  - assert (E : sift x revPrefix = x :: revPrefix).
    { destruct revPrefix as [|y ys]; [reflexivity|]. simpl.
      replace (F64.ltb x y) with false; [reflexivity|].
      symmetry. apply leb_not_ltb.
      simpl in H. rewrite <- app_assoc in H. simpl in H.
      clear IH. induction (rev ys) as [|a l IHl]; simpl in H.
      - inversion H as [|? ? _ Hd]; subst. inversion Hd; assumption.
      - apply IHl. inversion H; assumption. }
    rewrite E. rewrite IH.
    + simpl. rewrite <- app_assoc. reflexivity.
    + simpl. rewrite <- app_assoc. exact H.
Qed.

(** X17.  The insertion sort of [percentile] returns a permutation of its input,
    in ascending order when no element is NaN, and it moves nothing in a
    slice that is already ascending: elements that compare equal keep their
    order. *)
Theorem insertionSort_sorts :
  forall l : list float64,
    Permutation (insertionSort l) l /\
    len (insertionSort l) = len l /\
    (noNaN l -> ascending (insertionSort l)) /\
    (ascending l -> insertionSort l = l).
Proof.
  intros l. split; [apply insertionSort_perm|].
  split; [unfold len; f_equal; apply Permutation_length, insertionSort_perm|].
  split; [apply insertionSort_ascending|].
  intros H. unfold insertionSort. apply (sortLoop_ascending_input l []).
  exact H.
Qed.

(** ** [percentile] *)

Section Percentile.

Context {M : GoMath}.

Lemma percentile_nonempty data p :
  data <> [] ->
  percentile data p =
  index (insertionSort data) (percentileIndex (len data) p).
Proof.
  intros H. destruct data as [|x data]; [congruence|].
  unfold percentile.
  replace (len (insertionSort (x :: data))) with (len (x :: data));
    [reflexivity|].
  unfold len. f_equal. symmetry.
  apply Permutation_length, insertionSort_perm.
Qed.

(** X18.  [percentile] returns 0 for an empty slice and otherwise an element
    of its input, the one of index [int(float64(n-1) * p / 100)] after
    sorting; it never returns an error, and it panics exactly when that
    index is outside the slice. *)
Theorem percentile_returns_an_element :
  forall (data : list float64) (p : float64),
    percentile [] p = Val F64.zero /\
    (forall v, data <> [] -> percentile data p = Val v -> In v data) /\
    (data <> [] ->
     0 <= percentileIndex (len data) p < len data ->
     exists v, percentile data p = Val v /\ In v data) /\
    (data <> [] ->
     ~ 0 <= percentileIndex (len data) p < len data ->
     percentile data p = Panic IndexOutOfRange).
Proof.
  intros data p. split; [reflexivity|]. split; [|split].
  - intros v Hd H. rewrite percentile_nonempty in H by exact Hd.
    apply index_inv in H. destruct H as [_ H].
    eapply Permutation_in; [apply insertionSort_perm | exact H].
  - intros Hd Hi. rewrite percentile_nonempty by exact Hd.
    destruct (index_Val (insertionSort data)
                (percentileIndex (len data) p)) as (v & Hv & Hin).
    { replace (len (insertionSort data)) with (len data); [exact Hi|].
      unfold len. f_equal. symmetry.
      apply Permutation_length, insertionSort_perm. }
    exists v. split; [exact Hv|].
    eapply Permutation_in; [apply insertionSort_perm | exact Hin].
  - intros Hd Hi. rewrite percentile_nonempty by exact Hd.
    unfold index.
    destruct (percentileIndex (len data) p <? 0) eqn:E; [reflexivity|].
    apply Z.ltb_ge in E.
    destruct (nth_error (insertionSort data)
                (Z.to_nat (percentileIndex (len data) p))) eqn:En;
      [|reflexivity].
    exfalso. apply Hi. split; [exact E|].
    assert (Z.to_nat (percentileIndex (len data) p)
            < List.length (insertionSort data))%nat
      by (apply nth_error_Some; congruence).
    rewrite (Permutation_length (insertionSort_perm data)) in H.
    set (i := percentileIndex (len data) p) in *. unfold len. lia.
Qed.

Lemma percentileIndex_zero n :
  1 <= n <= 2 ^ 63 -> percentileIndex n F64.zero = 0.
Proof.
  intros Hn. unfold percentileIndex.
  assert (E : F64.mul (F64.of_int (n - 1)) F64.zero = F64.zero).
  { destruct (Z.eq_dec n 1) as [->|Hne]; [reflexivity|].
    destruct (of_int_normal (n - 1) ltac:(lia)) as (m & a & k & -> & _).
    reflexivity. }
  rewrite E. rewrite of_int_100. reflexivity.
Qed.

Lemma percentileIndex_hundred n :
  1 <= n <= 2 ^ 46 -> percentileIndex n (F64.of_int 100) = n - 1.
Proof.
  intros Hn. destruct (Z.eq_dec n 1) as [->|Hne]; [reflexivity|].
  change (2 ^ 46) with 70368744177664 in Hn.
  unfold percentileIndex, to_int, F64.to_int.
  rewrite mul_int_exact by (pow_consts; lia).
  rewrite div_int_exact by (pow_consts; lia).
  rewrite trunc_of_int by (pow_consts; lia).
  replace ((F64.min_int64 <=? n - 1) && (n - 1 <=? F64.max_int64)) with true;
    [reflexivity|].
  symmetry. apply andb_true_iff. unfold F64.min_int64, F64.max_int64.
  split; apply Z.leb_le; lia.
Qed.

(** X19.  [percentile(data, 0)], which is what [Fit] asks for with a
    contamination of 1, is the smallest element of a slice without NaN. *)
Theorem percentile_zero_is_the_minimum :
  forall data : list float64,
    data <> [] -> len data <= 2 ^ 63 -> noNaN data ->
    percentileOf F64.one = F64.zero /\
    exists m, percentile data F64.zero = Val m /\ In m data /\
              Forall (fun x => F64.leb m x = true) data.
Proof.
  intros data Hd Hlen Hnan. split; [reflexivity|].
  assert (Hn : 1 <= len data).
  { destruct data; [congruence|]. unfold len. simpl List.length. lia. }
  rewrite percentile_nonempty by exact Hd.
  rewrite percentileIndex_zero by lia.
  pose proof (insertionSort_perm data) as HP.
  pose proof (insertionSort_ascending data Hnan) as HA.
  apply ascending_strongly in HA.
  destruct (insertionSort data) as [|m sorted].
  { apply Permutation_nil in HP. congruence. }
  exists m. split; [reflexivity|].
  split; [eapply Permutation_in; [exact HP | left; reflexivity]|].
  eapply Permutation_Forall; [exact HP|].
  inversion HA as [|? ? _ HF]; subst. constructor; [|exact HF].
  apply leb_refl. unfold noNaN in Hnan. rewrite Forall_forall in Hnan.
  apply Hnan. eapply Permutation_in; [exact HP | left; reflexivity].
Qed.

Lemma StronglySorted_last {A : Type} (Rel : A -> A -> Prop) l a :
  StronglySorted Rel (l ++ [a]) -> Forall (fun x => Rel x a) l.
Proof.
  induction l as [|x l IH]; intros H; [constructor|].
  simpl in H. inversion H as [|? ? Hs Hf]; subst.
  constructor; [|apply IH; exact Hs].
  rewrite Forall_forall in Hf. apply Hf. apply in_or_app.
  right; left; reflexivity.
Qed.

(** X20.  [percentile(data, 100)], which is what [Fit] asks for when the
    contamination is so small that [1 - contamination] rounds to 1, is the
    largest element of a slice without NaN of at most [2^46] elements. *)
Theorem percentile_hundred_is_the_maximum :
  forall data : list float64,
    data <> [] -> len data <= 2 ^ 46 -> noNaN data ->
    percentileOf (F64.dec 1 20) = F64.of_int 100 /\
    exists m, percentile data (F64.of_int 100) = Val m /\ In m data /\
              Forall (fun x => F64.leb x m = true) data.
Proof.
  intros data Hd Hlen Hnan. split; [vm_compute; reflexivity|].
  assert (Hn : 1 <= len data).
  { destruct data; [congruence|]. unfold len. simpl List.length. lia. }
  rewrite percentile_nonempty by exact Hd.
  rewrite percentileIndex_hundred by lia.
  pose proof (insertionSort_perm data) as HP.
  pose proof (insertionSort_ascending data Hnan) as HA.
  apply ascending_strongly in HA.
  assert (HL : len (insertionSort data) = len data).
  { unfold len. f_equal. apply Permutation_length. exact HP. }
  destruct (exists_last (l := insertionSort data)) as (l & m & E).
  { intros E0. rewrite E0 in HP.
    apply Permutation_nil in HP. congruence. }
  rewrite E in *.
  exists m.
  assert (Hm : In m data).
  { eapply Permutation_in; [exact HP|]. apply in_or_app.
    right; left; reflexivity. }
  split.
  - unfold index. replace (len data - 1 <? 0) with false
      by (symmetry; apply Z.ltb_ge; lia).
    replace (Z.to_nat (len data - 1)) with (List.length l).
    + rewrite nth_error_app2 by lia. rewrite Nat.sub_diag. reflexivity.
    + unfold len in HL. rewrite length_app in HL. simpl in HL.
      unfold len. lia.
  - split; [exact Hm|].
    eapply Permutation_Forall; [exact HP|].
    apply Forall_app. split.
    + exact (StronglySorted_last _ _ _ HA).
    + constructor; [|constructor]. apply leb_refl.
      unfold noNaN in Hnan. rewrite Forall_forall in Hnan.
      apply Hnan. exact Hm.
Qed.

End Percentile.

(** ** The trained flag is never cleared *)

Section LifeCycle.

Context {M : GoMath} {Rand : Type} {R : GoRand Rand}.
Context {W : GobWire} {D : GobDecoder}.

Implicit Types f g : @IsolationForest Rand.

(** X16.  No method clears the trained flag: once a [Fit] or a [Load] has
    returned nil, the forest stays trained through every later call that
    returns, a [Fit] or a [Load] that fails included, and [Predict] and
    [PredictOne] never answer the not-trained error again. *)
Theorem trained_is_permanent :
  forall (f : @IsolationForest Rand) (cs : list call)
         (f' : @IsolationForest Rand) (b : bool),
    trained f = true ->
    run f cs = Some (f', b) ->
    trained f' = true /\
    (forall B, Predict f' B <> Error ErrNotTrained) /\
    (forall x, PredictOne f' x <> Error ErrNotTrained).
Proof.
  intros f cs f' b Ht H. apply run_trained in H. rewrite Ht in H.
  simpl in H. split; [exact H|].
  unfold Predict, PredictOne. rewrite H. simpl.
  split; intros x; [apply predict_no_error | apply predictOne_no_error].
Qed.

End LifeCycle.

(** ** A sample size of at most one *)

Section SmallSamples.

Context {M : GoMath} {Rand : Type} {R : GoRand Rand}.
Context {ML : MathLaws M} {RL : RandLaws R}.

Implicit Types f g : @IsolationForest Rand.

Lemma averagePathLength_small s :
  0 <= s <= 1 -> averagePathLength (F64.of_int s) = F64.zero.
Proof.
  intros H. assert (E : s = 0 \/ s = 1) by lia.
  destruct E as [->| ->]; reflexivity.
Qed.

Lemma totalPathLength_small_leaves x s n :
  0 <= s <= 1 ->
  totalPathLength x (repeat (Some {| root := Some (leaf s) |}) n) F64.zero
  = Val F64.zero.
Proof.
  intros H. induction n as [|n IH]; simpl; [reflexivity|].
  rewrite averagePathLength_small by exact H. simpl. exact IH.
Qed.

Lemma predictOne_small_leaves f x s n :
  0 <= s <= 1 ->
  trees f = repeat (Some {| root := Some (leaf s) |}) n ->
  avgPathLength f = F64.zero ->
  predictOne f x = Val F64.nan.
Proof.
  intros Hs Ht Ha. unfold predictOne. rewrite Ht, Ha.
  rewrite totalPathLength_small_leaves by exact Hs.
  cbv beta iota zeta delta [bind].
  rewrite zero_over_zero.
  rewrite Pow_NaN by exact two_is_not_one. reflexivity.
Qed.

Lemma buildTrees_small data sS nF :
  0 <= sS <= 1 -> sS <= len data ->
  forall count f,
    exists f',
      buildTrees count f data (len data) sS nF =
      Val (repeat (Some {| root := Some (leaf sS) |}) count, f').
Proof.
  intros HS HL. induction count as [|c IH]; intros f; simpl.
  - exists f; reflexivity.
  - pose proof (Perm_length (rng f) (len data) ltac:(unfold len; lia)) as PL.
    pose proof (Perm_range (rng f) (len data)) as PR.
    destruct (rand_Perm (rng f) (len data)) as [perm r].
    simpl fst in PL, PR.
    unfold slice_to.
    replace (sS <? 0) with false by (symmetry; apply Z.ltb_ge; lia).
    replace (len perm <? sS) with false by (symmetry; apply Z.ltb_ge; lia).
    simpl orb. cbv iota. cbn [bind].
    destruct (gather_Val data (firstn (Z.to_nat sS) perm)) as (sample & HG).
    { apply Forall_forall. intros i Hi. apply PR.
      eapply firstn_incl. exact Hi. }
    rewrite HG. cbn [bind].
    pose proof (gather_inv _ _ _ HG) as [GL _].
    assert (Hlen : len sample = sS).
    { unfold len in *. rewrite GL, length_firstn. lia. }
    unfold buildTree, buildNode.
    rewrite buildNode_rem_small by lia. cbn [bind]. rewrite Hlen.
    destruct (IH (set_rng (rng (set_rng r f)) (set_rng r f))) as (f' & HT).
    rewrite HT. cbn [bind]. exists f'. reflexivity.
Qed.

(** X11.  With a sample size of 1 (or 0), as [WithSampleSize(1)] sets it,
    [Fit] succeeds on every non-empty dataset, whatever its rows, and every
    score of the fitted forest is NaN: each tree is a single leaf and the
    normalisation constant is [c(1) = 0]. *)
Theorem sample_size_one_scores_NaN :
  forall (f : @IsolationForest Rand) (data : list (list float64)),
    data <> [] -> len data <= 2 ^ 63 ->
    0 <= nTrees f -> 0 <= sampleSize f <= 1 ->
    contamination f = F64.dec 1 1 \/
    F64.gtb (contamination f) F64.zero = false ->
    exists f' : @IsolationForest Rand,
      Fit f data = Val f' /\
      trained f' = true /\
      avgPathLength f' = F64.zero /\
      forall x, PredictOne f' x = Val F64.nan.
Proof.
  intros f data Hd Hlen Hn Hs Hc.
  assert (Hpos : 1 <= len data).
  { destruct data; [congruence|]. unfold len. simpl List.length. lia. }
  assert (E : exists f', Fit f data = Val f' /\
              trees f' = repeat (Some {| root := Some (leaf (sampleSize f)) |})
                                (Z.to_nat (nTrees f)) /\
              avgPathLength f' = F64.zero).
  { destruct data as [|row0 rest]; [congruence|].
    unfold Fit. set (data := row0 :: rest) in *.
    replace (nTrees f <? 0) with false by (symmetry; apply Z.ltb_ge; lia).
    replace (sampleSize f >? len data) with false
      by (symmetry; rewrite Z.gtb_ltb; apply Z.ltb_ge; lia).
    destruct (buildTrees_small data (sampleSize f) (len row0) Hs ltac:(lia)
                (Z.to_nat (nTrees f)) f) as (f1 & HB).
    rewrite HB. cbn [bind].
    pose proof (buildTrees_keeps _ _ _ _ _ _ _ _ HB) as (_ & _ & K3 & _).
    cbn [contamination set_trained set_avgPathLength set_trees].
    rewrite K3. rewrite averagePathLength_small by exact Hs.
    destruct (F64.gtb (contamination f) F64.zero) eqn:Hg.
    - destruct Hc as [Hc|Hc]; [|congruence].
      match goal with |- context [predict ?g data] =>
        rewrite (predict_constant g F64.nan data)
          by (intros x;
              apply (predictOne_small_leaves g x (sampleSize f)
                       (Z.to_nat (nTrees f)) Hs); reflexivity) end.
      cbn [bind]. unfold percentile.
      destruct (List.length data) as [|k] eqn:Ek;
        [unfold len in Hpos; lia|].
      rewrite <- Ek. rewrite insertionSort_NaN.
      unfold len at 1. rewrite repeat_length. fold (len data). rewrite Hc.
      rewrite index_repeat
        by (apply percentileIndex_default; split; assumption).
      cbn [bind]. eexists. split; [reflexivity|]. split; reflexivity.
    - eexists. split; [reflexivity|]. split; reflexivity. }
  destruct E as (f' & HF & HT & HA). exists f'.
  pose proof (Fit_trained _ _ _ HF) as Htr.
  split; [exact HF|]. split; [exact Htr|]. split; [exact HA|].
  intros x. unfold PredictOne. rewrite Htr. simpl.
  exact (predictOne_small_leaves f' x _ _ Hs HT HA).
Qed.

End SmallSamples.

(** ** Where the training rows end up *)

Section Routing.

Context {M : GoMath} {Rand : Type} {R : GoRand Rand}.

Implicit Types f g : @IsolationForest Rand.




End Routing.

(** ** Options *)

Section Options.

Context {M : GoMath} {Rand : Type} {R : GoRand Rand}.

(** X21.  [New] reads its options from left to right, each one overwriting one
    field, so that the forest depends on the options through the last
    value given for each field only; whatever the options, the forest is
    not trained, has no tree, the threshold 0.5, and the depth bound of its
    final sample size. *)
Theorem New_keeps_the_last_option :
  forall opts : list Option,
    New opts = forestOf (configOf opts) /\
    (forall o, configOf (opts ++ [o]) = configure (configOf opts) o) /\
    trained (New opts) = false /\ trees (New opts) = [] /\
    threshold (New opts) = F64.dec 5 1 /\
    maxDepth (New opts) = depthOf (sampleSize (New opts)).
Proof.
  intros opts.
  assert (E : New opts = forestOf (configOf opts)) by apply New_forestOf.
  split; [exact E|].
  split; [intros o; unfold configOf; rewrite fold_left_app; reflexivity|].
  rewrite E. repeat split.
Qed.

End Options.

(** ** The example program *)

Section ProgramRuns.

Context {M : GoMath} {Rand : Type} {R : GoRand Rand}.

Lemma normalRow_len g : len (fst (normalRow g)) = 5.
Proof.
  unfold normalRow. destruct (rand_Float64 g) as [u1 g1].
  destruct (rand_Float64 g1) as [u2 g2].
  destruct (rand_Intn g2 64000) as [k g3]. reflexivity.
Qed.

Lemma anomalyRow_len g : len (fst (anomalyRow g)) = 5.
Proof.
  unfold anomalyRow. destruct (rand_Float64 g) as [u1 g1].
  destruct (rand_Intn g1 1024) as [k1 g2].
  destruct (rand_Intn g2 1024) as [k2 g3]. reflexivity.
Qed.

Lemma mixedRow_len g : len (fst (mixedRow g)) = 5.
Proof.
  unfold mixedRow. destruct (rand_Float64 g) as [u g1].
  destruct (F64.ltb u (F64.dec 1 1));
    [apply anomalyRow_len | apply normalRow_len].
Qed.

Lemma fillRows_shape (row : Rand -> list float64 * Rand) :
  (forall g, len (fst (row g)) = 5) ->
  forall count g,
    List.length (fst (fillRows row count g)) = count /\
    Forall (fun r => len r = 5) (fst (fillRows row count g)).
Proof.
  intros Hrow. induction count as [|c IH]; intros g; simpl.
  - split; [reflexivity | constructor].
  - pose proof (Hrow g) as H1. destruct (row g) as [r g1].
    destruct (IH g1) as [I1 I2]. destruct (fillRows row c g1) as [rest g2].
    simpl in *. split; [congruence|]. constructor; assumption.
Qed.

(** X22.  [generateNormalTraffic(n)] and [generateMixedTraffic(n)] return,
    for [n >= 0], exactly [n] rows of five features each, whatever the
    generator gives; a row of normal traffic has protocol 6 and destination
    port 443. *)
Theorem generated_traffic_is_rectangular :
  forall (n : Z) (g : Rand),
    0 <= n ->
    (exists data g',
       generateNormalTraffic n g = Val (data, g') /\
       len data = n /\ Forall (fun r => len r = 5) data) /\
    (exists data g',
       generateMixedTraffic n g = Val (data, g') /\
       len data = n /\ Forall (fun r => len r = 5) data) /\
    index (fst (normalRow g)) 2 = Val (F64.of_int 6) /\
    index (fst (normalRow g)) 4 = Val (F64.of_int 443).
Proof.
  intros n g Hn. unfold generateNormalTraffic, generateMixedTraffic.
  replace (n <? 0) with false by (symmetry; apply Z.ltb_ge; exact Hn).
  split; [|split].
  - destruct (fillRows_shape normalRow normalRow_len (Z.to_nat n) g)
      as [H1 H2].
    destruct (fillRows normalRow (Z.to_nat n) g) as [data g'].
    exists data, g'. simpl in *. split; [reflexivity|].
    split; [unfold len; lia | exact H2].
  - destruct (fillRows_shape mixedRow mixedRow_len (Z.to_nat n) g)
      as [H1 H2].
    destruct (fillRows mixedRow (Z.to_nat n) g) as [data g'].
    exists data, g'. simpl in *. split; [reflexivity|].
    split; [unfold len; lia | exact H2].
  - unfold normalRow. destruct (rand_Float64 g) as [u1 g1].
    destruct (rand_Float64 g1) as [u2 g2].
    destruct (rand_Intn g2 64000) as [k g3]. split; reflexivity.
Qed.

Lemma report_Val testData t : forall scores i,
  0 <= i -> i + len scores <= len testData ->
  exists lines,
    report scores testData t i = Val lines /\
    len lines <= len scores /\
    Forall (fun l => i <= fst (fst l) < i + len scores /\
                     F64.geb (snd (fst l)) t = true /\
                     index testData (fst (fst l)) = Val (snd l)) lines.
Proof.
  induction scores as [|s scores IH]; intros i Hi Hlen; simpl.
  - exists []. split; [reflexivity|].
    split; [unfold len; simpl; lia | constructor].
  - assert (Hs : len (s :: scores) = len scores + 1)
      by (unfold len; simpl List.length; lia).
    rewrite Hs in *.
    assert (0 <= len scores) by (unfold len; lia).
    destruct (IH (i + 1) ltac:(lia) ltac:(lia)) as (lines & HR & HL & HF).
    assert (HF' : Forall (fun l => i <= fst (fst l) < i + (len scores + 1) /\
                     F64.geb (snd (fst l)) t = true /\
                     index testData (fst (fst l)) = Val (snd l)) lines).
    { eapply Forall_impl; [|exact HF]. simpl. intros l (A & B & C).
      split; [lia|]. split; assumption. }
    destruct (F64.geb s t) eqn:E.
    + destruct (index_Val testData i ltac:(lia)) as (row & Hrow & _).
      rewrite Hrow. cbn [bind]. rewrite HR. cbn [bind].
      eexists. split; [reflexivity|].
      split; [unfold len in *; simpl List.length; lia|].
      constructor; [|exact HF']. simpl. split; [lia|]. split; assumption.
    + exists lines. split; [exact HR|]. split; [lia | exact HF'].
Qed.

Context {RL : RandLaws R} {IL : IntnLaws R}.

(** X23.  The example program runs to its last line, whatever the
    package-level generator gives: neither [Fit] nor [Predict] returns an
    error or panics, so that no [panic(err)] is reached; the program scores
    100 samples, and the lines it prints are for samples of the test data
    whose score reaches the threshold of the fitted detector, at most one
    per sample. *)
Theorem main_runs_to_its_end :
  forall g : Rand,
    exists lines threshold,
      main g = Done lines (len lines) 100 threshold /\
      len lines <= 100 /\
      Forall (fun l => 0 <= fst (fst l) < 100 /\
                       F64.geb (snd (fst l)) threshold = true /\
                       len (snd l) = 5) lines.
Proof.
  intros g. unfold main, generateNormalTraffic, generateMixedTraffic.
  change (1000 <? 0) with false. change (100 <? 0) with false. cbv iota.
  destruct (fillRows_shape normalRow normalRow_len (Z.to_nat 1000) g)
    as [T1 T2].
  destruct (fillRows normalRow (Z.to_nat 1000) g) as [trainingData g1].
  simpl fst in T1, T2.
  set (detector := New [WithTrees 100; WithSampleSize 256;
                        WithContamination (F64.dec 1 1); WithSeed 42]).
  assert (Hlen : len trainingData = 1000)
    by (unfold len; rewrite T1; reflexivity).
  assert (Hne : trainingData <> []).
  { intros E. rewrite E in Hlen. discriminate. }
  assert (Hhd : len (hd [] trainingData) = 5).
  { destruct trainingData as [|r0 rest]; [congruence|].
    inversion T2; assumption. }
  assert (Hw : wide (len (hd [] trainingData)) trainingData).
  { rewrite Hhd. eapply Forall_impl; [|exact T2]. simpl. intros r Hr. lia. }
  assert (H5 : 1 <= len (hd [] trainingData)) by (rewrite Hhd; lia).
  assert (Hn : 0 <= nTrees detector) by (vm_compute; discriminate).
  assert (Hs : 0 <= sampleSize detector) by (vm_compute; discriminate).
  assert (Hc : contamination detector = F64.dec 1 1) by reflexivity.
  assert (Hb : len trainingData <= 2 ^ 63)
    by (rewrite Hlen; vm_compute; discriminate).
  destruct (Fit_rectangular_Val detector trainingData Hne H5 Hw Hn Hs
              (or_introl (conj Hc Hb)))
    as (fitted & HF).
  pose proof (Fit_trained _ _ _ HF) as Ht.
  rewrite HF.
  destruct (fillRows_shape mixedRow mixedRow_len (Z.to_nat 100) g1)
    as [S1 S2].
  destruct (fillRows mixedRow (Z.to_nat 100) g1) as [testData g2].
  simpl fst in S1, S2.
  assert (Hlen2 : len testData = 100)
    by (unfold len; rewrite S1; reflexivity).
  destruct (predict_Val fitted _ (Fit_trees_below _ _ _ HF) testData)
    as (scores & HP & HL).
  { rewrite Hhd. eapply Forall_impl; [|exact S2]. simpl. intros r Hr. lia. }
  unfold Predict. rewrite Ht. simpl negb. cbv iota. rewrite HP.
  assert (HL' : len scores = len testData) by (unfold len; congruence).
  destruct (report_Val testData (Threshold fitted) scores 0 ltac:(lia)
              ltac:(lia)) as (lines & HR & HN & HFl).
  rewrite HR. rewrite Hlen2.
  exists lines, (Threshold fitted). split; [reflexivity|].
  split; [lia|].
  eapply Forall_impl; [|exact HFl]. simpl. intros l (A & B & C).
  split; [lia|]. split; [exact B|].
  apply index_inv in C. destruct C as [_ C].
  rewrite Forall_forall in S2. apply S2. exact C.
Qed.

End ProgramRuns.

(** ** Two forests and their generators *)

Section TwoForests.

Context {M : GoMath} {Rand : Type} {R : GoRand Rand}.

Lemma putAt_length (h : @heap Rand) : forall a r,
  List.length (putAt h a r) = List.length h.
Proof.
  induction h as [|x h IH]; intros [|a] r; simpl; try reflexivity.
  rewrite IH. reflexivity.
Qed.

Lemma putAt_other (h : @heap Rand) : forall a b r,
  a <> b -> nth_error (putAt h a r) b = nth_error h b.
Proof.
  induction h as [|x h IH]; intros [|a] [|b] r Hab; simpl;
    try reflexivity; try congruence.
  apply IH. congruence.
Qed.

Lemma withRng_withRng {A B C : Type} (r : B) (s : C)
      (f : @IsolationForest A) :
  withRng s (withRng r f) = withRng s f.
Proof. reflexivity. Qed.

Lemma withRng_self (f : @IsolationForest Rand) : withRng (rng f) f = f.
Proof. destruct f; reflexivity. Qed.

Lemma applyOptionAt_spec opt (p : ForestRef) (h : @heap Rand)
      (f : @IsolationForest Rand) :
  nth_error h (rng p) = Some (rng f) -> withRng (rng f) p = f ->
  let p' := fst (applyOptionAt opt p h) in
  let h' := snd (applyOptionAt opt p h) in
  let f' := applyOption opt f in
  (exists more, h' = h ++ more) /\
  nth_error h' (rng p') = Some (rng f') /\
  withRng (rng f') p' = f' /\
  (rng p <= rng p')%nat.
Proof.
  intros Hn Hw.
  assert (Hlt : (rng p < List.length h)%nat)
    by (apply nth_error_Some; congruence).
  destruct opt; simpl.
  - split; [exists []; symmetry; apply app_nil_r|].
    split; [exact Hn|]. split; [rewrite <- Hw; reflexivity | lia].
  - split; [exists []; symmetry; apply app_nil_r|].
    split; [exact Hn|]. split; [rewrite <- Hw; reflexivity | lia].
  - split; [exists []; symmetry; apply app_nil_r|].
    split; [exact Hn|]. split; [rewrite <- Hw; reflexivity | lia].
  - split; [eexists; reflexivity|].
    split; [rewrite nth_error_app2, Nat.sub_diag by lia; reflexivity|].
    split; [rewrite <- Hw; reflexivity | lia].
Qed.

Lemma fold_applyOptionAt opts : forall (p : ForestRef) (h : @heap Rand)
                                        (f : @IsolationForest Rand),
  nth_error h (rng p) = Some (rng f) -> withRng (rng f) p = f ->
  let ph := fold_left (fun ph opt => applyOptionAt opt (fst ph) (snd ph))
                      opts (p, h) in
  let f' := fold_left (fun f opt => applyOption opt f) opts f in
  (exists more, snd ph = h ++ more) /\
  nth_error (snd ph) (rng (fst ph)) = Some (rng f') /\
  withRng (rng f') (fst ph) = f' /\
  (rng p <= rng (fst ph))%nat.
Proof.
  induction opts as [|opt opts IH]; intros p h f Hn Hw; simpl.
  - split; [exists []; symmetry; apply app_nil_r|]. auto.
  - destruct (applyOptionAt_spec opt p h f Hn Hw)
      as ((more & Hm) & H2 & H3 & H4).
    destruct (applyOptionAt opt p h) as [p1 h1] eqn:E. simpl in *.
    destruct (IH p1 h1 (applyOption opt f) H2 H3)
      as ((more' & Hm') & I2 & I3 & I4).
    split; [exists (more ++ more'); rewrite Hm', Hm, app_assoc; reflexivity|].
    split; [exact I2|]. split; [exact I3 | lia].
Qed.

(** What [NewAt] makes: the heap grows, the generator of the forest is at
    an address that was not in use, and the forest behind the reference is
    the one [New] builds. *)
Lemma NewAt_spec opts (h : @heap Rand) p h' :
  NewAt opts h = (p, h') ->
  (exists more, h' = h ++ more) /\
  (List.length h <= rng p < List.length h')%nat /\
  deref h' p = Some (New opts).
Proof.
  unfold NewAt, newRand. intros H.
  match type of H with context [fold_left ?F opts ?i] =>
    destruct (fold_left F opts i) as [p1 h1] eqn:E end.
  inversion H; subst. clear H.
  pose proof (fold_applyOptionAt opts
                {| nTrees := 100; sampleSize := 256;
                   contamination := F64.dec 1 1; threshold := F64.dec 5 1;
                   maxDepth := 0; rng := List.length h; trees := [];
                   trained := false; avgPathLength := F64.zero |}
                (h ++ [rand_New 42])
                {| nTrees := 100; sampleSize := 256;
                   contamination := F64.dec 1 1; threshold := F64.dec 5 1;
                   maxDepth := 0; rng := rand_New 42; trees := [];
                   trained := false; avgPathLength := F64.zero |}) as K.
  cbv zeta in K.
  match type of K with context [fold_left ?F opts ?i] =>
    assert (E' : fold_left F opts i = (p1, h')) by exact E
  end.
  rewrite E' in K. clear E E'.
  destruct K as ((more & Hm) & H2 & H3 & H4).
  { simpl. rewrite nth_error_app2, Nat.sub_diag by lia. reflexivity. }
  { reflexivity. }
  simpl in *. subst h'.
  split; [exists ([rand_New 42] ++ more); rewrite <- app_assoc; reflexivity|].
  assert (Hlt : (rng p1 < List.length ((h ++ [rand_New 42]) ++ more))%nat).
  { apply nth_error_Some. congruence. }
  split; [rewrite !length_app in *; simpl in *; lia|].
  unfold deref. simpl. rewrite H2. rewrite New_unfold.
  f_equal. rewrite <- H3. reflexivity.
Qed.

Lemma predict_withRng {A B : Type} (r : B) (f : @IsolationForest A) batch :
  predict (withRng r f) batch = predict f batch.
Proof.
  induction batch as [|x rest IH]; [reflexivity|].
  cbn [predict]. rewrite IH. reflexivity.
Qed.

Lemma Predict_withRng {A B : Type} (r : B) (f : @IsolationForest A) batch :
  Predict (withRng r f) batch = Predict f batch.
Proof.
  unfold Predict. rewrite predict_withRng. reflexivity.
Qed.

Lemma FitAt_Val (p : ForestRef) data (h : @heap Rand) p' h' :
  FitAt p data h = Val (p', h') ->
  exists f f',
    deref h p = Some f /\ Fit f data = Val f' /\
    p' = withRng (rng p) f' /\ h' = putAt h (rng p) (rng f').
Proof.
  unfold FitAt. destruct (deref h p) as [f|]; [|discriminate].
  intros H. inv_bind H. inversion H; subst.
  exists f, a. auto.
Qed.

Lemma deref_ext (h h' : @heap Rand) (p : ForestRef) :
  nth_error h' (rng p) = nth_error h (rng p) -> deref h' p = deref h p.
Proof. unfold deref. intros ->. reflexivity. Qed.

Lemma deref_grow (h more : @heap Rand) (p : ForestRef) f :
  deref h p = Some f -> deref (h ++ more) p = Some f.
Proof.
  unfold deref. destruct (nth_error h (rng p)) as [r|] eqn:E;
    [|discriminate].
  rewrite nth_error_app1 by (apply nth_error_Some; congruence).
  rewrite E. trivial.
Qed.

(** [Fit] on a reference whose generator is as [New] left it. *)
Lemma FitAt_fresh opts (p : ForestRef) data (h : @heap Rand) :
  deref h p = Some (New opts) ->
  FitAt p data h =
  (f' <- Fit (New opts) data ;;
   Val (withRng (rng p) f', putAt h (rng p) (rng f'))).
Proof. unfold FitAt. intros ->. reflexivity. Qed.

Lemma Fit_Val_model (f f' : @IsolationForest Rand) data :
  Fit f data = Val f' ->
  trained f' = true /\ len (trees f') = nTrees f.
Proof.
  intros H. pose proof (Fit_trained _ _ _ H) as Ht.
  apply Fit_trees in H. destruct H as (f1 & Hb & Hn & _).
  apply buildTrees_keeps in Hb.
  destruct Hb as (_ & _ & _ & _ & _ & _ & _ & _ & HL).
  split; [exact Ht|]. unfold len. rewrite HL. lia.
Qed.

(** C9.  Two forests constructed in the same program from options that
    denote the same configuration, seed included, hold two generators at
    two addresses, each in the state of the seed.  When both are fitted on
    the same dataset, the second after the first, and whether the second is
    constructed before or after the first is fitted, the [Fit] of the first
    leaves the generator of the second untouched: if the first [Fit]
    returns, so does the second, the two forests are trained, hold the
    configured number of trees and are equal in every field but the address
    of the generator, and [PredictOne] and [Predict] give the same scores,
    bit for bit, on both. *)
Theorem Fit_deterministic_in_seed :
  forall (opts1 opts2 : list Option) (data : list (list float64))
         (h0 : @heap Rand),
    configOf opts1 = configOf opts2 ->
    let same (a' b' : ForestRef) :=
      rng a' <> rng b' /\
      withRng (rng b') a' = b' /\
      trained a' = true /\ trained b' = true /\
      len (trees a') = n_trees (configOf opts1) /\
      (forall x, PredictOne a' x = PredictOne b' x) /\
      (forall B, Predict a' B = Predict b' B) in
    (forall a h1 b h2 a' h3,
       NewAt opts1 h0 = (a, h1) -> NewAt opts2 h1 = (b, h2) ->
       FitAt a data h2 = Val (a', h3) ->
       exists b' h4, FitAt b data h3 = Val (b', h4) /\ same a' b') /\
    (forall a h1 a' h2 b h3,
       NewAt opts1 h0 = (a, h1) -> FitAt a data h1 = Val (a', h2) ->
       NewAt opts2 h2 = (b, h3) ->
       exists b' h4, FitAt b data h3 = Val (b', h4) /\ same a' b').
Proof.
  intros opts1 opts2 data h0 Hc same.
  assert (HN : New opts1 = New opts2 :> @IsolationForest Rand).
  { rewrite !New_forestOf, Hc. reflexivity. }
  assert (Hn : nTrees (New opts1 : @IsolationForest Rand)
               = n_trees (configOf opts1)).
  { rewrite New_forestOf. reflexivity. }
  assert (Key : forall (a b : ForestRef) (f' : @IsolationForest Rand) hb,
            rng a <> rng b ->
            Fit (New opts1) data = Val f' ->
            deref hb b = Some (New opts2) ->
            exists b' h4, FitAt b data hb = Val (b', h4) /\
                          same (withRng (rng a) f') b').
  { intros a b f' hb Hab HF Hb.
    rewrite (FitAt_fresh opts2 b data hb Hb), <- HN, HF. cbn [bind].
    do 2 eexists. split; [reflexivity|].
    destruct (Fit_Val_model _ _ _ HF) as [Ht HL].
    unfold same. simpl. repeat split; try assumption.
    - rewrite HL. exact Hn.
    - intros B. rewrite !Predict_withRng. reflexivity. }
  split.
  - intros a h1 b h2 a' h3 Ha Hb HFa.
    destruct (NewAt_spec _ _ _ _ Ha) as ((m1 & E1) & La & Da).
    destruct (NewAt_spec _ _ _ _ Hb) as ((m2 & E2) & Lb & Db).
    assert (Hab : rng a <> rng b) by lia.
    apply FitAt_Val in HFa.
    destruct HFa as (f & f' & Df & HF & -> & ->).
    rewrite E2 in Df. rewrite (deref_grow _ _ _ _ Da) in Df.
    inversion Df; subst f.
    apply (Key a b f' _ Hab HF).
    rewrite <- Db. apply deref_ext. apply putAt_other. exact Hab.
  - intros a h1 a' h2 b h3 Ha HFa Hb.
    destruct (NewAt_spec _ _ _ _ Ha) as ((m1 & E1) & La & Da).
    destruct (NewAt_spec _ _ _ _ Hb) as ((m2 & E2) & Lb & Db).
    apply FitAt_Val in HFa.
    destruct HFa as (f & f' & Df & HF & -> & ->).
    rewrite Da in Df. inversion Df; subst f.
    rewrite putAt_length in Lb.
    assert (Hab : rng a <> rng b) by lia.
    apply (Key a b f' _ Hab HF). exact Db.
Qed.

End TwoForests.

(** ** The trained flag across panics *)

Section Recovered.

Context {M : GoMath} {Rand : Type} {R : GoRand Rand}.
Context {W : GobWire} {D : GobDecoder}.

Implicit Types f g : @IsolationForest Rand.

Lemma Fit_Error_empty f data e : Fit f data = Error e -> data = [].
Proof.
  destruct data as [|row0 rest]; [reflexivity|].
  intros H. exfalso. revert H. unfold Fit.
  destruct (nTrees f <? 0); [discriminate|].
  apply bind_not_Error; [apply buildTrees_no_error|].
  intros [ts f1].
  match goal with |- context [F64.gtb ?c F64.zero] =>
    destruct (F64.gtb c F64.zero) end; [|discriminate].
  apply bind_not_Error; [apply predict_no_error|]. intros scores.
  apply bind_not_Error; [|discriminate].
  unfold percentile. destruct scores; [discriminate|].
  apply index_no_error.
Qed.

Lemma FitReceiver_Val f data f' : Fit f data = Val f' -> FitReceiver f data = f'.
Proof.
  unfold Fit, FitReceiver. destruct data as [|row0 rest]; [discriminate|].
  destruct (nTrees f <? 0); [discriminate|].
  match goal with |- context [buildTrees ?c ?g ?d ?a ?b ?n] =>
    destruct (buildTrees c g d a b n) as [[ts f1]|e|p] end;
    cbn [bind]; try discriminate.
  match goal with |- context [F64.gtb ?c F64.zero] =>
    destruct (F64.gtb c F64.zero) end.
  - match goal with |- context [predict ?g ?d] =>
      destruct (predict g d) as [scores|e|p] end;
      cbn [bind]; try discriminate.
    match goal with |- context [percentile ?s ?q] =>
      destruct (percentile s q) as [t|e|p] end;
      cbn [bind]; try discriminate.
    intros H; inversion H; reflexivity.
  - intros H; inversion H; reflexivity.
Qed.

Lemma FitReceiver_trained f data :
  trained (FitReceiver f data) = trained f || reaches f (CallFit data).
Proof.
  unfold FitReceiver, reaches. destruct data as [|row0 rest].
  { symmetry; apply orb_false_r. }
  destruct (nTrees f <? 0); [symmetry; apply orb_false_r|].
  match goal with |- context [buildTrees ?c ?g ?d ?a ?b ?n] =>
    destruct (buildTrees c g d a b n) as [[ts f1]|e|p] end.
  - rewrite orb_true_r.
    match goal with |- context [F64.gtb ?c F64.zero] =>
      destruct (F64.gtb c F64.zero) end; [|reflexivity].
    match goal with |- context [bind ?c ?k] =>
      destruct (bind c k) end; reflexivity.
  - rewrite orb_false_r.
    match goal with |- context [buildTrees_end ?c ?g ?d ?a ?b ?n] =>
      destruct (buildTrees_end c g d a b n) as [built r] end.
    reflexivity.
  - rewrite orb_false_r.
    match goal with |- context [buildTrees_end ?c ?g ?d ?a ?b ?n] =>
      destruct (buildTrees_end c g d a b n) as [built r] end.
    reflexivity.
Qed.

Lemma stepAll_trained f c :
  trained (stepAll f c) = trained f || reaches f c.
Proof.
  destruct c; simpl stepAll;
    try (simpl; symmetry; apply orb_false_r).
  - apply FitReceiver_trained.
  - pose proof (Load_result f blob) as L. simpl in L. simpl reaches.
    destruct (snd (Load f blob)).
    + destruct L as (L & _). rewrite L. symmetry; apply orb_false_r.
    + rewrite L. symmetry; apply orb_true_r.
Qed.

Lemma runAll_trained cs : forall f f' h,
  runAll f cs = (f', h) -> trained f' = trained f || reached h.
Proof.
  induction cs as [|c cs IH]; intros f f' h H; simpl in H.
  - inversion H; subst. symmetry; apply orb_false_r.
  - destruct (runAll (stepAll f c) cs) as [f1 h1] eqn:E.
    inversion H; subst. simpl.
    rewrite (IH _ _ _ E), stepAll_trained, orb_assoc. reflexivity.
Qed.

Lemma succeeds_reaches f c : succeeds f c = true -> reaches f c = true.
Proof.
  destruct c; simpl; try discriminate; [|trivial].
  destruct (Fit f data) as [f'|e|p] eqn:E; try discriminate. intros _.
  apply Fit_Val in E.
  destruct E as (ts & f1 & sS & Hd & HS & Hn & Hb & _).
  destruct data as [|row0 rest]; [congruence|].
  replace (nTrees f <? 0) with false by (symmetry; apply Z.ltb_ge; exact Hn).
  simpl hd in Hb. rewrite HS in Hb. rewrite Hb. reflexivity.
Qed.

Lemma quiet_reaches f c :
  panics f c = false -> reaches f c = succeeds f c.
Proof.
  destruct c; simpl; try reflexivity.
  destruct (Fit f data) as [f'|e|p] eqn:E; try discriminate; intros _.
  - apply (succeeds_reaches f (CallFit data)). simpl. rewrite E. reflexivity.
  - apply Fit_Error_empty in E. subst. reflexivity.
Qed.

Lemma runAll_flags cs : forall f f' h,
  runAll f cs = (f', h) ->
  (completed h = true -> reached h = true) /\
  (panicked h = false -> reached h = completed h).
Proof.
  induction cs as [|c cs IH]; intros f f' h H; simpl in H.
  - inversion H; subst. simpl. split; [discriminate | reflexivity].
  - destruct (runAll (stepAll f c) cs) as [f1 h1] eqn:E.
    inversion H; subst. simpl. destruct (IH _ _ _ E) as [I1 I2]. split.
    + intros Hc. apply orb_true_iff in Hc. apply orb_true_iff.
      destruct Hc as [Hc|Hc]; [left; apply succeeds_reaches; exact Hc|].
      right; apply I1; exact Hc.
    + intros Hp. apply orb_false_iff in Hp. destruct Hp as [P1 P2].
      rewrite (quiet_reaches _ _ P1), (I2 P2). reflexivity.
Qed.

Lemma step_stepAll f c f1 :
  step f c = Some f1 -> stepAll f c = f1 /\ panics f c = false.
Proof.
  destruct c; simpl.
  - destruct (Fit f data) as [f'|e|p] eqn:E; intros H; inversion H; subst.
    + split; [apply FitReceiver_Val; exact E | reflexivity].
    + apply Fit_Error_empty in E. subst. split; reflexivity.
  - intros H; inversion H; auto.
  - intros H; inversion H; auto.
  - destruct (Predict f data); intros H; inversion H; auto.
  - destruct (PredictOne f sample); intros H; inversion H; auto.
  - destruct (Save f); intros H; inversion H; auto.
  - destruct (snd (PredictStream f events)); intros H; inversion H; auto.
Qed.

Lemma run_runAll cs : forall f f' b,
  run f cs = Some (f', b) ->
  runAll f cs = (f', {| completed := b; reached := b; panicked := false |}).
Proof.
  induction cs as [|c cs IH]; intros f f' b H; simpl in H.
  - inversion H; subst. reflexivity.
  - destruct (step f c) as [f1|] eqn:E1; [|discriminate].
    destruct (run f1 cs) as [[f2 b2]|] eqn:E2; [|discriminate].
    inversion H; subst.
    destruct (step_stepAll _ _ _ E1) as [S1 S2].
    simpl. rewrite S1, (IH _ _ _ E2). simpl.
    rewrite S2, (quiet_reaches _ _ S2). reflexivity.
Qed.

(** C7, as amended.  After any calls on a forest built by [New], each
    panic recovered from, the trained flag is on exactly when one of the
    calls was a [Fit] that got past its loop, to the line that sets
    [f.trained], or a [Load] that returned nil.  A [Fit] or [Load] that
    returned nil is such a call, and when no call has panicked there is no
    other: a forest on which no [Fit] and no [Load] has returned nil and no
    call has panicked has the flag off.  With the flag off, [Predict],
    [PredictOne] and [Save] return the not-trained error; and for any
    forest, [Predict] and [PredictOne] return that error exactly when the
    flag is off.  The sequences of calls that all return are those of
    [run], with the same forest at the end. *)
Theorem NotTrained_until_trained_is_set :
  forall (opts : list Option) (cs : list call)
         (f : @IsolationForest Rand) (h : past),
    runAll (New opts) cs = (f, h) ->
    trained f = reached h /\
    (completed h = true -> reached h = true) /\
    (panicked h = false -> reached h = completed h) /\
    (reached h = false ->
     (forall B, Predict f B = Error ErrNotTrained) /\
     (forall x, PredictOne f x = Error ErrNotTrained) /\
     Save f = Error ErrNotTrained) /\
    (forall (g : @IsolationForest Rand) B,
        Predict g B = Error ErrNotTrained <-> trained g = false) /\
    (forall (g : @IsolationForest Rand) x,
        PredictOne g x = Error ErrNotTrained <-> trained g = false) /\
    (forall (f' : @IsolationForest Rand) b,
        run (New opts) cs = Some (f', b) ->
        f' = f /\ completed h = b /\ panicked h = false).
Proof.
  intros opts cs f h H.
  pose proof (runAll_trained _ _ _ _ H) as Ht.
  rewrite New_untrained in Ht. simpl in Ht.
  destruct (runAll_flags _ _ _ _ H) as [F1 F2].
  split; [exact Ht|]. split; [exact F1|]. split; [exact F2|].
  split; [|split; [|split]].
  - intros Hr. rewrite Hr in Ht.
    unfold Predict, PredictOne, Save. rewrite Ht. simpl. auto.
  - intros g B. unfold Predict. split.
    + destruct (trained g); simpl; [|reflexivity].
      intros E; exfalso; exact (predict_no_error _ _ _ E).
    + intros ->; reflexivity.
  - intros g x. unfold PredictOne. split.
    + destruct (trained g); simpl; [|reflexivity].
      intros E; exfalso; exact (predictOne_no_error _ _ _ E).
    + intros ->; reflexivity.
  - intros f' b Hrun. apply run_runAll in Hrun. rewrite H in Hrun.
    inversion Hrun; subst. auto.
Qed.

End Recovered.

(** ** The statements on concrete runs *)

Section Runs.

#[local] Existing Instance RefMath.math.
#[local] Existing Instance RefRand.rand.
#[local] Existing Instance RefGob.wire.
#[local] Existing Instance RefGob.dec.

Lemma example_forest_trained : trained Example.forest = true.
Proof. vm_compute. reflexivity. Qed.

Lemma example_scores b :
  Predict Example.forest b = Val (Example.scoresOf Example.forest b) ->
  Forall2 (fun x v => PredictOne Example.forest x = Val v)
          b (Example.scoresOf Example.forest b).
Proof. apply PredictOne_each. exact example_forest_trained. Qed.

Lemma Predict_is_PredictOne_pointwise_witness :
  trained Example.forest = true /\
  (Predict Example.forest Example.batch
     = Val (Example.scoresOf Example.forest Example.batch) <->
   Forall2 (fun x v => PredictOne Example.forest x = Val v)
           Example.batch
           (Example.scoresOf Example.forest Example.batch)).
Proof.
  assert (Ht : trained Example.forest = true) by (vm_compute; reflexivity).
  split; [exact Ht|].
  exact (Predict_is_PredictOne_pointwise
           Example.forest Example.batch
           (Example.scoresOf Example.forest Example.batch) Ht).
Defined.

(** C7, the claim as stated fails: with a contamination of 2 the
    percentile is negative and [Fit] panics in [percentile], after it has
    set the trained flag.  For a caller that recovers from the panic no
    [Fit] and no [Load] has returned nil on the forest, and [Predict]
    returns scores. *)
Lemma Fit_panic_leaves_forest_trained :
  let f : Example.Forest := New Example3.unfitOpts in
  Fit f Example.data = Panic IndexOutOfRange /\
  succeeds f (CallFit Example.data) = false /\
  run f [CallFit Example.data] = None /\
  runAll f [CallFit Example.data]
  = (Example3.recovered,
     {| completed := false; reached := true; panicked := true |}) /\
  trained f = false /\
  trained Example3.recovered = true /\
  Predict Example3.recovered Example.batch
  = Val (Example.scoresOf Example3.recovered Example.batch) /\
  len (Example.scoresOf Example3.recovered Example.batch) = 3 /\
  PredictOne Example3.recovered [Example.num 1; Example.num 1]
  <> Error ErrNotTrained /\
  Save Example3.recovered <> Error ErrNotTrained.
Proof.
  vm_compute. repeat split; intros H; discriminate H.
Qed.

Lemma NotTrained_until_trained_is_set_witness :
  let f : Example.Forest := SetThreshold (New []) (F64.dec 7 1) in
  let h := {| completed := false; reached := false; panicked := false |} in
  runAll (New []) Example.idleCalls = (f, h) /\
  trained f = false /\
  (forall B, Predict f B = Error ErrNotTrained) /\
  (forall x, PredictOne f x = Error ErrNotTrained) /\
  Save f = Error ErrNotTrained /\
  run (New []) Example.idleCalls = Some (f, false).
Proof.
  intros f h.
  assert (H : runAll (New []) Example.idleCalls = (f, h))
    by (vm_compute; reflexivity).
  assert (Hr : run (New []) Example.idleCalls = Some (f, false))
    by (vm_compute; reflexivity).
  destruct (NotTrained_until_trained_is_set [] Example.idleCalls f h H)
    as (H1 & _ & _ & H4 & _).
  destruct (H4 eq_refl) as (P1 & P2 & P3).
  split; [exact H|]. split; [exact H1|]. split; [exact P1|].
  split; [exact P2|]. split; [exact P3 | exact Hr].
Defined.

Lemma PredictStream_scores_in_input_order_witness :
  let f := Example.forest in
  let scores := Example.scoresOf f Example.batch in
  trained f = true /\
  Forall2 (fun s v => PredictOne f s = Val v) Example.batch scores /\
  PredictStream f (map (fun s => Received s Sent) Example.batch ++ [Closed])
  = (map (fun sv => {| Value := snd sv;
                      IsAnomaly := F64.geb (snd sv) (threshold f);
                      Features := fst sv |})
         (combine Example.batch scores),
     Returned None).
Proof.
  intros f scores.
  assert (Ht : trained f = true) by (vm_compute; reflexivity).
  assert (Hs : Forall2 (fun s v => PredictOne f s = Val v)
                       Example.batch scores)
    by (apply example_scores; vm_compute; reflexivity).
  split; [exact Ht|]. split; [exact Hs|].
  exact (proj1 (PredictStream_scores_in_input_order
                  f Example.batch scores Ht Hs)).
Defined.

Lemma Save_refused_by_gob_witness :
  trained Example.forest = true /\
  Save Example.forest = Error noExportedFields.
Proof.
  assert (Ht : trained Example.forest = true) by (vm_compute; reflexivity).
  split; [exact Ht|].
  exact (proj1 (Save_refused_by_gob Example.forest Ht)).
Defined.

Lemma single_row_scores_NaN_witness :
  let f : Example.Forest := New [WithTrees 10; WithSeed 42] in
  0 <= nTrees f /\ 1 <= sampleSize f /\ contamination f = F64.dec 1 1 /\
  exists f' : Example.Forest,
    Fit f [Example.singleRow] = Val f' /\
    trained f' = true /\
    forall x, PredictOne f' x = Val F64.nan /\
              inUnitInterval F64.nan = false.
Proof.
  intros f.
  assert (H1 : 0 <= nTrees f) by (vm_compute; discriminate).
  assert (H2 : 1 <= sampleSize f) by (vm_compute; discriminate).
  assert (H3 : contamination f = F64.dec 1 1) by reflexivity.
  split; [exact H1|]. split; [exact H2|]. split; [exact H3|].
  exact (single_row_scores_NaN f Example.singleRow H1 H2 H3).
Defined.

(** C3, the claim as stated fails: in the single-sample case of [TestFit]
    the effective sample size is 1, whose logarithm is 0, and [max_depth]
    is 8 after [Fit], the logarithm of the configured 256. *)
Lemma maxDepth_is_not_effective_depth :
  let f : Example.Forest := New [WithTrees 10; WithSeed 42] in
  Fit f [Example.singleRow] = Val Example.singleForest /\
  effectiveDepth (sampleSize f) (len [Example.singleRow]) = 0 /\
  maxDepth Example.singleForest = 8.
Proof. vm_compute. repeat split. Qed.

Lemma maxDepth_from_configured_sampleSize_witness :
  let opts := [WithTrees 10; WithSeed 42] in
  Fit (New opts) [Example.singleRow] = Val Example.singleForest /\
  maxDepth Example.singleForest = maxDepth (New opts) /\
  maxDepth Example.singleForest = depthOf (sample_size (configOf opts)) /\
  (forall k, 0 <= k <= 62 -> sample_size (configOf opts) = 2 ^ k ->
             maxDepth Example.singleForest = k).
Proof.
  intros opts.
  assert (H : Fit (New opts) [Example.singleRow] = Val Example.singleForest)
    by (vm_compute; reflexivity).
  split; [exact H|].
  exact (maxDepth_from_configured_sampleSize
           RefMath_laws opts [Example.singleRow] Example.singleForest H).
Defined.

Lemma Fit_deterministic_in_seed_witness :
  let a := fst Example3.made1 in
  let h1 := snd Example3.made1 in
  let b := fst Example3.made2 in
  let h2 := snd Example3.made2 in
  let a' := fst Example3.fit1 in
  let h3 := snd Example3.fit1 in
  configOf Example3.opts1 = configOf Example3.opts2 /\
  NewAt Example3.opts1 [] = (a, h1) /\
  NewAt Example3.opts2 h1 = (b, h2) /\
  FitAt a Example.data h2 = Val (a', h3) /\
  exists (b' : ForestRef) (h4 : @heap Z),
    FitAt b Example.data h3 = Val (b', h4) /\
    rng a' <> rng b' /\
    withRng (rng b') a' = b' /\
    trained a' = true /\ trained b' = true /\
    len (trees a') = n_trees (configOf Example3.opts1) /\
    (forall x, PredictOne a' x = PredictOne b' x) /\
    (forall B, Predict a' B = Predict b' B).
Proof.
  intros a h1 b h2 a' h3.
  assert (Hc : configOf Example3.opts1 = configOf Example3.opts2)
    by reflexivity.
  assert (Ha : NewAt Example3.opts1 [] = (a, h1))
    by apply surjective_pairing.
  assert (Hb : NewAt Example3.opts2 h1 = (b, h2))
    by apply surjective_pairing.
  assert (HF : FitAt a Example.data h2 = Val (a', h3))
    by (vm_compute; reflexivity).
  pose proof (Fit_deterministic_in_seed
                Example3.opts1 Example3.opts2 Example.data [] Hc) as K.
  cbv zeta in K. destruct K as [K _].
  split; [exact Hc|]. split; [exact Ha|]. split; [exact Hb|].
  split; [exact HF|].
  exact (K a h1 b h2 a' h3 Ha Hb HF).
Defined.

(** C4, the claim as stated fails: on a blob that holds the encoding of
    one int and nothing else, [Load] fails at the second field and leaves
    [n_trees] at the decoded 7 instead of the 100 it was. *)
Lemma Load_failure_is_not_atomic :
  let f : Example.Forest := New [] in
  snd (Load f Example.sevenOnly) = Some (ErrGob "EOF") /\
  nTrees f = 100 /\
  nTrees (fst (Load f Example.sevenOnly)) = 7 /\
  fst (Load f Example.sevenOnly) <> f.
Proof.
  vm_compute. repeat split. intros H. discriminate H.
Qed.

Lemma Load_failure_keeps_later_fields_witness :
  let f : Example.Forest := New [] in
  let f' := fst (Load f Example.sevenOnly) in
  snd (Load f Example.sevenOnly) = Some (ErrGob "EOF") /\
  exists (x : field) (dec dec' : decoder) (g : Example.Forest),
    decodeFields (firstn (position x) loadOrder)
                 (gob_NewDecoder Example.sevenOnly) f
    = (dec, g, None) /\
    decodeField x dec g = (dec', f', Some (ErrGob "EOF")) /\
    keptAfter x f f' /\
    (forall y, (position y < position x)%nat -> sameField y g f').
Proof.
  intros f f'.
  assert (H : snd (Load f Example.sevenOnly) = Some (ErrGob "EOF"))
    by (vm_compute; reflexivity).
  split; [exact H|].
  exact (Load_failure_keeps_later_fields f Example.sevenOnly _ H).
Defined.

(** C5, the claim as stated fails.  With a contamination of 0.9 and eleven
    samples the integer part of [(n-1)(1-c)] is 1; in float64 [100*(1-0.9)]
    is below 10, the index [Fit] computes is 0, and the threshold is the
    smallest training score, not the next one.  If [c] is read as the
    float64 value itself, the default contamination, which is above 0.1,
    gives 8 for eleven samples, and [Fit] takes the score of index 9. *)
Lemma threshold_index_is_not_the_floor :
  let scores := Example.scoresOf Example3.skewedForest Example3.eleven in
  let scores' := Example.scoresOf Example3.plainForest Example3.eleven in
  len Example3.eleven = 11 /\
  (Fit Example3.skewed Example3.eleven = Val Example3.skewedForest /\
   contamination Example3.skewed = F64.dec 9 1 /\
   F64.gtb (contamination Example3.skewed) F64.zero = true /\
   Predict Example3.skewedForest Example3.eleven = Val scores /\
   floorIndex 11 9 10 = 1 /\
   percentileIndex 11 (percentileOf (F64.dec 9 1)) = 0 /\
   index (insertionSort scores) 0 = Val (threshold Example3.skewedForest) /\
   index (insertionSort scores) 1
   <> Val (threshold Example3.skewedForest)) /\
  (Fit Example3.plain Example3.eleven = Val Example3.plainForest /\
   contamination Example3.plain
   = S754_finite false 7205759403792794 (-56) /\
   Predict Example3.plainForest Example3.eleven = Val scores' /\
   floorIndex 11 7205759403792794 (2 ^ 56) = 8 /\
   percentileIndex 11 (percentileOf (contamination Example3.plain)) = 9 /\
   index (insertionSort scores') 9 = Val (threshold Example3.plainForest) /\
   index (insertionSort scores') 8
   <> Val (threshold Example3.plainForest)).
Proof.
  vm_compute. repeat split; intros H; discriminate H.
Qed.

Lemma Fit_calibrates_threshold_witness :
  let f : Example.Forest := New [WithTrees 3; WithSeed 42] in
  Fit f Example.data = Val Example.forest /\
  F64.gtb (contamination f) F64.zero = true /\
  exists scores : list float64,
    Predict Example.forest Example.data = Val scores /\
    Permutation (insertionSort scores) scores /\
    (noNaN scores -> ascending (insertionSort scores)) /\
    index (insertionSort scores)
          (percentileIndex (len Example.data)
                           (percentileOf (contamination f)))
    = Val (threshold Example.forest) /\
    percentileIndex (len Example.data) (percentileOf (contamination f))
    = 9 * (len Example.data - 1) / 10.
Proof.
  intros f.
  assert (H : Fit f Example.data = Val Example.forest)
    by (vm_compute; reflexivity).
  assert (Hc : F64.gtb (contamination f) F64.zero = true)
    by (vm_compute; reflexivity).
  split; [exact H|]. split; [exact Hc|].
  destruct (Fit_calibrates_threshold f Example.data Example.forest H)
    as (H1 & _ & _ & H4).
  destruct (H1 Hc) as (scores & Hs).
  exists scores. repeat (split; [apply Hs|]).
  apply H4; [reflexivity | vm_compute; discriminate].
Defined.

Lemma zero_trees_score_NaN_witness :
  (forall n, nTrees (New ([] ++ [WithTrees n])) = n) /\
  exists f' : Example.Forest,
    Fit (New [WithTrees 0]) Example.data = Val f' /\
    trained f' = true /\
    trees f' = [] /\
    forall x, PredictOne f' x = Val F64.nan /\
              inUnitInterval F64.nan = false.
Proof.
  destruct (zero_trees_score_NaN [] Example.data) as [H1 H2].
  split; [exact H1|].
  apply H2; [discriminate | vm_compute; discriminate | left; reflexivity].
Defined.

End Runs.

(** ** Further statements on concrete runs *)

Section Runs2.

#[local] Existing Instance RefMath.math.
#[local] Existing Instance RefRand.rand.
#[local] Existing Instance RefGob.wire.
#[local] Existing Instance RefGob.dec.

Lemma example_fit :
  Fit (New [WithTrees 3; WithSeed 42] : Example.Forest) Example.data
  = Val Example.forest.
Proof. vm_compute. reflexivity. Qed.

Lemma example_built :
  buildNode (New [WithSeed 42] : Example.Forest) Example.data 2 0
  = Val (fst Example2.built, snd Example2.built).
Proof. vm_compute. reflexivity. Qed.

Lemma example_wide : wide 2 Example.data.
Proof. repeat constructor; vm_compute; discriminate. Qed.

Lemma buildNode_leaf_sizes_add_up_witness :
  buildNode (New [WithSeed 42] : Example.Forest) Example.data 2 0
  = Val (fst Example2.built, snd Example2.built) /\
  leafTotal (fst Example2.built) = len Example.data.
Proof.
  split; [exact example_built|].
  exact (buildNode_leaf_sizes_add_up _ _ _ _ _ _ example_built).
Defined.

Lemma Fit_keeps_configuration_witness :
  let f : Example.Forest := New [WithTrees 3; WithSeed 42] in
  Fit f Example.data = Val Example.forest /\
  nTrees Example.forest = 3 /\ len (trees Example.forest) = 3 /\
  trained Example.forest = true.
Proof.
  intros f.
  destruct (Fit_keeps_configuration f Example.data Example.forest example_fit)
    as (H1 & _ & _ & _ & H5 & H6 & _).
  split; [exact example_fit|]. split; [exact H1|].
  split; [exact H6 | exact H5].
Defined.

Lemma buildNode_tree_takes_wide_samples_witness :
  buildNode (New [WithSeed 42] : Example.Forest) Example.data 2 0
  = Val (fst Example2.built, snd Example2.built) /\
  splitsBelow 2 (fst Example2.built) = true /\
  exists v, pathLength [Example.num 7; Example.num 7; Example.num 7]
                       (Some (fst Example2.built)) 0 = Val v.
Proof.
  destruct (buildNode_tree_takes_wide_samples
              (IL := RefRand_Intn_laws) _ _ _ _ _ _ example_built)
    as [H1 H2].
  split; [exact example_built|]. split; [exact H1|].
  apply H2. vm_compute. discriminate.
Defined.

Lemma Fit_trees_hold_the_sample_witness :
  let f : Example.Forest := New [WithTrees 3; WithSeed 42] in
  Fit f Example.data = Val Example.forest /\
  Forall (fun t => exists n,
            rootOf t = Some n /\
            leafTotal n = Z.min (sampleSize f) (len Example.data) /\
            0 <= height n <= Z.max 0 (maxDepth f) /\
            splitsBelow (len (hd [] Example.data)) n = true)
         (trees Example.forest).
Proof.
  intros f. split; [exact example_fit|].
  exact (Fit_trees_hold_the_sample
           (IL := RefRand_Intn_laws) f Example.data Example.forest
           example_fit).
Defined.

Lemma Predict_returns_after_Fit_witness :
  let f : Example.Forest := New [WithTrees 3; WithSeed 42] in
  Fit f Example.data = Val Example.forest /\
  wide (len (hd [] Example.data)) Example.batch /\
  exists scores, Predict Example.forest Example.batch = Val scores /\
                 len scores = len Example.batch.
Proof.
  intros f.
  assert (Hw : wide (len (hd [] Example.data)) Example.batch)
    by (repeat constructor; vm_compute; discriminate).
  split; [exact example_fit|]. split; [exact Hw|].
  exact (proj2 (Predict_returns_after_Fit
                  (IL := RefRand_Intn_laws) f Example.data Example.forest
                  example_fit) Example.batch Hw).
Defined.

Lemma Fit_returns_on_rectangular_data_witness :
  let f : Example.Forest := New [WithTrees 3; WithSeed 42] in
  Example.data <> [] /\ 1 <= len (hd [] Example.data) /\
  wide (len (hd [] Example.data)) Example.data /\
  makeAccepts (nTrees f) = true /\ 0 <= sampleSize f /\
  contamination f = F64.dec 1 1 /\ len Example.data <= 2 ^ 63 /\
  exists f' : Example.Forest,
    Fit f Example.data = Val f' /\ trained f' = true /\
    len (trees f') = nTrees f.
Proof.
  intros f.
  assert (H1 : Example.data <> []) by discriminate.
  assert (H2 : 1 <= len (hd [] Example.data)) by (vm_compute; discriminate).
  assert (H3 : wide (len (hd [] Example.data)) Example.data)
    by exact example_wide.
  assert (H4 : makeAccepts (nTrees f) = true) by (vm_compute; reflexivity).
  assert (H5 : 0 <= sampleSize f) by (vm_compute; discriminate).
  assert (H6 : contamination f = F64.dec 1 1) by reflexivity.
  assert (H7 : len Example.data <= 2 ^ 63) by (vm_compute; discriminate).
  repeat (split; [assumption|]).
  exact (Fit_returns_on_rectangular_data
           (RL := RefRand_laws) (IL := RefRand_Intn_laws)
           f Example.data H1 H2 H3 H4 H5 (or_introl (conj H6 H7))).
Defined.

Lemma Fit_panics_on_negative_options_witness :
  Example.data <> [] /\
  Fit (New [WithTrees (-1)] : Example.Forest) Example.data
  = Panic MakeSliceLenOutOfRange /\
  Fit (New [WithSampleSize (-1)] : Example.Forest) Example.data
  = Panic SliceBoundsOutOfRange.
Proof.
  assert (H : Example.data <> []) by discriminate.
  split; [exact H|]. split.
  - apply (proj1 (Fit_panics_on_negative_options
                    (New [WithTrees (-1)] : Example.Forest) Example.data H)).
    vm_compute. reflexivity.
  - apply (proj2 (Fit_panics_on_negative_options
                    (New [WithSampleSize (-1)] : Example.Forest)
                    Example.data H)).
    + vm_compute. reflexivity.
    + vm_compute. reflexivity.
Defined.

Lemma PredictStream_stops_on_cancel_witness :
  let f := Example.forest in
  let scores := Example.scoresOf f Example.batch in
  trained f = true /\
  Forall2 (fun s v => PredictOne f s = Val v) Example.batch scores /\
  PredictStream f (map (fun s => Received s Sent) Example.batch
                   ++ Canceled :: [Closed])
  = (map (fun sv => scoreRecord f (fst sv) (snd sv))
         (combine Example.batch scores),
     Returned (Some ErrCanceled)).
Proof.
  intros f scores.
  assert (Ht : trained f = true) by (vm_compute; reflexivity).
  assert (Hs : Forall2 (fun s v => PredictOne f s = Val v)
                       Example.batch scores)
    by (apply PredictOne_each; [exact Ht | vm_compute; reflexivity]).
  split; [exact Ht|]. split; [exact Hs|].
  exact (proj1 (PredictStream_stops_on_cancel
                  f Example.batch scores [Closed] Ht Hs)).
Defined.

Lemma percentile_zero_is_the_minimum_witness :
  Example2.values <> [] /\ len Example2.values <= 2 ^ 63 /\
  noNaN Example2.values /\
  exists m, percentile Example2.values F64.zero = Val m /\
            In m Example2.values /\
            Forall (fun x => F64.leb m x = true) Example2.values.
Proof.
  assert (H1 : Example2.values <> []) by discriminate.
  assert (H2 : len Example2.values <= 2 ^ 63) by (vm_compute; discriminate).
  assert (H3 : noNaN Example2.values) by (repeat constructor).
  repeat (split; [assumption|]).
  exact (proj2 (percentile_zero_is_the_minimum Example2.values H1 H2 H3)).
Defined.

Lemma percentile_hundred_is_the_maximum_witness :
  Example2.values <> [] /\ len Example2.values <= 2 ^ 46 /\
  noNaN Example2.values /\
  exists m, percentile Example2.values (F64.of_int 100) = Val m /\
            In m Example2.values /\
            Forall (fun x => F64.leb x m = true) Example2.values.
Proof.
  assert (H1 : Example2.values <> []) by discriminate.
  assert (H2 : len Example2.values <= 2 ^ 46) by (vm_compute; discriminate).
  assert (H3 : noNaN Example2.values) by (repeat constructor).
  repeat (split; [assumption|]).
  exact (proj2 (percentile_hundred_is_the_maximum Example2.values H1 H2 H3)).
Defined.

Lemma trained_is_permanent_witness :
  trained Example.forest = true /\
  run Example.forest Example2.laterCalls = Some (Example.forest, false) /\
  trained Example.forest = true /\
  (forall B, Predict Example.forest B <> Error ErrNotTrained) /\
  (forall x, PredictOne Example.forest x <> Error ErrNotTrained).
Proof.
  assert (Ht : trained Example.forest = true) by (vm_compute; reflexivity).
  assert (Hr : run Example.forest Example2.laterCalls
               = Some (Example.forest, false)) by (vm_compute; reflexivity).
  split; [exact Ht|]. split; [exact Hr|].
  exact (trained_is_permanent Example.forest Example2.laterCalls
           Example.forest false Ht Hr).
Defined.

Lemma sample_size_one_scores_NaN_witness :
  let f : Example.Forest := New [WithSampleSize 1; WithTrees 3] in
  Example.data <> [] /\ len Example.data <= 2 ^ 63 /\
  0 <= nTrees f /\ 0 <= sampleSize f <= 1 /\
  contamination f = F64.dec 1 1 /\
  exists f' : Example.Forest,
    Fit f Example.data = Val f' /\
    trained f' = true /\
    avgPathLength f' = F64.zero /\
    forall x, PredictOne f' x = Val F64.nan.
Proof.
  intros f.
  assert (H1 : Example.data <> []) by discriminate.
  assert (H2 : len Example.data <= 2 ^ 63) by (vm_compute; discriminate).
  assert (H3 : 0 <= nTrees f) by (vm_compute; discriminate).
  assert (H4 : 0 <= sampleSize f <= 1)
    by (vm_compute; split; discriminate).
  assert (H5 : contamination f = F64.dec 1 1) by reflexivity.
  repeat (split; [assumption|]).
  exact (sample_size_one_scores_NaN
           (ML := RefMath_laws) (RL := RefRand_laws)
           f Example.data H1 H2 H3 H4 (or_introl H5)).
Defined.


Lemma generated_traffic_is_rectangular_witness :
  0 <= 3 /\
  (exists data g',
     generateNormalTraffic 3 (0 : Z) = Val (data, g') /\
     len data = 3 /\ Forall (fun r => len r = 5) data) /\
  (exists data g',
     generateMixedTraffic 3 (0 : Z) = Val (data, g') /\
     len data = 3 /\ Forall (fun r => len r = 5) data).
Proof.
  assert (H : 0 <= 3) by (vm_compute; discriminate).
  destruct (generated_traffic_is_rectangular 3 (0 : Z) H) as (H1 & H2 & _).
  split; [exact H|]. split; [exact H1 | exact H2].
Defined.

Lemma main_runs_to_its_end_witness :
  exists lines threshold,
    main (0 : Z) = Done lines (len lines) 100 threshold /\
    len lines <= 100 /\
    Forall (fun l => 0 <= fst (fst l) < 100 /\
                     F64.geb (snd (fst l)) threshold = true /\
                     len (snd l) = 5) lines.
Proof.
  exact (main_runs_to_its_end
           (RL := RefRand_laws) (IL := RefRand_Intn_laws) (0 : Z)).
Defined.

End Runs2.
